(** * peargent: tools, agents, routers and pools

    A shallow embedding of the core of peargent (peargent/core/tool.py,
    agent.py, state.py, router.py, pool.py) and of its Groq model
    (peargent/models/base.py, groq.py), and the properties of its
    tool-call parser, its tool runner, its agent loop and its pool loop.

    Modelling choices, in one place:
    - a Python [str] is a list of code points ([N]); a Python [int] that
      counts something is a [nat];
    - the values that travel between the model, the parser and the tools
      are the ones [json.loads] can build (None, bool, int, float, str,
      list, dict); a float is kept as the lexeme it was read from;
    - a dict that is iterated is an association list in insertion order;
      a dict that is only looked up (registries, the key-value store) is a
      [gmap];
    - effects are threaded explicitly: a computation reads and writes an
      abstract [World] (what models and callables can touch) and appends
      to a trace of observable events; it returns, raises, or runs out of
      fuel (only the agent's [while True] loop can);
    - interpreter resource limits (recursion depth, integer digit limit)
      are not modelled. *)

From Stdlib Require Import String Ascii ZArith NArith Lia.
From stdpp Require Import base decidable option list gmap.

Set Warnings "-register-all".
Local Open Scope N_scope.

(* ===================================================================== *)
(** ** Strings *)
(* ===================================================================== *)

(** A character is a Unicode code point. *)
Abbreviation char := N (only parsing).
Abbreviation str := (list N) (only parsing).

(** The code points of an ASCII literal. *)
Definition lit (s : string) : str :=
  map N_of_ascii (list_ascii_of_string s).

(** The same, with every apostrophe read as a double quote: JSON texts are
    written ['like this'] in the examples below. *)
Definition jlit (s : string) : str :=
  map (fun c => if c =? 39 then 34 else c) (lit s).

Definition str_eqb (a b : str) : bool := bool_decide (a = b).

(** [Py_UNICODE_ISSPACE]: what [str.strip()] removes and what [\s] matches
    in a [str] pattern. *)
Definition py_isspace (c : char) : bool :=
  ((9 <=? c) && (c <=? 13)) || ((28 <=? c) && (c <=? 32))
  || (c =? 133) || (c =? 160) || (c =? 5760)
  || ((8192 <=? c) && (c <=? 8202))
  || (c =? 8232) || (c =? 8233) || (c =? 8239) || (c =? 8287) || (c =? 12288).

Fixpoint lstrip (s : str) : str :=
  match s with
  | c :: s' => if py_isspace c then lstrip s' else s
  | [] => []
  end.

(** [str.strip()]. *)
Definition strip (s : str) : str := reverse (lstrip (reverse (lstrip s))).

Fixpoint starts_with (p s : str) : bool :=
  match p, s with
  | [], _ => true
  | a :: p', b :: s' => (a =? b) && starts_with p' s'
  | _ :: _, [] => false
  end.

(** [sub in s] for two strings. *)
Fixpoint is_substring (sub s : str) : bool :=
  starts_with sub s ||
  match s with
  | [] => false
  | _ :: s' => is_substring sub s'
  end.

(** [str.capitalize()] on ASCII letters (the roles it is applied to are
    ASCII words). *)
Definition ascii_upper (c : char) : char :=
  if (97 <=? c) && (c <=? 122) then c - 32 else c.
Definition ascii_lower (c : char) : char :=
  if (65 <=? c) && (c <=? 90) then c + 32 else c.
Definition capitalize (s : str) : str :=
  match s with
  | [] => []
  | c :: s' => ascii_upper c :: map ascii_lower s'
  end.

(** Decimal rendering of a count, as an f-string prints an [int]. *)
Fixpoint uint_digits (d : Decimal.uint) : str :=
  match d with
  | Decimal.Nil => []
  | Decimal.D0 d => 48 :: uint_digits d
  | Decimal.D1 d => 49 :: uint_digits d
  | Decimal.D2 d => 50 :: uint_digits d
  | Decimal.D3 d => 51 :: uint_digits d
  | Decimal.D4 d => 52 :: uint_digits d
  | Decimal.D5 d => 53 :: uint_digits d
  | Decimal.D6 d => 54 :: uint_digits d
  | Decimal.D7 d => 55 :: uint_digits d
  | Decimal.D8 d => 56 :: uint_digits d
  | Decimal.D9 d => 57 :: uint_digits d
  end.
Definition str_of_nat (n : nat) : str := uint_digits (Nat.to_uint n).

(* ===================================================================== *)
(** ** Values and classes *)
(* ===================================================================== *)

Inductive value : Type :=
  | VNone
  | VBool (b : bool)
  | VInt (z : Z)
  | VFloat (lexeme : str)
  | VStr (s : str)
  | VList (items : list value)
  | VDict (items : list (str * value)).

(** The classes a tool's [input_parameters] can name for such values. *)
Inductive pytype : Type :=
  | TNoneType | TBool | TInt | TFloat | TStr | TList | TDict | TObject.

Definition type_of (v : value) : pytype :=
  match v with
  | VNone => TNoneType
  | VBool _ => TBool
  | VInt _ => TInt
  | VFloat _ => TFloat
  | VStr _ => TStr
  | VList _ => TList
  | VDict _ => TDict
  end.

Definition pytype_eqb (a b : pytype) : bool :=
  match a, b with
  | TNoneType, TNoneType | TBool, TBool | TInt, TInt | TFloat, TFloat
  | TStr, TStr | TList, TList | TDict, TDict | TObject, TObject => true
  | _, _ => false
  end.

(** [issubclass]: [bool] derives from [int], everything from [object]. *)
Definition issubclass (c base : pytype) : bool :=
  pytype_eqb c base
  || pytype_eqb base TObject
  || (pytype_eqb c TBool && pytype_eqb base TInt).

Definition isinstance (v : value) (t : pytype) : bool :=
  issubclass (type_of v) t.

(** [cls.__name__]. *)
Definition type_name (t : pytype) : str :=
  match t with
  | TNoneType => lit "NoneType"
  | TBool => lit "bool"
  | TInt => lit "int"
  | TFloat => lit "float"
  | TStr => lit "str"
  | TList => lit "list"
  | TDict => lit "dict"
  | TObject => lit "object"
  end.

(** [str(cls)], as an f-string prints a class. *)
Definition class_repr (t : pytype) : str :=
  lit "<class '" ++ type_name t ++ lit "'>".

(** *** Dicts in insertion order *)

Fixpoint dict_get {A} (k : str) (d : list (str * A)) : option A :=
  match d with
  | [] => None
  | (k', v) :: d' => if str_eqb k k' then Some v else dict_get k d'
  end.

Definition dict_has {A} (k : str) (d : list (str * A)) : bool :=
  match dict_get k d with Some _ => true | None => false end.

(** [d[k] = v]: a key already present keeps its place. *)
Fixpoint dict_set {A} (k : str) (v : A) (d : list (str * A)) : list (str * A) :=
  match d with
  | [] => [(k, v)]
  | (k', v') :: d' =>
      if str_eqb k k' then (k, v) :: d' else (k', v') :: dict_set k v d'
  end.

(** [dict(pairs)]. *)
Definition dict_of_pairs {A} (pairs : list (str * A)) : list (str * A) :=
  foldl (fun d kv => dict_set kv.1 kv.2 d) [] pairs.

(* ===================================================================== *)
(** ** Effects *)
(* ===================================================================== *)

(** An exception: its class name and its message. *)
Record exn : Type := Exn { exn_class : str; exn_msg : str }.

Definition ValueError (msg : str) : exn := Exn (lit "ValueError") msg.
Definition TypeError (msg : str) : exn := Exn (lit "TypeError") msg.
Definition KeyError (msg : str) : exn := Exn (lit "KeyError") msg.
Definition IndexError (msg : str) : exn := Exn (lit "IndexError") msg.

(** How a computation ends.  [OutOfFuel] is the model's reading of a loop
    that has not finished within the fuel it was given. *)
Inductive outcome (A : Type) : Type :=
  | Returned (a : A)
  | Raised (e : exn)
  | OutOfFuel.
Arguments Returned {A} a.
Arguments Raised {A} e.
Arguments OutOfFuel {A}.

(** What an observer sees of a run. *)
Inductive event : Type :=
  | EvGenerate (agent : str) (prompt : str)
  | EvCall (tool : str) (kwargs : list (str * value))
  | EvAgentRun (agent : str) (input : str).

(** The run-time state of tools and agents: the outside world, and the
    trace so far. *)
Record rt (World : Type) : Type := Rt { world : World; trace : list event }.
Arguments Rt {World} world trace.
Arguments world {World} r.
Arguments trace {World} r.

(** A computation over a state of type [S]. *)
Definition M (S A : Type) : Type := S -> outcome A * S.

Section Effects.
Context {S : Type}.

Definition ret {A} (a : A) : M S A := fun s => (Returned a, s).

Definition bind {A B} (m : M S A) (k : A -> M S B) : M S B :=
  fun s =>
    match m s with
    | (Returned a, s') => k a s'
    | (Raised e, s') => (Raised e, s')
    | (OutOfFuel, s') => (OutOfFuel, s')
    end.

Definition raise {A} (e : exn) : M S A := fun s => (Raised e, s).

Definition out_of_fuel {A} : M S A := fun s => (OutOfFuel, s).

Definition get_state : M S S := fun s => (Returned s, s).

Definition modify (f : S -> S) : M S unit := fun s => (Returned tt, f s).

End Effects.

Section WorldEffects.
Context {World : Type}.

Definition emit (ev : event) : M (rt World) unit :=
  modify (fun s => Rt (world s) (trace s ++ [ev])).

(** A step of the outside world: it may change the world, never the
    trace. *)
Definition perform {A} (f : World -> outcome A * World) : M (rt World) A :=
  fun s => let '(r, w) := f (world s) in (r, Rt w (trace s)).

End WorldEffects.

Notation "'do' x <- c1 ; c2" := (bind c1 (fun x => c2))
  (at level 10, x name, c1 at level 100, c2 at level 200).
Notation "c1 ;; c2" := (bind c1 (fun _ => c2))
  (at level 100, c2 at level 200, right associativity).

(* ===================================================================== *)
(** ** core/tool.py *)
(* ===================================================================== *)

Module Tool.
Section Defs.
Context {World : Type}.

(** The wrapped callable, given its keyword arguments.  Binding them to
    the function's parameters is part of the call: a keyword the function
    does not take makes the call raise. *)
Definition callable : Type :=
  list (str * value) -> World -> outcome value * World.

Record t : Type := mk {
  name : str;
  description : str;
  input_parameters : list (str * pytype);
  call_function : callable;
}.

(** [Tool.__init__], called with keyword arguments: the four parameters
    it declares, and [others], the keywords of the call that are none of
    them.  Binding the keywords is part of the call: the first one the
    function does not take makes the call raise, and no tool is built. *)
Definition init (name description : str)
    (input_parameters : list (str * pytype)) (call_function : callable)
    (others : list (str * value)) : M (rt World) t :=
  match others with
  | (key, _) :: _ =>
      raise (TypeError (lit "Tool.__init__() got an unexpected keyword argument '"
                        ++ key ++ lit "'"))
  | [] => ret (mk name description input_parameters call_function)
  end.

(** [key in args]. *)
Definition py_contains (args : value) (key : str) : M (rt World) bool :=
  match args with
  | VDict d => ret (dict_has key d)
  | VList l =>
      ret (existsb (fun v => match v with VStr s => str_eqb s key | _ => false end) l)
  | VStr s => ret (is_substring key s)
  | _ =>
      raise (TypeError (lit "argument of type '" ++ type_name (type_of args)
                        ++ lit "' is not iterable"))
  end.

(** [args[key]] for a string key. *)
Definition py_getitem (args : value) (key : str) : M (rt World) value :=
  match args with
  | VDict d =>
      match dict_get key d with
      | Some v => ret v
      | None => raise (KeyError key)
      end
  | VList _ => raise (TypeError (lit "list indices must be integers or slices, not str"))
  | VStr _ => raise (TypeError (lit "string indices must be integers, not 'str'"))
  | _ =>
      raise (TypeError (lit "'" ++ type_name (type_of args)
                        ++ lit "' object is not subscriptable"))
  end.

(** The two errors [Tool.run] raises itself. *)
Definition missing_parameter (tool_name key : str) : exn :=
  ValueError (lit "Missing required parameter '" ++ key
              ++ lit "' for tool '" ++ tool_name ++ lit "'").

Definition wrong_type (key : str) (expected_type : pytype) (v : value) : exn :=
  TypeError (lit "Parameter '" ++ key ++ lit "' should be of type "
             ++ class_repr expected_type ++ lit ", got "
             ++ class_repr (type_of v)).

(** The loop of [Tool.run] over [input_parameters.items()]. *)
Fixpoint check_parameters (tool_name : str) (params : list (str * pytype))
    (args : value) : M (rt World) unit :=
  match params with
  | [] => ret tt
  | (key, expected_type) :: rest =>
      do present <- py_contains args key;
      if negb present then raise (missing_parameter tool_name key)
      else
        do v <- py_getitem args key;
        if negb (isinstance v expected_type)
        then raise (wrong_type key expected_type v)
        else check_parameters tool_name rest args
  end.

(** [self.call_function] applied to [args] unpacked as keyword
    arguments. *)
Definition call_with_kwargs (t : t) (args : value) : M (rt World) value :=
  match args with
  | VDict d => emit (EvCall (name t) d) ;; perform (call_function t d)
  | _ =>
      raise (TypeError (lit "argument after ** must be a mapping, not "
                        ++ type_name (type_of args)))
  end.

(** [Tool.run]. *)
Definition run (t : t) (args : value) : M (rt World) value :=
  check_parameters (name t) (input_parameters t) args ;;
  call_with_kwargs t args.

End Defs.
Arguments callable : clear implicits.
Arguments t : clear implicits.
End Tool.

(* ===================================================================== *)
(** ** json.loads *)
(* ===================================================================== *)

(** The decoder of CPython's [json] module with its default settings
    (strict strings, [NaN] and [Infinity] accepted), as a partial function:
    [None] stands for [JSONDecodeError]. *)
Module Json.

Definition ch_is (a : ascii) (c : char) : bool := c =? N_of_ascii a.
Definition quote : char := 34.
Definition backslash : char := 92.

(** The four characters the decoder skips between tokens. *)
Definition is_ws (c : char) : bool :=
  (c =? 32) || (c =? 9) || (c =? 10) || (c =? 13).

Fixpoint skip_ws (s : str) : str :=
  match s with
  | c :: s' => if is_ws c then skip_ws s' else s
  | [] => []
  end.

Definition is_digit (c : char) : bool := (48 <=? c) && (c <=? 57).

Fixpoint span_digits (s : str) : str * str :=
  match s with
  | c :: s' =>
      if is_digit c then let '(ds, r) := span_digits s' in (c :: ds, r)
      else ([], s)
  | [] => ([], [])
  end.

Definition hex_val (c : char) : option N :=
  if is_digit c then Some (c - 48)
  else if (97 <=? c) && (c <=? 102) then Some (c - 87)
  else if (65 <=? c) && (c <=? 70) then Some (c - 55)
  else None.

(** The four hex digits of a [\uXXXX] escape. *)
Definition hex4 (a b c d : char) : option N :=
  match hex_val a, hex_val b, hex_val c, hex_val d with
  | Some a, Some b, Some c, Some d => Some (((a * 16 + b) * 16 + c) * 16 + d)
  | _, _, _, _ => None
  end.

Definition is_high_surrogate (c : N) : bool := (55296 <=? c) && (c <=? 56319).
Definition is_low_surrogate (c : N) : bool := (56320 <=? c) && (c <=? 57343).
Definition join_surrogates (hi lo : N) : N :=
  65536 + ((hi - 55296) * 1024 + (lo - 56320)).

Definition simple_escape (c : char) : option char :=
  if c =? quote then Some quote
  else if c =? backslash then Some backslash
  else if ch_is "/" c then Some c
  else if ch_is "b" c then Some 8
  else if ch_is "f" c then Some 12
  else if ch_is "n" c then Some 10
  else if ch_is "r" c then Some 13
  else if ch_is "t" c then Some 9
  else None.

(** [scanstring], entered after the opening quote: the decoded text and
    what follows the closing quote. *)
Fixpoint scanstring (s : str) (acc : str) : option (str * str) :=
  match s with
  | [] => None
  | c :: r =>
      if c =? quote then Some (acc, r)
      else if c =? backslash then
        match r with
        | [] => None
        | e :: r1 =>
            if ch_is "u" e then
              match r1 with
              | a :: b :: c0 :: d :: r2 =>
                  match hex4 a b c0 d with
                  | None => None
                  | Some hi =>
                      match r2 with
                      | b1 :: u1 :: a' :: b' :: c' :: d' :: r3 =>
                          if is_high_surrogate hi && (b1 =? backslash) && ch_is "u" u1
                          then
                            match hex4 a' b' c' d' with
                            | None => None
                            | Some lo =>
                                if is_low_surrogate lo
                                then scanstring r3 (acc ++ [join_surrogates hi lo])
                                else scanstring r2 (acc ++ [hi])
                            end
                          else scanstring r2 (acc ++ [hi])
                      | _ => scanstring r2 (acc ++ [hi])
                      end
                  end
              | _ => None
              end
            else
              match simple_escape e with
              | Some x => scanstring r1 (acc ++ [x])
              | None => None
              end
        end
      else if c <=? 31 then None
      else scanstring r (acc ++ [c])
  end.

Definition int_of_digits (ds : str) : Z :=
  foldl (fun z c => (z * 10 + Z.of_N (c - 48))%Z) 0%Z ds.

(** The fraction of a number: a dot and at least one digit. *)
Definition match_frac (s : str) : str * str :=
  match s with
  | c :: r =>
      if ch_is "." c then
        match span_digits r with
        | ([], _) => ([], s)
        | (ds, r') => (c :: ds, r')
        end
      else ([], s)
  | [] => ([], s)
  end.

(** The exponent of a number: [e] or [E], a sign if any, at least one
    digit. *)
Definition match_exp (s : str) : str * str :=
  match s with
  | c :: r =>
      if ch_is "e" c || ch_is "E" c then
        let '(sign, r1) :=
          match r with
          | g :: r1 => if ch_is "-" g || ch_is "+" g then ([g], r1) else ([], r)
          | [] => ([], r)
          end in
        match span_digits r1 with
        | ([], _) => ([], s)
        | (ds, r') => (c :: sign ++ ds, r')
        end
      else ([], s)
  | [] => ([], s)
  end.

(** [match_number]: an [int] when the lexeme has neither fraction nor
    exponent, a [float] otherwise. *)
Definition match_number (s : str) : option (value * str) :=
  let '(neg, s1) :=
    match s with
    | c :: r => if ch_is "-" c then (true, r) else (false, s)
    | [] => (false, s)
    end in
  match s1 with
  | [] => None
  | c :: r =>
      let int_part :=
        if ch_is "0" c then Some ([c], r)
        else if is_digit c then
          let '(ds, r') := span_digits r in Some (c :: ds, r')
        else None in
      match int_part with
      | None => None
      | Some (ds, r1) =>
          let '(frac, r2) := match_frac r1 in
          let '(exp, r3) := match_exp r2 in
          match frac, exp with
          | [], [] =>
              let z := int_of_digits ds in
              Some (VInt (if neg then (- z)%Z else z), r3)
          | _, _ =>
              Some (VFloat ((if neg then [N_of_ascii "-"] else []) ++ ds ++ frac ++ exp), r3)
          end
      end
  end.

(** [scan_once] with the object and array parsers it calls.  The three
    recurse on [fuel]; a result never needs more fuel than the characters
    it consumes ([JsonFacts.fuel_settles] below). *)
Fixpoint scan_once (fuel : nat) (s : str) : option (value * str) :=
  match fuel with
  | O => None
  | S fuel =>
      match s with
      | [] => None
      | c :: r =>
          if c =? quote then
            match scanstring r [] with
            | Some (x, r') => Some (VStr x, r')
            | None => None
            end
          else if ch_is "{" c then
            match skip_ws r with
            | c1 :: r1 =>
                if ch_is "}" c1 then Some (VDict [], r1)
                else
                  match parse_members fuel (c1 :: r1) [] with
                  | Some (d, r') => Some (VDict d, r')
                  | None => None
                  end
            | [] => None
            end
          else if ch_is "[" c then
            match skip_ws r with
            | c1 :: r1 =>
                if ch_is "]" c1 then Some (VList [], r1)
                else
                  match parse_elements fuel (c1 :: r1) [] with
                  | Some (l, r') => Some (VList l, r')
                  | None => None
                  end
            | [] => None
            end
          else if starts_with (lit "null") s
          then Some (VNone, drop 4 s)
          else if starts_with (lit "true") s
          then Some (VBool true, drop 4 s)
          else if starts_with (lit "false") s
          then Some (VBool false, drop 5 s)
          else if starts_with (lit "NaN") s
          then Some (VFloat (lit "NaN"), drop 3 s)
          else if starts_with (lit "Infinity") s
          then Some (VFloat (lit "Infinity"), drop 8 s)
          else if starts_with (lit "-Infinity") s
          then Some (VFloat (lit "-Infinity"), drop 9 s)
          else match_number s
      end
  end
(** The members of an object, from the opening quote of a key. *)
with parse_members (fuel : nat) (s : str) (acc : list (str * value))
    : option (list (str * value) * str) :=
  match fuel with
  | O => None
  | S fuel =>
      match s with
      | c :: r =>
          if c =? quote then
            match scanstring r [] with
            | None => None
            | Some (key, r1) =>
                match skip_ws r1 with
                | c2 :: r2 =>
                    if ch_is ":" c2 then
                      match scan_once fuel (skip_ws r2) with
                      | None => None
                      | Some (v, r3) =>
                          let acc' := dict_set key v acc in
                          match skip_ws r3 with
                          | c4 :: r4 =>
                              if ch_is "}" c4 then Some (acc', r4)
                              else if ch_is "," c4
                              then parse_members fuel (skip_ws r4) acc'
                              else None
                          | [] => None
                          end
                      end
                    else None
                | [] => None
                end
            end
          else None
      | [] => None
      end
  end
(** The elements of an array, from the first character of an element. *)
with parse_elements (fuel : nat) (s : str) (acc : list value)
    : option (list value * str) :=
  match fuel with
  | O => None
  | S fuel =>
      match scan_once fuel s with
      | None => None
      | Some (v, r1) =>
          let acc' := acc ++ [v] in
          match skip_ws r1 with
          | c2 :: r2 =>
              if ch_is "]" c2 then Some (acc', r2)
              else if ch_is "," c2
              then parse_elements fuel (skip_ws r2) acc'
              else None
          | [] => None
          end
      end
  end.

(** [json.loads(s)] for a [str].  The fuel is enough for every text
    ([JsonFacts.loads_fuel_adequate] below). *)
Definition loads (s : str) : option value :=
  if starts_with [65279] s then None
  else
    match scan_once (S (length s)) (skip_ws s) with
    | Some (v, r) =>
        match skip_ws r with
        | [] => Some v
        | _ :: _ => None
        end
    | None => None
    end.

(** A fuelled parser gives each of its results with any fuel that is not
    smaller than the text the result has consumed. *)
Definition settled {A} (parse : nat -> str -> option (A * str)) (fuel : nat) : Prop :=
  ∀ s v r, parse fuel s = Some (v, r) ->
    (length r < length s)%nat
    ∧ ∀ fuel', (length s - length r <= fuel')%nat -> parse fuel' s = Some (v, r).

End Json.

(* ===================================================================== *)
(** ** re.search *)
(* ===================================================================== *)

(** The fragment of Python's regular expressions that [agent.py] uses,
    with the backtracking matcher's order of attempts: an optional or
    greedy item is tried longest first, a lazy one shortest first, and the
    first attempt that lets the rest of the pattern match wins. *)
Module Re.

Inductive re : Type :=
  | Lit (s : str)                    (* a literal text *)
  | Seq (r1 r2 : re)                 (* r1 r2 *)
  | Opt (r : re)                     (* (?:r)? *)
  | Star (p : char -> bool)          (* [p]* *)
  | StarLazy (p : char -> bool)      (* [p]*? *)
  | Group (r : re).                  (* (r), the pattern's only group *)

Section Matcher.
Context {R : Type}.

(** [k] is what remains to be matched; it is tried at the longest run of
    [p] first, then at shorter ones. *)
Fixpoint star_greedy (p : char -> bool) (s : str) (k : str -> option R)
    : option R :=
  match s with
  | c :: s' =>
      if p c then
        match star_greedy p s' k with
        | Some x => Some x
        | None => k s
        end
      else k s
  | [] => k []
  end.

(** [k] is tried at the shortest run of [p] first. *)
Fixpoint star_lazy (p : char -> bool) (s : str) (k : str -> option R)
    : option R :=
  match k s with
  | Some x => Some x
  | None =>
      match s with
      | c :: s' => if p c then star_lazy p s' k else None
      | [] => None
      end
  end.

(** Match [r] at the start of [s], then [k] on the captured group so far
    and the rest of [s]. *)
Fixpoint match_at (r : re) (group : option str) (s : str)
    (k : option str -> str -> option R) : option R :=
  match r with
  | Lit l => if starts_with l s then k group (drop (length l) s) else None
  | Seq r1 r2 => match_at r1 group s (fun g s' => match_at r2 g s' k)
  | Opt r' =>
      match match_at r' group s k with
      | Some x => Some x
      | None => k group s
      end
  | Star p => star_greedy p s (k group)
  | StarLazy p => star_lazy p s (k group)
  | Group r' =>
      match_at r' group s
        (fun _ s' => k (Some (take (length s - length s') s)) s')
  end.

End Matcher.

(** [re.search(r, s)]: the match that starts leftmost, given as its
    [group(1)] ([None] inside when the group took no part), or [None]. *)
Fixpoint search (r : re) (s : str) : option (option str) :=
  match match_at r None s (fun g _ => Some g) with
  | Some g => Some g
  | None =>
      match s with
      | _ :: s' => search r s'
      | [] => None
      end
  end.

(** The texts a pattern matches, whatever the order of attempts. *)
Fixpoint lang (r : re) (m : str) : Prop :=
  match r with
  | Lit l => m = l
  | Seq r1 r2 => ∃ m1 m2, m = m1 ++ m2 ∧ lang r1 m1 ∧ lang r2 m2
  | Opt r' => m = [] ∨ lang r' m
  | Star p | StarLazy p => Forall (fun c => p c = true) m
  | Group r' => lang r' m
  end.

End Re.

(* ===================================================================== *)
(** ** core/agent.py *)
(* ===================================================================== *)

Module Agent.

(** An item of [temporary_memory]: a dict with keys [role] and
    [content]. *)
Record entry : Type := Entry { role : str; content : value }.

(** A stop condition (peargent/core/stopping.py is not part of the
    sources read here): the capability [should_stop(step, memory)]. *)
Record StopCondition : Type := { should_stop : nat -> list entry -> bool }.

(** An item of [tool_schemas]. *)
Record tool_schema : Type := {
  schema_name : str;
  schema_description : str;
  schema_parameters : list (str * str);
}.

(** What the agent takes from outside the modules modelled here. *)
Class Externals : Type := {
  (** [str(v)] for a value that is not a [str] *)
  py_repr : value -> str;
  (** the jinja template [tools_prompt.j2], rendered on the schemas *)
  render_tools_template : list tool_schema -> str;
  (** [limit_steps] of peargent/core/stopping.py *)
  limit_steps : nat -> StopCondition;
}.

Section Defs.
Context {World : Type} `{Externals}.

Record t : Type := mk {
  name : str;
  model : str -> World -> outcome str * World;   (* [model.generate] *)
  persona : str;
  description : str;
  tools : gmap str (Tool.t World);
  stop_conditions : StopCondition;
  tool_schemas : list tool_schema;
}.

(** [Agent.__init__]. *)
Definition init (name : str) (model : str -> World -> outcome str * World)
    (persona description : str) (tools : list (Tool.t World))
    (stop : option StopCondition) : t :=
  {| name := name;
     model := model;
     persona := persona;
     description := description;
     tools := foldl (fun m tool => <[Tool.name tool := tool]> m) ∅ tools;
     stop_conditions := default (limit_steps 5%nat) stop;
     tool_schemas :=
       map (fun tool =>
              {| schema_name := Tool.name tool;
                 schema_description := Tool.description tool;
                 schema_parameters :=
                   map (fun kv => (kv.1, type_name kv.2))
                       (Tool.input_parameters tool) |})
           tools |}.

Definition nl : str := [10].

(** [sep.join(parts)]. *)
Fixpoint join (sep : str) (parts : list str) : str :=
  match parts with
  | [] => []
  | [x] => x
  | x :: rest => x ++ sep ++ join sep rest
  end.

(** How an f-string prints a value. *)
Definition py_str (v : value) : str :=
  match v with
  | VStr s => s
  | _ => py_repr v
  end.

(** [v[key]] on the dict of a tool call or of a tool entry. *)
Definition item (v : list (str * value)) (key : str) : value :=
  default VNone (dict_get key v).

Definition _render_tools_prompt (a : t) : str :=
  render_tools_template (tool_schemas a).

Definition _build_initial_prompt (a : t) (memory : list entry) : str :=
  let tools_prompt := _render_tools_prompt a in
  let memory_str :=
    join nl (map (fun it => capitalize (role it) ++ lit ": " ++ py_str (content it))
                 memory) in
  persona a ++ nl ++ nl ++ tools_prompt ++ nl ++ nl ++ memory_str
  ++ nl ++ nl ++ lit "Assistant:".

Definition _add_to_memory (memory : list entry) (role : str) (content : value)
    : list entry :=
  memory ++ [Entry role content].

(** The prompt built after a tool call. *)
Definition followup_prompt (a : t) (memory : list entry) : str :=
  let tools_prompt := _render_tools_prompt a in
  let conversation_history :=
    join nl
      (map (fun it =>
              if negb (str_eqb (role it) (lit "tool"))
              then capitalize (role it) ++ lit ": " ++ py_str (content it)
              else
                match content it with
                | VDict c =>
                    lit "Tool '" ++ py_str (item c (lit "name"))
                    ++ lit "' called with args:" ++ nl
                    ++ py_str (item c (lit "args")) ++ nl
                    ++ lit "Output:" ++ nl ++ py_str (item c (lit "output"))
                | _ => []
                end)
           memory) in
  persona a ++ nl ++ nl ++ tools_prompt ++ nl ++ nl
  ++ lit "Conversation History:" ++ nl ++ conversation_history ++ nl ++ nl
  ++ lit "Assistant: Based on the most recent tool output shown above, either:" ++ nl
  ++ lit "1. Use another tool." ++ nl
  ++ lit "2. Or provide the best final answer to the user's request in natural language." ++ nl
  ++ lit "Remember to reference the tool result if relevant.".

(** The test both stages of the parser apply to what [json.loads]
    gives: a dict with keys [tool] and [args]. *)
Definition as_tool_call (v : option value) : option (list (str * value)) :=
  match v with
  | Some (VDict d) =>
      if dict_has (lit "tool") d && dict_has (lit "args") d then Some d else None
  | _ => None
  end.

(** [r'```(?:json)?\s*(\{.*?\})\s*```'], with [re.DOTALL]. *)
Definition json_pattern : Re.re :=
  Re.Seq (Re.Lit (lit "```"))
  (Re.Seq (Re.Opt (Re.Lit (lit "json")))
  (Re.Seq (Re.Star py_isspace)
  (Re.Seq (Re.Group
             (Re.Seq (Re.Lit (lit "{"))
             (Re.Seq (Re.StarLazy (fun _ => true))
                     (Re.Lit (lit "}")))))
  (Re.Seq (Re.Star py_isspace)
          (Re.Lit (lit "```")))))).

(** [Agent._parse_tool_call]: the dict of the tool call, or [None]. *)
Definition _parse_tool_call (llm_output : str) : option (list (str * value)) :=
  match as_tool_call (Json.loads (strip llm_output)) with
  | Some structured_response => Some structured_response
  | None =>
      match Re.search json_pattern llm_output with
      | Some group1 =>
          as_tool_call
            (match group1 with
             | Some json_content => Json.loads json_content
             | None => None
             end)
      | None => None
      end
  end.

(** [tool_name not in self.tools], then [self.tools[tool_name]]. *)
Definition find_tool (a : t) (tool_name : value) : M (rt World) (Tool.t World) :=
  match tool_name with
  | VList _ | VDict _ =>
      raise (TypeError (lit "unhashable type: '" ++ type_name (type_of tool_name)
                        ++ lit "'"))
  | _ =>
      match
        match tool_name with
        | VStr n => tools a !! n
        | _ => None
        end
      with
      | Some tool => ret tool
      | None =>
          raise (ValueError (lit "Tool '" ++ py_str tool_name
                             ++ lit "' not found in agent's toolset."))
      end
  end.

Definition stopped_message (step : nat) : str :=
  lit "Stopped after " ++ str_of_nat step ++ lit " steps due to stop condition.".

(** One turn of the [while True] loop of [Agent.run], [step] already
    incremented: the next prompt and memory, or the value returned. *)
Definition turn (a : t) (step : nat) (prompt : str) (memory : list entry)
    : M (rt World) (str * list entry + str) :=
  do response <- (emit (EvGenerate (name a) prompt) ;; perform (model a prompt));
  let memory := _add_to_memory memory (lit "assistant") (VStr response) in
  match _parse_tool_call response with
  | Some tool_call =>
      let tool_name := item tool_call (lit "tool") in
      let args := item tool_call (lit "args") in
      do tool <- find_tool a tool_name;
      do tool_output <- Tool.run tool args;
      let memory :=
        _add_to_memory memory (lit "tool")
          (VDict [(lit "name", tool_name); (lit "args", args);
                  (lit "output", tool_output)]) in
      if should_stop (stop_conditions a) (step - 1)%nat memory
      then ret (inr (stopped_message step))
      else ret (inl (followup_prompt a memory, memory))
  | None => ret (inr response)
  end.

Fixpoint loop (fuel : nat) (a : t) (step : nat) (prompt : str)
    (memory : list entry) : M (rt World) str :=
  match fuel with
  | O => out_of_fuel
  | S fuel =>
      let step := S step in
      do r <- turn a step prompt memory;
      match r with
      | inl (prompt, memory) => loop fuel a step prompt memory
      | inr result => ret result
      end
  end.

(** [Agent.run]; [fuel] bounds the number of turns. *)
Definition run (fuel : nat) (a : t) (input_data : str) : M (rt World) str :=
  let memory := _add_to_memory [] (lit "user") (VStr input_data) in
  let prompt := _build_initial_prompt a memory in
  loop fuel a 0 prompt memory.

End Defs.
Arguments t : clear implicits.
End Agent.

(* ===================================================================== *)
(** ** core/state.py *)
(* ===================================================================== *)

Module State.

(** An item of [history]: a dict with keys [role], [content], [agent]. *)
Record message : Type := Message {
  role : str;
  content : str;
  agent : option str;
}.

Record t : Type := mk {
  kv : gmap str value;
  history : list message;
}.

(** [State.__init__]. *)
Definition init (data : option (gmap str value)) : t :=
  {| kv := default ∅ data; history := [] |}.

Definition add_message (role content : str) (agent : option str) (st : t) : t :=
  {| kv := kv st; history := history st ++ [Message role content agent] |}.

Definition get (key : str) (dflt : value) (st : t) : value :=
  default dflt (kv st !! key).

Definition set (key : str) (v : value) (st : t) : t :=
  {| kv := <[key := v]> (kv st); history := history st |}.

End State.

(* ===================================================================== *)
(** ** core/router.py *)
(* ===================================================================== *)

Module Router.

Record RouterResult : Type := { next_agent_name : option str }.

(** The dict [{"agent": ..., "output": ...}] a pool hands to its
    router. *)
Record last_result : Type := { agent : str; output : str }.

(** What a router may do with the [State] it is given: read it, and call
    its methods.  A router is a program over these operations that ends
    with its result, or by raising. *)
Inductive prog (A : Type) : Type :=
  | Done (a : A)
  | Fail (e : exn)
  | OpRead (k : State.t -> prog A)
  | OpGet (key : str) (dflt : value) (k : value -> prog A)
  | OpSet (key : str) (v : value) (k : prog A)
  | OpAddMessage (role content : str) (agent : option str) (k : prog A).
Arguments Done {A} a.
Arguments Fail {A} e.
Arguments OpRead {A} k.
Arguments OpGet {A} key dflt k.
Arguments OpSet {A} key v k.
Arguments OpAddMessage {A} role content agent k.

Fixpoint exec {A} (p : prog A) : M State.t A :=
  match p with
  | Done a => ret a
  | Fail e => raise e
  | OpRead k => do st <- get_state; exec (k st)
  | OpGet key dflt k => do st <- get_state; exec (k (State.get key dflt st))
  | OpSet key v k => modify (State.set key v) ;; exec k
  | OpAddMessage role content agent k =>
      modify (State.add_message role content agent) ;; exec k
  end.

(** [(state, call_count, last_result) -> RouterResult]; the result is
    [None] when the function returns no object at all. *)
Definition RouterFn : Type :=
  nat -> option last_result -> prog (option RouterResult).

Definition round_robin_router (agent_names : list str) : RouterFn :=
  fun call_count last_result =>
    if (length agent_names <=? call_count)%nat
    then Done (Some {| next_agent_name := None |})
    else
      match agent_names !! (call_count mod length agent_names)%nat with
      | Some n => Done (Some {| next_agent_name := Some n |})
      | None => Fail (IndexError (lit "list index out of range"))
      end.

End Router.

(* ===================================================================== *)
(** ** core/pool.py *)
(* ===================================================================== *)

Module Pool.
Section Defs.
Context {World : Type} `{Agent.Externals}.

Record t : Type := mk {
  agents_dict : gmap str (Agent.t World);
  agents_names : list str;
  default_model : option (str -> World -> outcome str * World);
  router : Router.RouterFn;
  max_iter : nat;
  state : State.t;
}.

(** The keys of a dict built from [l], in insertion order. *)
Definition first_occurrences (l : list str) : list str :=
  reverse (remove_dups (reverse l)).

(** The router of a pool built without one:
    [lambda state, call_count, last: RouterResult(None)].  [Pool.run]
    calls its router with the keywords [call_count] and [last_result], and
    this function has no parameter [last_result]: every call of it raises
    before its body is reached. *)
Definition default_router : Router.RouterFn :=
  fun _ _ =>
    Router.Fail
      (TypeError (lit "Pool.__init__.<locals>.<lambda>() got an unexpected keyword argument 'last_result'")).

(** [Pool.__init__]. *)
Definition init (agents : list (Agent.t World))
    (default_model : option (str -> World -> outcome str * World))
    (router : option Router.RouterFn) (max_iter : nat)
    (default_state : option State.t) : t :=
  {| agents_dict := foldl (fun m a => <[Agent.name a := a]> m) ∅ agents;
     agents_names := first_occurrences (map Agent.name agents);
     default_model := default_model;
     router := default default_router router;
     max_iter := max_iter;
     state := default (State.init None) default_state |}.

(** What a pool run works on: the shared state, and the run-time state of
    the agents it runs. *)
Record pool_rt : Type := PoolRt { shared : State.t; agents_rt : rt World }.

Definition on_state {A} (m : M State.t A) : M pool_rt A :=
  fun s => let '(r, st) := m (shared s) in (r, PoolRt st (agents_rt s)).

Definition on_agents {A} (m : M (rt World) A) : M pool_rt A :=
  fun s => let '(r, w) := m (agents_rt s) in (r, PoolRt (shared s) w).

(** The [while call_count < self.max_iter] loop of [Pool.run]; [fuel]
    bounds its turns and [agent_fuel] those of each agent run. *)
Fixpoint loop (fuel agent_fuel : nat) (p : t) (call_count : nat)
    (last_result : option Router.last_result) (current_input : str)
    : M pool_rt unit :=
  if (call_count <? max_iter p)%nat then
    match fuel with
    | O => out_of_fuel
    | S fuel =>
        do route <- on_state (Router.exec (router p call_count last_result));
        match route with
        | None => ret tt
        | Some route =>
            match Router.next_agent_name route with
            | None => ret tt
            | Some next_agent_name =>
                match agents_dict p !! next_agent_name with
                | None =>
                    raise (ValueError (lit "Router selected unknown agent '"
                                       ++ next_agent_name ++ lit "'"))
                | Some agent =>
                    let agent_input := current_input in
                    do output <-
                      on_agents
                        (emit (EvAgentRun (Agent.name agent) agent_input) ;;
                         Agent.run agent_fuel agent agent_input);
                    on_state
                      (modify (State.add_message (lit "assistant") output
                                 (Some (Agent.name agent)))) ;;
                    let last_result :=
                      {| Router.agent := Agent.name agent;
                         Router.output := output |} in
                    loop fuel agent_fuel p (S call_count) (Some last_result)
                         output
                end
            end
        end
    end
  else ret tt.

(** The content of the last assistant message of [history], or [""]. *)
Definition final (history : list State.message) : str :=
  match
    filter (fun m => State.role m = lit "assistant") (reverse history)
  with
  | m :: _ => State.content m
  | [] => []
  end.

(** [Pool.run]; the loop cannot take more than [max_iter] turns. *)
Definition run (agent_fuel : nat) (p : t) (user_input : str) : M pool_rt str :=
  on_state (modify (State.add_message (lit "user") user_input None)) ;;
  loop (max_iter p) agent_fuel p 0 None user_input ;;
  do s <- get_state;
  ret (final (State.history (shared s))).

(** The run-time state a run of [p] starts from. *)
Definition start (p : t) (s : rt World) : pool_rt := PoolRt (state p) s.

End Defs.
Arguments t : clear implicits.
Arguments pool_rt : clear implicits.
End Pool.

(* ===================================================================== *)
(** ** models/base.py and models/groq.py *)
(* ===================================================================== *)

Definition RuntimeError (msg : str) : exn := Exn (lit "RuntimeError") msg.
Definition AttributeError (msg : str) : exn := Exn (lit "AttributeError") msg.
(** [EnvironmentError] is another name of the class [OSError]. *)
Definition EnvironmentError (msg : str) : exn := Exn (lit "OSError") msg.

(** How an f-string prints an [int]. *)
Definition str_of_Z (z : Z) : str :=
  match Z.to_int z with
  | Decimal.Pos d => uint_digits d
  | Decimal.Neg d => 45 :: uint_digits d
  end.

(** Whether an optional string counts as true: [None] and [""] do not. *)
Definition truthy (s : option str) : bool :=
  match s with
  | Some (_ :: _) => true
  | _ => false
  end.

Module Groq.

(** What [requests.post] is called with: the URL, and the keyword
    arguments [headers] and [json]. *)
Record request : Type := Request {
  url : str;
  headers : list (str * str);
  json_body : value;
}.

(** What it gives back, as far as [generate] looks at it: the status, the
    text, and what [response.json()] does (it raises, or returns a
    value). *)
Record response : Type := Response {
  status_code : Z;
  text : str;
  json : exn + value;
}.

(** The outside of the model: the HTTP library and the environment of
    the process. *)
Class Http (World : Type) : Type := {
  post : request -> World -> outcome response * World;
  getenv : str -> World -> option str;
}.

Definition ENDPOINT_URL : str :=
  lit "https://api.groq.com/openai/v1/chat/completions".

(** The attributes of a [GroqModel]: those [BaseModel.__init__] sets
    ([model_name], [parameters]) and its own. *)
Record t : Type := mk {
  model_name : str;
  parameters : list (str * value);
  api_key : str;
  endpoint_url : str;
}.

Section Defs.
Context {World : Type} `{Http World}.

(** [GroqModel.__init__], with [BaseModel.__init__] inlined.  An argument
    that is [None] here was not given, or was given as [None]. *)
Definition init (model_name : option str)
    (parameters : option (list (str * value)))
    (api_key endpoint_url : option str) : M (rt World) t :=
  do api_key <-
    (if truthy api_key then ret api_key
     else do s <- get_state; ret (getenv (lit "GROQ_API_KEY") (world s)));
  if negb (truthy api_key)
  then raise (EnvironmentError
                (lit "Groq API key not found. Set GROQ_API_KEY in environment or pass `api_key=`."))
  else
    ret {| model_name := default (lit "gpt-4o-mini") model_name;
           parameters := default [] parameters;
           api_key := default [] api_key;
           endpoint_url :=
             if truthy endpoint_url then default [] endpoint_url
             else ENDPOINT_URL |}.

(** [self.parameters.get(key, dflt)]. *)
Definition parameter (g : t) (key : str) (dflt : value) : value :=
  default dflt (dict_get key (parameters g)).

(** The request [generate] sends. *)
Definition request_of (g : t) (prompt : str) : request :=
  let headers :=
    [(lit "Authorization", lit "Bearer " ++ api_key g);
     (lit "Content-Type", lit "application/json")] in
  let body :=
    VDict
      [(lit "model", VStr (model_name g));
       (lit "messages",
        VList
          [VDict [(lit "role", VStr (lit "system"));
                  (lit "content", parameter g (lit "system_prompt") (VStr []))];
           VDict [(lit "role", VStr (lit "user"));
                  (lit "content", VStr prompt)]]);
       (lit "temperature", parameter g (lit "temperature") (VFloat (lit "0.7")));
       (lit "max_tokens", parameter g (lit "max_tokens") (VInt 8192));
       (lit "tool_choice", VStr (lit "none"))] in
  Request ENDPOINT_URL headers body.

(** [v.get(key, dflt)]: a method of dicts only. *)
Definition py_get (v : value) (key : str) (dflt : value) : M (rt World) value :=
  match v with
  | VDict d => ret (default dflt (dict_get key d))
  | _ =>
      raise (AttributeError (lit "'" ++ type_name (type_of v)
                             ++ lit "' object has no attribute 'get'"))
  end.

(** [v[0]]. *)
Definition py_first (v : value) : M (rt World) value :=
  match v with
  | VList (x :: _) => ret x
  | VList [] => raise (IndexError (lit "list index out of range"))
  | VStr (c :: _) => ret (VStr [c])
  | VStr [] => raise (IndexError (lit "string index out of range"))
  | VDict _ => raise (KeyError (lit "0"))
  | _ =>
      raise (TypeError (lit "'" ++ type_name (type_of v)
                        ++ lit "' object is not subscriptable"))
  end.

(** [GroqModel.generate]. *)
Definition generate (g : t) (prompt : str) : M (rt World) value :=
  do response <- perform (post (request_of g prompt));
  if negb (status_code response =? 200)%Z
  then
    raise (RuntimeError (lit "Groq API error: " ++ str_of_Z (status_code response)
                         ++ lit ", " ++ text response))
  else
    do body <-
      match json response with
      | inl e => raise e
      | inr v => ret v
      end;
    do choices <- py_get body (lit "choices") (VList [VDict []]);
    do choice <- py_first choices;
    do message <- py_get choice (lit "message") (VDict []);
    py_get message (lit "content") (VStr []).

End Defs.
End Groq.

(* ===================================================================== *)
(** ** Observations on traces *)
(* ===================================================================== *)

Definition is_call (ev : event) : bool :=
  match ev with EvCall _ _ => true | _ => false end.

Definition is_agent_run (ev : event) : bool :=
  match ev with EvAgentRun _ _ => true | _ => false end.

(** How many times a wrapped callable was invoked. *)
Definition calls (tr : list event) : nat := length (filter is_call tr).

(** How many times a pool ran an agent. *)
Definition agent_runs (tr : list event) : nat := length (filter is_agent_run tr).

(** Whether the argument mapping [d] has parameter [p] with a value of
    the declared class. *)
Definition conforms (d : list (str * value)) (p : str * pytype) : bool :=
  match dict_get p.1 d with
  | Some v => isinstance v p.2
  | None => false
  end.

(** The argument mapping [d] gives every declared parameter a value of
    its class. *)
Definition accepted (params : list (str * pytype)) (d : list (str * value))
    : Prop :=
  ∀ key ty, (key, ty) ∈ params ->
    ∃ v, dict_get key d = Some v ∧ isinstance v ty = true.

(** The argument mapping [d] omits a declared parameter, or gives one a
    value of the wrong class. *)
Definition rejected (params : list (str * pytype)) (d : list (str * value))
    : Prop :=
  ∃ key ty, (key, ty) ∈ params ∧
    (dict_get key d = None
     ∨ ∃ v, dict_get key d = Some v ∧ isinstance v ty = false).

(** The errors [Tool.run] raises for the arguments it rejects. *)
Definition parameter_error (tool_name : str) (params : list (str * pytype))
    (d : list (str * value)) (e : exn) : Prop :=
  ∃ key ty, (key, ty) ∈ params ∧
    ((dict_get key d = None ∧ e = Tool.missing_parameter tool_name key) ∨
     (∃ v, dict_get key d = Some v ∧ isinstance v ty = false
           ∧ e = Tool.wrong_type key ty v)).

Section RunObservations.
Context {World : Type}.

(** The state after the model of agent [a] has answered [prompt] and
    left the world as [w]. *)
Definition answered (a : Agent.t World) (prompt : str) (w : World)
    (s : rt World) : rt World :=
  Rt w (trace s ++ [EvGenerate (Agent.name a) prompt]).


End RunObservations.

(** The memory after a tool call: the response, then the tool's record. *)
Definition memory_after_call (memory : list Agent.entry) (response : str)
    (tool_call : list (str * value)) (tool_output : value) : list Agent.entry :=
  Agent._add_to_memory
    (Agent._add_to_memory memory (lit "assistant") (VStr response))
    (lit "tool")
    (VDict [(lit "name", Agent.item tool_call (lit "tool"));
            (lit "args", Agent.item tool_call (lit "args"));
            (lit "output", tool_output)]).

(** A response that embeds a braced block between code fences:
    [pre], the opening fence with its optional [json] tag, blanks, the
    block [{body}], blanks, the closing fence, [post]. *)
Definition fenced (pre tag ws1 body ws2 post : str) : str :=
  pre ++ lit "```" ++ tag ++ ws1 ++ lit "{" ++ body ++ lit "}" ++ ws2
  ++ lit "```" ++ post.

Definition blank (ws : str) : Prop := Forall (fun c => py_isspace c = true) ws.

(** How the follow-up prompt shows an entry of the memory. *)
Definition shown `{Agent.Externals} (it : Agent.entry) : str :=
  if negb (str_eqb (Agent.role it) (lit "tool"))
  then capitalize (Agent.role it) ++ lit ": " ++ Agent.py_str (Agent.content it)
  else
    match Agent.content it with
    | VDict c =>
        lit "Tool '" ++ Agent.py_str (Agent.item c (lit "name"))
        ++ lit "' called with args:" ++ Agent.nl
        ++ Agent.py_str (Agent.item c (lit "args")) ++ Agent.nl
        ++ lit "Output:" ++ Agent.nl ++ Agent.py_str (Agent.item c (lit "output"))
    | _ => []
    end.

Definition is_generate (ev : event) : bool :=
  match ev with EvGenerate _ _ => true | _ => false end.

(** How many times a model was asked. *)
Definition generations (tr : list event) : nat := length (filter is_generate tr).

(** The class of [v] is [ty], or one [ty] is a base of: said without
    [isinstance]. *)
Definition class_matches (v : value) (ty : pytype) : Prop :=
  type_of v = ty ∨ ty = TObject ∨ (type_of v = TBool ∧ ty = TInt).

(** The argument mapping [d] binds every declared parameter to a value
    of a matching class. *)
Definition well_typed (params : list (str * pytype)) (d : list (str * value))
    : Prop :=
  ∀ key ty, (key, ty) ∈ params ->
    ∃ v, dict_get key d = Some v ∧ class_matches v ty.

(** The texts a pattern matches, with what the match makes of the group:
    [captures r g m g'] says that [r] matches the text [m] and turns the
    group [g] into [g']. *)
Fixpoint captures (r : Re.re) (g : option str) (m : str) (g' : option str)
    : Prop :=
  match r with
  | Re.Lit l => m = l ∧ g' = g
  | Re.Seq r1 r2 =>
      ∃ m1 m2 g1, m = m1 ++ m2 ∧ captures r1 g m1 g1 ∧ captures r2 g1 m2 g'
  | Re.Opt r' => (m = [] ∧ g' = g) ∨ captures r' g m g'
  | Re.Star p | Re.StarLazy p => Forall (fun c => p c = true) m ∧ g' = g
  | Re.Group r' => (∃ g1, captures r' g m g1) ∧ g' = Some m
  end.

(** The patterns whose literals hold no white space. *)
Fixpoint tidy (r : Re.re) : Prop :=
  match r with
  | Re.Lit l => Forall (fun c => py_isspace c = false) l
  | Re.Seq r1 r2 => tidy r1 ∧ tidy r2
  | Re.Opt r' | Re.Group r' => tidy r'
  | Re.Star _ | Re.StarLazy _ => True
  end.

(** *** What the parser looks for *)

(** A JSON object with the keys [tool] and [args]: a single-tool call. *)
Definition single_call (d : list (str * value)) : Prop :=
  is_Some (dict_get (lit "tool") d) ∧ is_Some (dict_get (lit "args") d).

(** A text that holds no single-tool call: it is not JSON, or not a JSON
    object, or an object that lacks one of the two keys. *)
Definition no_call (text : str) : Prop :=
  ∀ d, Json.loads text = Some (VDict d) -> ¬ single_call d.

(** *** The turns of an agent and of a pool, said without their loops *)

Section Turns.
Context {World : Type} `{Agent.Externals}.

(** A turn of agent [a] in which a tool is called and returns.  Asked
    [prompt] in the state [r], the model gives a response that parses as
    a call of a registered tool; the tool, run on the requested
    arguments, returns and leaves the state [r'].  [entries] is what the
    turn adds to the memory: the response, then the record of the call. *)
Definition tool_turn (a : Agent.t World) (prompt : str) (r : rt World)
    (entries : list Agent.entry) (r' : rt World) : Prop :=
  ∃ response w tool_call n args tool tool_output,
    Agent.model a prompt (world r) = (Returned response, w)
    ∧ Agent._parse_tool_call response = Some tool_call
    ∧ dict_get (lit "tool") tool_call = Some (VStr n)
    ∧ dict_get (lit "args") tool_call = Some args
    ∧ Agent.tools a !! n = Some tool
    ∧ Tool.run tool args (Rt w (trace r ++ [EvGenerate (Agent.name a) prompt]))
      = (Returned tool_output, r')
    ∧ entries
      = [Agent.Entry (lit "assistant") (VStr response);
         Agent.Entry (lit "tool")
           (VDict [(lit "name", VStr n); (lit "args", args);
                   (lit "output", tool_output)])].

(** [tool_turns a i k prompt memory r prompt' memory' r']: from the
    prompt, the memory and the state of the left, [k] such turns in a
    row, [i] turns having been completed before them.  After each of
    them the stop condition, asked with the number of turns completed
    before that turn and with the memory the turn has extended, says go
    on; the next prompt is the follow-up prompt of that memory. *)
Inductive tool_turns (a : Agent.t World)
    : nat -> nat -> str -> list Agent.entry -> rt World
      -> str -> list Agent.entry -> rt World -> Prop :=
  | tool_turns_none i prompt memory r :
      tool_turns a i 0 prompt memory r prompt memory r
  | tool_turns_more i k prompt memory r entries r1 prompt' memory' r' :
      tool_turn a prompt r entries r1 ->
      Agent.should_stop (Agent.stop_conditions a) i (memory ++ entries) = false ->
      tool_turns a (S i) k (Agent.followup_prompt a (memory ++ entries))
        (memory ++ entries) r1 prompt' memory' r' ->
      tool_turns a i (S k) prompt memory r prompt' memory' r'.


End Turns.

(* ===================================================================== *)
(** ** Fixtures *)
(* ===================================================================== *)

Module Fixtures.

(** [failing_tool] of examples/tool_error_handling_demo.py. *)
Definition failing_tool : Tool.callable unit :=
  fun _ w => (Raised (Exn (lit "Exception") (lit "This tool always fails!")), w).

Definition strict_tool : Tool.t unit :=
  Tool.mk (lit "strict_tool") (lit "Strict tool that crashes on error")
          [(lit "x", TStr)] failing_tool.

(** [repeat(text, times)] of tests/test_smoke.py, which returns
    [text * times]: the call binds the keyword arguments to the two
    parameters, and fails on a keyword that is neither.  The product is
    given for a [str] and an [int] (or a [bool], which is an [int]), the
    arguments [Tool.run] lets through for [repeat_tool]. *)
Definition repeat : Tool.callable unit :=
  fun kwargs w =>
    match
      filter (fun kv => kv.1 ≠ lit "text" ∧ kv.1 ≠ lit "times") kwargs
    with
    | (key, _) :: _ =>
        (Raised (TypeError (lit "repeat() got an unexpected keyword argument '"
                            ++ key ++ lit "'")), w)
    | [] =>
        match dict_get (lit "text") kwargs, dict_get (lit "times") kwargs with
        | Some (VStr text), Some (VInt times) =>
            (Returned (VStr (concat (replicate (Z.to_nat times) text))), w)
        | Some (VStr text), Some (VBool times) =>
            (Returned (VStr (if times then text else [])), w)
        | Some _, Some _ =>
            (Raised (TypeError (lit "unsupported operand type(s) for *")), w)
        | _, _ =>
            (Raised (TypeError (lit "repeat() missing a required positional argument")), w)
        end
    end.

Definition repeat_tool : Tool.t unit :=
  Tool.mk (lit "repeat") (lit "Repeat text multiple times")
          [(lit "text", TStr); (lit "times", TInt)] repeat.

(** The same callable behind a tool that declares only [text]. *)
Definition loose_repeat_tool : Tool.t unit :=
  Tool.mk (lit "repeat") (lit "Repeat text multiple times")
          [(lit "text", TStr)] repeat.

Definition start : rt unit := Rt tt [].

(** Stand-ins for what the agent takes from outside. *)
Definition externals : Agent.Externals :=
  {| Agent.py_repr := fun _ => lit "<value>";
     Agent.render_tools_template := fun _ => lit "<tools>";
     Agent.limit_steps :=
       fun n => {| Agent.should_stop := fun step _ => (n <=? step)%nat |} |}.

(** A model that gives the same answer to every prompt. *)
Definition says (answer : str) : str -> unit -> outcome str * unit :=
  fun _ w => (Returned answer, w).

(** The two requests of examples/parallel_tools_direct_test.py, as
    [json.dumps] writes them. *)
Definition single_json : str :=
  jlit "{'tool': 'tool_a', 'args': {'x': 'single_test'}}".

Definition parallel_json : str :=
  jlit "{'tools': [{'tool': 'tool_a', 'args': {'x': 'test1'}}, {'tool': 'tool_b', 'args': {'y': 'test2'}}, {'tool': 'tool_c', 'args': {'z': 'test3'}}]}".

(** A request for [repeat], and one for a tool nobody registered. *)
Definition repeat_json : str :=
  jlit "{'tool': 'repeat', 'args': {'text': 'ha', 'times': 3}}".

Definition search_json : str :=
  jlit "{'tool': 'search', 'args': {'q': 'mars'}}".

(** What a turn of an agent that is given [repeat_json] adds to the
    memory. *)
Definition repeat_said : Agent.entry :=
  Agent.Entry (lit "assistant") (VStr repeat_json).

Definition repeat_called : Agent.entry :=
  Agent.Entry (lit "tool")
    (VDict [(lit "name", VStr (lit "repeat"));
            (lit "args", VDict [(lit "text", VStr (lit "ha")); (lit "times", VInt 3)]);
            (lit "output", VStr (lit "hahaha"))]).

Definition always_stop : Agent.StopCondition :=
  {| Agent.should_stop := fun _ _ => true |}.

(** A stop condition that fires from index [k] on. *)
Definition stop_from (k : nat) : Agent.StopCondition :=
  {| Agent.should_stop := fun step _ => (k <=? step)%nat |}.

Definition never_stop : Agent.StopCondition :=
  {| Agent.should_stop := fun _ _ => false |}.

Section Agents.
Existing Instance externals.

Definition greeter : Agent.t unit :=
  Agent.init (lit "greeter") (says (lit "Hello there!"))
    (lit "You are a kind assistant.") (lit "Says hello.") [] None.

Definition repeater : Agent.t unit :=
  Agent.init (lit "repeat-agent") (says repeat_json)
    (lit "You repeat text.") (lit "An agent that repeats text.")
    [repeat_tool] (Some always_stop).

Definition searcher : Agent.t unit :=
  Agent.init (lit "searcher") (says search_json)
    (lit "You search.") (lit "An agent without a search tool.")
    [repeat_tool] None.

Definition fanout : Agent.t unit :=
  Agent.init (lit "fanout") (says parallel_json)
    (lit "You call tools.") (lit "An agent asked for three tools at once.")
    [repeat_tool] None.

(** An agent whose model names its tool by a list. *)
Definition lister : Agent.t unit :=
  Agent.init (lit "lister") (says (jlit "{'tool': ['repeat'], 'args': {}}"))
    (lit "You call tools.") (lit "An agent that names a tool by a list.")
    [repeat_tool] None.

(** A router that never signals termination. *)
Definition always_greeter : Router.RouterFn :=
  fun _ _ => Router.Done (Some {| Router.next_agent_name := Some (lit "greeter") |}).

Definition trio : Pool.t unit :=
  Pool.init [greeter] None (Some always_greeter) 3 None.



(** A pool whose router names an agent it does not have. *)
Definition misrouted : Pool.t unit :=
  Pool.init [greeter] None (Some (Router.round_robin_router [lit "ghost"])) 3 None.

(** A pool left with the default router. *)
Definition unrouted : Pool.t unit := Pool.init [greeter] None None 3 None.

(** The same, with no turn to take. *)
Definition benched : Pool.t unit := Pool.init [greeter] None None 0 None.

(** A pool whose router names no agent from the first turn on. *)
Definition idle : Pool.t unit :=
  Pool.init [greeter] None (Some (Router.round_robin_router [])) 3 None.

Definition pool_start (p : Pool.t unit) : Pool.pool_rt unit := Pool.start p start.

Definition patient_repeater : Agent.t unit :=
  Agent.init (lit "repeat-agent") (says repeat_json)
    (lit "You repeat text.") (lit "An agent that repeats text.")
    [repeat_tool] (Some (stop_from 2)).

Definition tireless_repeater : Agent.t unit :=
  Agent.init (lit "repeat-agent") (says repeat_json)
    (lit "You repeat text.") (lit "An agent that repeats text.")
    [repeat_tool] (Some never_stop).

(** An agent whose model gives [repeat] its count as a string. *)
Definition sloppy_repeater : Agent.t unit :=
  Agent.init (lit "repeat-agent")
    (says (jlit "{'tool': 'repeat', 'args': {'text': 'ha', 'times': '3'}}"))
    (lit "You repeat text.") (lit "An agent that repeats text.")
    [repeat_tool] None.

Definition echo : Agent.t unit :=
  Agent.init (lit "echo") (says (lit "Echo!"))
    (lit "You echo.") (lit "Echoes.") [] None.

(** An agent whose model is out of reach. *)
Definition offline : Agent.t unit :=
  Agent.init (lit "offline")
    (fun _ w => (Raised (Exn (lit "RuntimeError") (lit "Groq API error: 503, unavailable")), w))
    (lit "You are away.") (lit "An agent whose model fails.") [] None.

(** Two agents, routed round-robin over the pool's own list of names. *)
Definition duo : Pool.t unit :=
  Pool.init [greeter; echo] None
    (Some (Router.round_robin_router [lit "greeter"; lit "echo"])) 5 None.

Definition stranded : Pool.t unit :=
  Pool.init [greeter; offline] None
    (Some (Router.round_robin_router [lit "offline"])) 5 None.



End Agents.

(** A world for [GroqModel]: what the server answers to a request, and
    the environment of the process. *)
Record net : Type := Net {
  reply : Groq.request -> Groq.response;
  environ : str -> option str;
}.

Definition served : Groq.Http net :=
  {| Groq.post := fun req w => (Returned (reply w req), w);
     Groq.getenv := fun key w => environ w key |}.

(** A server that is away, with no key in the environment. *)
Definition away : net :=
  Net (fun _ =>
         Groq.Response 503%Z (lit "Service Unavailable")
           (inl (Exn (lit "JSONDecodeError") (lit "Expecting value"))))
      (fun _ => None).

Definition hello_body : list (str * value) :=
  [(lit "choices",
    VList [VDict [(lit "message",
                   VDict [(lit "role", VStr (lit "assistant"));
                          (lit "content", VStr (lit "Hello!"))])]])].

(** A server that answers, with a key in the environment. *)
Definition answering : net :=
  Net (fun _ => Groq.Response 200%Z [] (inr (VDict hello_body)))
      (fun key =>
         if str_eqb key (lit "GROQ_API_KEY") then Some (lit "gsk-env") else None).

Definition llama : Groq.t :=
  Groq.mk (lit "llama-3.3-70b-versatile") [] (lit "gsk-test") Groq.ENDPOINT_URL.

(** The same model, given another endpoint and a parameter [generate]
    does not read. *)
Definition llama_elsewhere : Groq.t :=
  Groq.mk (lit "llama-3.3-70b-versatile") [(lit "top_p", VFloat (lit "0.9"))]
          (lit "gsk-test") (lit "http://localhost:8080/v1").

End Fixtures.

(* ===================================================================== *)
(** ** Proofs: the monad *)
(* ===================================================================== *)

Section MonadFacts.
Context {S : Type}.

Lemma bind_returned {A B} (m : M S A) (k : A -> M S B) s a s' :
  m s = (Returned a, s') -> bind m k s = k a s'.
Proof. unfold bind. intros ->. reflexivity. Qed.

Lemma bind_raised {A B} (m : M S A) (k : A -> M S B) s e s' :
  m s = (Raised e, s') -> bind m k s = (Raised e, s').
Proof. unfold bind. intros ->. reflexivity. Qed.

Lemma bind_out_of_fuel {A B} (m : M S A) (k : A -> M S B) s s' :
  m s = (OutOfFuel, s') -> bind m k s = (OutOfFuel, s').
Proof. unfold bind. intros ->. reflexivity. Qed.

End MonadFacts.

Lemma emit_then {World A} ev (m : M (rt World) A) s :
  (emit ev ;; m) s = m (Rt (world s) (trace s ++ [ev])).
Proof. reflexivity. Qed.

(* ===================================================================== *)
(** ** Proofs: Tool.run *)
(* ===================================================================== *)

Section ToolFacts.
Context {World : Type}.
Implicit Types (t : Tool.t World) (d : list (str * value)) (s : rt World).

Lemma dict_has_get {A} k (d : list (str * A)) :
  dict_has k d = true <-> is_Some (dict_get k d).
Proof.
  unfold dict_has. destruct (dict_get k d); split; intros H;
    try done; try (by eexists).
Qed.

(** The checks pass on arguments that conform to every declared
    parameter, and leave the state alone. *)
Lemma check_parameters_conforming tool_name params d s :
  forallb (conforms d) params = true ->
  Tool.check_parameters tool_name params (VDict d) s = (Returned tt, s).
Proof.
  induction params as [|[key ty] params IH]; simpl; [done|].
  intros [Hc Hrest]%andb_prop. unfold conforms in Hc. simpl in Hc.
  destruct (dict_get key d) as [v|] eqn:Hget; [|done].
  unfold bind, Tool.py_contains, Tool.py_getitem, ret, dict_has.
  rewrite Hget. simpl. rewrite Hc. simpl. by apply IH.
Qed.

(** The checks fail on the first declared parameter the arguments do not
    conform to, and leave the state alone. *)
Lemma check_parameters_violating tool_name params d s :
  forallb (conforms d) params = false ->
  ∃ e, Tool.check_parameters tool_name params (VDict d) s = (Raised e, s)
       ∧ parameter_error tool_name params d e.
Proof.
  induction params as [|[key ty] params IH]; simpl; [done|].
  intros Hf. unfold bind, Tool.py_contains, Tool.py_getitem, ret, dict_has.
  destruct (dict_get key d) as [v|] eqn:Hget; simpl.
  - destruct (isinstance v ty) eqn:Hi; simpl.
    + unfold conforms in Hf. simpl in Hf. rewrite Hget, Hi in Hf. simpl in Hf.
      destruct (IH Hf) as (e & He & key' & ty' & Hin & Hcase).
      exists e. split; [done|]. exists key', ty'. split; [by right|done].
    + eexists. split; [reflexivity|]. exists key, ty. split; [by left|].
      right. by exists v.
  - eexists. split; [reflexivity|]. exists key, ty. split; [by left|].
    by left.
Qed.

(** On conforming arguments [run] is one invocation of the callable on
    the whole mapping. *)
Lemma run_conforming t d s :
  forallb (conforms d) (Tool.input_parameters t) = true ->
  Tool.run t (VDict d) s =
    (let '(r, w) := Tool.call_function t d (world s) in
     (r, Rt w (trace s ++ [EvCall (Tool.name t) d]))).
Proof.
  intros Hc. unfold Tool.run.
  erewrite bind_returned by (by apply check_parameters_conforming).
  unfold Tool.call_with_kwargs, bind, emit, modify, perform. simpl.
  by destruct (Tool.call_function t d (world s)) as [[r| |] w].
Qed.

Lemma calls_app tr1 tr2 : calls (tr1 ++ tr2) = (calls tr1 + calls tr2)%nat.
Proof. unfold calls. by rewrite filter_app, length_app. Qed.

(** [conforms] decides [accepted] and [rejected]. *)
Lemma accepted_conforms params d :
  accepted params d <-> forallb (conforms d) params = true.
Proof.
  unfold accepted. rewrite forallb_forall. split.
  - intros Ha [key ty] Hin%list_elem_of_In.
    destruct (Ha key ty Hin) as (v & Hv & Hi). unfold conforms. simpl.
    by rewrite Hv.
  - intros Hc key ty Hin%list_elem_of_In. specialize (Hc _ Hin).
    unfold conforms in Hc. simpl in Hc.
    destruct (dict_get key d) as [v|]; [by exists v|done].
Qed.

Lemma rejected_conforms params d :
  rejected params d <-> forallb (conforms d) params = false.
Proof.
  split.
  - intros (key & ty & Hin & Hbad).
    destruct (forallb (conforms d) params) eqn:Hc; [|done].
    apply accepted_conforms in Hc. destruct (Hc key ty Hin) as (v & Hv & Hi).
    destruct Hbad as [Hnone|(v' & Hv' & Hi')]; simplify_eq; congruence.
  - induction params as [|[key ty] params IH]; simpl; [done|].
    unfold conforms at 1. simpl.
    destruct (dict_get key d) as [v|] eqn:Hv.
    + destruct (isinstance v ty) eqn:Hi; simpl.
      * intros (key' & ty' & Hin & Hbad)%IH.
        exists key', ty'. split; [by right|done].
      * intros _. exists key, ty. split; [by left|]. right. by exists v.
    + intros _. exists key, ty. split; [by left|by left].
Qed.

(** [Tool.run] has no retry loop and no wait.  On arguments that pass
    validation, a callable that fails on every invocation is invoked
    exactly once, and its fault is what [run] raises. *)
Lemma run_failing_callable_once t d s :
  accepted (Tool.input_parameters t) d ->
  (∀ kwargs w, ∃ e w', Tool.call_function t kwargs w = (Raised e, w')) ->
  ∃ e w',
    Tool.call_function t d (world s) = (Raised e, w')
    ∧ Tool.run t (VDict d) s = (Raised e, Rt w' (trace s ++ [EvCall (Tool.name t) d]))
    ∧ calls (trace (Tool.run t (VDict d) s).2) = (calls (trace s) + 1)%nat.
Proof.
  intros Hc%accepted_conforms Hfail.
  destruct (Hfail d (world s)) as (e & w' & Hcall).
  exists e, w'. rewrite run_conforming by done. rewrite Hcall. simpl.
  split_and!; [done..|]. by rewrite calls_app.
Qed.

(** C2: for every tool and every argument mapping that omits a declared
    parameter or gives one a value of the wrong class, [Tool.run] raises
    a parameter error and nothing else happens: the run-time state is the
    one it started from, so the callable was not invoked (the world is
    untouched and the trace has no new call) and nothing was retried.
    [Tool] has no error policy that could change this. *)
Theorem run_rejects_bad_arguments t d s :
  rejected (Tool.input_parameters t) d ->
  ∃ e, Tool.run t (VDict d) s = (Raised e, s)
       ∧ parameter_error (Tool.name t) (Tool.input_parameters t) d e.
Proof.
  intros Hv%rejected_conforms.
  destruct (check_parameters_violating (Tool.name t) _ d s Hv) as (e & He & Hp).
  exists e. split; [|done]. unfold Tool.run. by erewrite bind_raised.
Qed.

(** C10: when every declared parameter is present with a value of its
    class, [Tool.run] hands the whole argument mapping to the callable,
    keys that [input_parameters] does not declare included, and returns
    or raises what the callable does: validation rejects no extra
    argument. *)
Theorem run_forwards_whole_mapping t d s :
  accepted (Tool.input_parameters t) d ->
  Tool.run t (VDict d) s =
    (let '(r, w) := Tool.call_function t d (world s) in
     (r, Rt w (trace s ++ [EvCall (Tool.name t) d]))).
Proof. intros Hc%accepted_conforms. by apply run_conforming. Qed.

End ToolFacts.

(* ===================================================================== *)
(** ** Tool.run at concrete tools *)
(* ===================================================================== *)

Section ToolExamples.
Import Fixtures.

(** C1 at the tool of examples/tool_error_handling_demo.py, asked for
    with [on_error="raise"] and [max_retries=2]: [Tool.__init__] takes
    neither keyword, the call raises [TypeError] and no tool is built, so
    nothing is there to be invoked three times.  Built from the four
    arguments the function does take, the tool invokes its failing
    callable once, and raises what the callable raised. *)
Theorem retry_settings_are_refused :
  Tool.init (lit "strict_tool") (lit "Strict tool that crashes on error")
    [(lit "x", TStr)] failing_tool
    [(lit "on_error", VStr (lit "raise")); (lit "max_retries", VInt 2)] start
  = (Raised (TypeError (lit "Tool.__init__() got an unexpected keyword argument 'on_error'")),
     start)
  ∧ Tool.init (lit "strict_tool") (lit "Strict tool that crashes on error")
      [(lit "x", TStr)] failing_tool
      [(lit "max_retries", VInt 2)] start
    = (Raised (TypeError (lit "Tool.__init__() got an unexpected keyword argument 'max_retries'")),
       start)
  ∧ Tool.init (lit "strict_tool") (lit "Strict tool that crashes on error")
      [(lit "x", TStr)] failing_tool [] start
    = (Returned strict_tool, start)
  ∧ Tool.run strict_tool (VDict [(lit "x", VStr (lit "test"))]) start
    = (Raised (Exn (lit "Exception") (lit "This tool always fails!")),
       Rt tt [EvCall (lit "strict_tool") [(lit "x", VStr (lit "test"))]])
  ∧ calls (trace (Tool.run strict_tool (VDict [(lit "x", VStr (lit "test"))]) start).2)
    = 1%nat.
Proof. split_and!; reflexivity. Qed.

Lemma run_failing_callable_once_witness :
  accepted (Tool.input_parameters strict_tool) [(lit "x", VStr (lit "test"))]
  ∧ (∀ kwargs w, ∃ e w', Tool.call_function strict_tool kwargs w = (Raised e, w'))
  ∧ ∃ e w',
      Tool.call_function strict_tool [(lit "x", VStr (lit "test"))] (world start)
      = (Raised e, w')
      ∧ Tool.run strict_tool (VDict [(lit "x", VStr (lit "test"))]) start
        = (Raised e,
           Rt w' (trace start
                  ++ [EvCall (Tool.name strict_tool) [(lit "x", VStr (lit "test"))]]))
      ∧ calls (trace (Tool.run strict_tool (VDict [(lit "x", VStr (lit "test"))]) start).2)
        = (calls (trace start) + 1)%nat.
Proof.
  assert (Hc : accepted (Tool.input_parameters strict_tool)
                        [(lit "x", VStr (lit "test"))])
    by (apply accepted_conforms; reflexivity).
  assert (Hf : ∀ kwargs w, ∃ e w',
             Tool.call_function strict_tool kwargs w = (Raised e, w')).
  { intros kwargs w. exists (Exn (lit "Exception") (lit "This tool always fails!")), w.
    reflexivity. }
  exact (conj Hc (conj Hf (run_failing_callable_once strict_tool _ start Hc Hf))).
Defined.

(** [repeat] is given [times] as a string: rejected before the call. *)
Lemma run_rejects_bad_arguments_witness :
  rejected (Tool.input_parameters repeat_tool)
           [(lit "text", VStr (lit "ha")); (lit "times", VStr (lit "3"))]
  ∧ ∃ e,
      Tool.run repeat_tool
        (VDict [(lit "text", VStr (lit "ha")); (lit "times", VStr (lit "3"))]) start
      = (Raised e, start)
      ∧ parameter_error (Tool.name repeat_tool) (Tool.input_parameters repeat_tool)
          [(lit "text", VStr (lit "ha")); (lit "times", VStr (lit "3"))] e.
Proof.
  assert (Hv : rejected (Tool.input_parameters repeat_tool)
                        [(lit "text", VStr (lit "ha")); (lit "times", VStr (lit "3"))])
    by (apply rejected_conforms; reflexivity).
  exact (conj Hv (run_rejects_bad_arguments repeat_tool _ start Hv)).
Defined.

(** [loose_repeat_tool] declares [text] only; it is given [times] too, and
    the callable receives both. *)
Lemma run_forwards_whole_mapping_witness :
  accepted (Tool.input_parameters loose_repeat_tool)
           [(lit "text", VStr (lit "ha")); (lit "times", VInt 3)]
  ∧ Tool.run loose_repeat_tool
      (VDict [(lit "text", VStr (lit "ha")); (lit "times", VInt 3)]) start
    = (let '(r, w) :=
         Tool.call_function loose_repeat_tool
           [(lit "text", VStr (lit "ha")); (lit "times", VInt 3)] (world start) in
       (r, Rt w (trace start
                 ++ [EvCall (Tool.name loose_repeat_tool)
                       [(lit "text", VStr (lit "ha")); (lit "times", VInt 3)]]))).
Proof.
  assert (Hc : accepted (Tool.input_parameters loose_repeat_tool)
                        [(lit "text", VStr (lit "ha")); (lit "times", VInt 3)])
    by (apply accepted_conforms; reflexivity).
  exact (conj Hc (run_forwards_whole_mapping loose_repeat_tool _ start Hc)).
Defined.

(** What the run gives there: the undeclared [times] reached the
    callable. *)
Example undeclared_argument_forwarded :
  Tool.run loose_repeat_tool
    (VDict [(lit "text", VStr (lit "ha")); (lit "times", VInt 3)]) start
  = (Returned (VStr (lit "hahaha")),
     Rt tt [EvCall (lit "repeat")
              [(lit "text", VStr (lit "ha")); (lit "times", VInt 3)]]).
Proof. reflexivity. Qed.

(** An argument that the function itself does not take is forwarded all
    the same: it is the call that fails, not the validation. *)
Example unexpected_argument_forwarded :
  Tool.run repeat_tool
    (VDict [(lit "text", VStr (lit "ha")); (lit "times", VInt 3);
            (lit "verbose", VBool true)]) start
  = (Raised (TypeError (lit "repeat() got an unexpected keyword argument 'verbose'")),
     Rt tt [EvCall (lit "repeat")
              [(lit "text", VStr (lit "ha")); (lit "times", VInt 3);
               (lit "verbose", VBool true)]]).
Proof. reflexivity. Qed.

(** The call of tests/test_smoke.py. *)
Example repeat_ha_3 :
  (Tool.run repeat_tool
     (VDict [(lit "text", VStr (lit "ha")); (lit "times", VInt 3)]) start).1
  = Returned (VStr (lit "hahaha")).
Proof. reflexivity. Qed.

End ToolExamples.

(* ===================================================================== *)
(** ** Proofs: strings *)
(* ===================================================================== *)

(** Replace the literals of the goal, or of a hypothesis, by their code
    points. *)
Ltac eval_lits :=
  repeat match goal with
         | |- context [lit ?x] =>
             let v := eval vm_compute in (lit x) in change (lit x) with v
         end.
Ltac eval_lits_in H :=
  repeat match type of H with
         | context [lit ?x] =>
             let v := eval vm_compute in (lit x) in change (lit x) with v in H
         end.

Lemma starts_with_app (l s : str) : starts_with l (l ++ s) = true.
Proof. induction l as [|a l IH]; simpl; [done|]. by rewrite N.eqb_refl. Qed.

Lemma starts_with_inv (l s : str) :
  starts_with l s = true -> s = l ++ drop (length l) s.
Proof.
  revert s. induction l as [|a l IH]; intros [|b s]; simpl; try done.
  intros [->%N.eqb_eq Hl]%andb_prop. f_equal. by apply IH.
Qed.

Lemma starts_with_head (a : char) (l s : str) :
  starts_with (a :: l) s = true -> ∃ s', s = a :: s'.
Proof. destruct s as [|b s]; simpl; [done|]. intros [->%N.eqb_eq _]%andb_prop. eauto. Qed.

Lemma lstrip_suffix (s : str) : lstrip s `suffix_of` s.
Proof.
  induction s as [|c s IH]; simpl; [done|].
  destruct (py_isspace c); [by apply suffix_cons_r|done].
Qed.

Lemma elem_of_lstrip (c : char) (s : str) : c ∈ lstrip s -> c ∈ s.
Proof. intros Hc. destruct (lstrip_suffix s) as [k ->]. set_solver. Qed.

Lemma elem_of_strip (c : char) (s : str) : c ∈ strip s -> c ∈ s.
Proof.
  unfold strip. rewrite elem_of_reverse. intros H%elem_of_lstrip.
  rewrite elem_of_reverse in H. by apply elem_of_lstrip.
Qed.

(* ===================================================================== *)
(** ** Proofs: the regular-expression matcher *)
(* ===================================================================== *)

Module ReFacts.
Import Re.

Section Soundness.
Context {R : Type}.
Implicit Types (k : str -> option R) (x : R).

Lemma star_greedy_sound p s k x :
  star_greedy p s k = Some x ->
  ∃ m s', s = m ++ s' ∧ Forall (fun c => p c = true) m ∧ k s' = Some x.
Proof.
  induction s as [|c s IH]; simpl.
  - intros Hk. by exists [], [].
  - destruct (p c) eqn:Hp.
    + destruct (star_greedy p s k) as [y|] eqn:Hs.
      * intros [= ->]. destruct (IH eq_refl) as (m & s' & -> & Hm & Hk).
        exists (c :: m), s'. split_and!; [done| |done]. by constructor.
      * intros Hk. by exists [], (c :: s).
    + intros Hk. by exists [], (c :: s).
Qed.

Lemma star_lazy_sound p s k x :
  star_lazy p s k = Some x ->
  ∃ m s', s = m ++ s' ∧ Forall (fun c => p c = true) m ∧ k s' = Some x.
Proof.
  induction s as [|c s IH]; simpl.
  - destruct (k []) eqn:Hk; [|done]. intros [= ->]. by exists [], [].
  - destruct (k (c :: s)) eqn:Hk.
    + intros [= ->]. by exists [], (c :: s).
    + destruct (p c) eqn:Hp; [|done]. intros Hs.
      destruct (IH Hs) as (m & s' & -> & Hm & Hk').
      exists (c :: m), s'. split_and!; [done| |done]. by constructor.
Qed.

(** Whatever the matcher accepts is a text of the pattern followed by a
    text its continuation accepts. *)
Lemma match_at_sound r g s (k : option str -> str -> option R) x :
  match_at r g s k = Some x ->
  ∃ m s' g', s = m ++ s' ∧ lang r m ∧ k g' s' = Some x.
Proof.
  revert g s k. induction r as [l|r1 IH1 r2 IH2|r IH|p|p|r IH]; intros g s k; simpl.
  - destruct (starts_with l s) eqn:Hl; [|done]. intros Hk.
    exists l, (drop (length l) s), g. split_and!; [|done..].
    by apply starts_with_inv.
  - intros H1. destruct (IH1 _ _ _ H1) as (m1 & s1 & g1 & -> & Hm1 & H2).
    destruct (IH2 _ _ _ H2) as (m2 & s2 & g2 & -> & Hm2 & Hk).
    exists (m1 ++ m2), s2, g2. split_and!; [by rewrite app_assoc| |done].
    by exists m1, m2.
  - destruct (match_at r g s k) as [y|] eqn:Hr.
    + intros [= ->]. destruct (IH _ _ _ Hr) as (m & s' & g' & -> & Hm & Hk).
      exists m, s', g'. split_and!; [done|by right|done].
    + intros Hk. exists [], s, g. split_and!; [done|by left|done].
  - intros (m & s' & -> & Hm & Hk)%star_greedy_sound. by exists m, s', g.
  - intros (m & s' & -> & Hm & Hk)%star_lazy_sound. by exists m, s', g.
  - intros Hr. destruct (IH _ _ _ Hr) as (m & s' & g' & -> & Hm & Hk).
    by eexists m, s', _.
Qed.

End Soundness.

(** A successful search found a text of the pattern inside the text
    searched. *)
Lemma search_sound r s g :
  search r s = Some g -> ∃ pre m post, s = pre ++ m ++ post ∧ lang r m.
Proof.
  induction s as [|c s IH]; simpl.
  - destruct (match_at r None [] _) as [y|] eqn:Hm; [|done]. intros _.
    destruct (match_at_sound _ _ _ _ _ Hm) as (m & s' & g' & Hs & Hl & _).
    by exists [], m, s'.
  - destruct (match_at r None (c :: s) _) as [y|] eqn:Hm.
    + intros _.
      destruct (match_at_sound _ _ _ _ _ Hm) as (m & s' & g' & Hs & Hl & _).
      by exists [], m, s'.
    + intros (pre & m & post & -> & Hl)%IH. by exists (c :: pre), m, post.
Qed.

(** Every text of the fence pattern opens with three backticks and has an
    opening brace. *)
Lemma lang_json_pattern m :
  lang Agent.json_pattern m -> ∃ m', m = lit "```" ++ m' ∧ 123 ∈ m'.
Proof.
  unfold Agent.json_pattern. cbn [lang].
  intros (m1 & m2 & -> & -> & m3 & m4 & -> & _ & m5 & m6 & -> & _ & m7 & m8
          & -> & (m9 & m10 & -> & -> & _) & _).
  eexists. split; [reflexivity|]. eval_lits. set_solver.
Qed.

(** A text with no opening brace, or with no backtick, has no fenced
    block. *)
Lemma search_json_pattern_none (s : str) :
  123 ∉ s ∨ 96 ∉ s -> search Agent.json_pattern s = None.
Proof.
  intros Hno. destruct (search Agent.json_pattern s) as [g|] eqn:Hs; [|done].
  destruct (search_sound _ _ _ Hs) as (pre & m & post & -> & Hm).
  destruct (lang_json_pattern _ Hm) as (m' & -> & Hb).
  exfalso. destruct Hno as [Hno|Hno]; apply Hno; eval_lits;
    rewrite !elem_of_app, !elem_of_cons; auto.
Qed.

(** *** The fence pattern finds a fenced block *)

Section Completeness.
Context {R : Type}.
Implicit Types (k : str -> option R) (x : R).

Lemma match_at_lit l s g (k : option str -> str -> option R) :
  match_at (Lit l) g (l ++ s) k = k g s.
Proof. simpl. by rewrite starts_with_app, drop_app_length. Qed.

(** A greedy run stops where the continuation first succeeds, coming
    from the longest run. *)
Lemma star_greedy_run p m s k x :
  Forall (fun c => p c = true) m ->
  match s with [] => True | c :: _ => p c = false end ->
  k s = Some x ->
  star_greedy p (m ++ s) k = Some x.
Proof.
  intros Hm Hs Hk. induction Hm as [|c m Hc Hm IH]; simpl.
  - destruct s as [|c s]; [done|]. simpl. by rewrite Hs.
  - by rewrite Hc, IH.
Qed.

Lemma star_greedy_none p s k :
  (∀ m s', s = m ++ s' -> Forall (fun c => p c = true) m -> k s' = None) ->
  star_greedy p s k = None.
Proof.
  induction s as [|c s IH]; intros Hk; simpl.
  - by apply (Hk [] []).
  - destruct (p c) eqn:Hp.
    + rewrite IH; [by apply (Hk [] (c :: s))|].
      intros m s' -> Hm. apply (Hk (c :: m) s'); [done|by constructor].
    + by apply (Hk [] (c :: s)).
Qed.

(** A lazy run stops at the first place where the continuation
    succeeds. *)
Lemma star_lazy_skip m s k x :
  (∀ m1 c m2, m = m1 ++ c :: m2 -> k (c :: m2 ++ s) = None) ->
  k s = Some x ->
  star_lazy (fun _ => true) (m ++ s) k = Some x.
Proof.
  intros Hm Hk. induction m as [|c m IH]; simpl.
  - destruct s; simpl; by rewrite Hk.
  - rewrite (Hm [] c m eq_refl). apply IH.
    intros m1 c' m2 ->. by apply (Hm (c :: m1) c' m2).
Qed.

End Completeness.

Lemma search_cons r c s :
  search r (c :: s) =
    match match_at r None (c :: s) (fun g _ => Some g) with
    | Some g => Some g
    | None => search r s
    end.
Proof. reflexivity. Qed.

Lemma starts_with_cons_ne (a c : char) (l s : str) :
  a ≠ c -> starts_with (a :: l) (c :: s) = false.
Proof. intros Hne. cbn [starts_with]. by apply N.eqb_neq in Hne as ->. Qed.

(** The fence pattern matches nowhere but at a backtick. *)
Lemma match_at_json_pattern_ne {R} c s g (k : option str -> str -> option R) :
  c ≠ 96 -> match_at Agent.json_pattern g (c :: s) k = None.
Proof.
  intros Hc. unfold Agent.json_pattern. cbn [match_at]. eval_lits.
  by rewrite starts_with_cons_ne.
Qed.

(** A search skips the places that cannot open a fence. *)
Lemma search_skip_prefix pre s :
  96 ∉ pre -> search Agent.json_pattern (pre ++ s) = search Agent.json_pattern s.
Proof.
  induction pre as [|c pre IH]; [done|].
  intros [Hc Hpre]%not_elem_of_cons. rewrite <- app_comm_cons, search_cons.
  rewrite match_at_json_pattern_ne by done. by apply IH.
Qed.

(** No fence opens inside a run of blanks that leads to a closing brace,
    when no backtick comes before the brace. *)
Lemma no_fence_before_brace (m2 tail m s' : str) :
  96 ∉ m2 ->
  m2 ++ 125 :: tail = m ++ s' ->
  Forall (fun c => py_isspace c = true) m ->
  starts_with [96; 96; 96] s' = false.
Proof.
  intros Hm2 Heq Hm. destruct (starts_with [96; 96; 96] s') eqn:Hs; [|done].
  apply starts_with_head in Hs as [s'' ->]. exfalso.
  apply app_eq_inv in Heq as [(j & -> & Hj)|(j & -> & Hj)].
  - destruct j as [|c j]; simplify_eq/=. apply Hm2. set_solver.
  - destruct j as [|c j]; simplify_eq/=.
    apply Forall_app in Hm as [_ Hm]. by inversion Hm.
Qed.

(** At a fence that holds a braced block with no backtick inside, the
    pattern matches, and its group is the block up to the last brace
    before the closing fence. *)
Lemma match_at_fenced {R} tag ws1 body ws2 post
    (k : option str -> str -> option R) x :
  tag = [] ∨ tag = lit "json" ->
  Forall (fun c => py_isspace c = true) ws1 ->
  Forall (fun c => py_isspace c = true) ws2 ->
  96 ∉ body ->
  k (Some (lit "{" ++ body ++ lit "}")) post = Some x ->
  match_at Agent.json_pattern None
    (lit "```" ++ tag ++ ws1 ++ lit "{" ++ body ++ lit "}" ++ ws2
     ++ lit "```" ++ post) k = Some x.
Proof.
  intros Htag Hws1 Hws2 Hbody Hk. unfold Agent.json_pattern.
  (* the opening fence *)
  change (match_at (Seq ?a ?b) ?g ?s ?k)
    with (match_at a g s (fun g' s' => match_at b g' s' k)).
  rewrite match_at_lit.
  (* the block, from the blanks before it *)
  assert (Hblock :
    match_at
      (Seq (Star py_isspace)
        (Seq (Group (Seq (Lit (lit "{"))
                    (Seq (StarLazy (fun _ => true)) (Lit (lit "}")))))
             (Seq (Star py_isspace) (Lit (lit "```")))))
      None (ws1 ++ lit "{" ++ body ++ lit "}" ++ ws2 ++ lit "```" ++ post) k
    = Some x).
  { cbn [match_at]. apply star_greedy_run; [done|by eval_lits|].
    rewrite starts_with_app, drop_app_length.
    change (length (lit "{" ++ ?t)) with (S (length t)).
    apply star_lazy_skip.
    - intros m1 c m2 ->.
      destruct (starts_with (lit "}") (c :: m2 ++ lit "}" ++ ws2 ++ lit "```" ++ post))
        eqn:Hc; [|done].
      apply star_greedy_none. intros m s' Heq Hm.
      eval_lits_in Heq. cbn [length drop app] in Heq. eval_lits.
      rewrite (no_fence_before_brace m2 (ws2 ++ [96; 96; 96] ++ post) m s');
        [done| |done..].
      intros Hin. apply Hbody. rewrite elem_of_app, elem_of_cons. auto.
    - rewrite starts_with_app, drop_app_length.
      apply star_greedy_run; [done|by eval_lits|].
      rewrite starts_with_app, drop_app_length.
      rewrite <- Hk. do 2 f_equal.
      rewrite (app_assoc body), (app_assoc (lit "{")).
      apply take_app_length'. rewrite !length_app. simpl. lia. }
  (* the optional word after the fence *)
  change (match_at (Seq ?a ?b) ?g ?s ?k)
    with (match_at a g s (fun g' s' => match_at b g' s' k)) at 1.
  cbn [match_at] in *.
  destruct Htag as [->| ->].
  - rewrite app_nil_l. 
    replace (starts_with (lit "json") (ws1 ++ lit "{" ++ body ++ lit "}" ++ ws2 ++ lit "```" ++ post)) with false; [exact Hblock|].
    destruct Hws1 as [|c ws1 Hc _]; [done|].
    rewrite <- app_comm_cons. symmetry. apply starts_with_cons_ne.
    intros <-. done.
  - rewrite starts_with_app, drop_app_length. by rewrite Hblock.
Qed.

(** The search finds the first fenced block: when no backtick comes
    before the opening fence, nor inside the block, the group of the match
    is that block, whatever follows the closing fence. *)
Lemma search_fenced pre tag ws1 body ws2 post :
  96 ∉ pre -> tag = [] ∨ tag = lit "json" -> blank ws1 -> blank ws2 ->
  96 ∉ body ->
  search Agent.json_pattern (fenced pre tag ws1 body ws2 post)
  = Some (Some (lit "{" ++ body ++ lit "}")).
Proof.
  intros Hpre Htag Hws1 Hws2 Hbody. unfold fenced.
  rewrite search_skip_prefix by done.
  change (lit "```" ++ ?t) with (96 :: ([96; 96] ++ t)) at 1.
  rewrite search_cons.
  change (96 :: ([96; 96] ++ ?t)) with (lit "```" ++ t).
  by erewrite match_at_fenced.
Qed.

End ReFacts.

(* ===================================================================== *)
(** ** Proofs: the JSON decoder *)
(* ===================================================================== *)

Module JsonFacts.
Import Json.

Lemma skip_ws_suffix (s : str) : skip_ws s `suffix_of` s.
Proof.
  induction s as [|c s IH]; simpl; [done|].
  destruct (is_ws c); [by apply suffix_cons_r|done].
Qed.

(** A number is never a dict. *)
Lemma match_number_not_dict s d r : match_number s ≠ Some (VDict d, r).
Proof.
  unfold match_number. intros H.
  repeat (case_match; simplify_eq/=).
Qed.

(** Only a text that opens with a brace decodes to a dict. *)
Lemma scan_once_dict fuel s d r :
  scan_once fuel s = Some (VDict d, r) -> ∃ s', s = 123 :: s'.
Proof.
  destruct fuel as [|fuel]; [done|]. destruct s as [|c s]; [done|].
  cbn [scan_once]. intros H.
  destruct (c =? quote); [by repeat (case_match; simplify_eq/=)|].
  destruct (ch_is "{" c) eqn:Hc.
  { apply N.eqb_eq in Hc as ->. by eexists. }
  destruct (ch_is "[" c); [by repeat (case_match; simplify_eq/=)|].
  repeat match type of H with
         | (if ?b then _ else _) = _ => destruct b; [done|]
         end.
  by apply match_number_not_dict in H.
Qed.

(** *** The fuel of [loads] is enough *)

Lemma skip_ws_length s : (length (skip_ws s) <= length s)%nat.
Proof.
  induction s as [|c s IH]; simpl; [done|]. destruct (is_ws c); simpl; lia.
Qed.

Lemma span_digits_length s ds r :
  span_digits s = (ds, r) -> (length s = length ds + length r)%nat.
Proof.
  revert ds r. induction s as [|c s IH]; intros ds r; simpl.
  - by intros [= <- <-].
  - destruct (is_digit c).
    + destruct (span_digits s) as [ds' r'] eqn:Hs. intros [= <- <-].
      simpl. by rewrite (IH ds' r').
    + by intros [= <- <-].
Qed.

Lemma match_frac_length s ds r :
  match_frac s = (ds, r) -> (length s = length ds + length r)%nat.
Proof.
  unfold match_frac. destruct s as [|c s]; [by intros [= <- <-]|].
  destruct (ch_is "." c); [|by intros [= <- <-]].
  destruct (span_digits s) as [[|d ds'] r'] eqn:Hs; intros [= <- <-]; [done|].
  apply span_digits_length in Hs. simpl in *. lia.
Qed.

Lemma match_exp_length s ds r :
  match_exp s = (ds, r) -> (length s = length ds + length r)%nat.
Proof.
  unfold match_exp. destruct s as [|c s]; [by intros [= <- <-]|].
  destruct (ch_is "e" c || ch_is "E" c); [|by intros [= <- <-]].
  destruct s as [|g s'].
  - simpl. by intros [= <- <-].
  - destruct (ch_is "-" g || ch_is "+" g).
    + destruct (span_digits s') as [[|d ds'] r'] eqn:Hs; intros [= <- <-]; [done|].
      apply span_digits_length in Hs. simpl in *. lia.
    + destruct (span_digits (g :: s')) as [[|d ds'] r'] eqn:Hs; intros [= <- <-]; [done|].
      apply span_digits_length in Hs. simpl in *. lia.
Qed.

Lemma match_number_length s v r :
  match_number s = Some (v, r) -> (length r < length s)%nat.
Proof.
  unfold match_number.
  set (p := match s with c :: r0 => if ch_is "-" c then (true, r0) else (false, s) | [] => (false, s) end).
  assert (Hp : (length p.2 <= length s)%nat).
  { subst p. destruct s as [|c s']; simpl; [done|]. destruct (ch_is "-" c); simpl; lia. }
  destruct p as [neg s1]. simpl in Hp.
  destruct s1 as [|c r1]; [done|].
  set (ip := if ch_is "0" c then Some ([c], r1) else if is_digit c then let '(ds, r') := span_digits r1 in Some (c :: ds, r') else None).
  assert (Hip : ∀ ds r2, ip = Some (ds, r2) -> (length r2 <= length r1)%nat).
  { subst ip. intros ds r2. destruct (ch_is "0" c); [by intros [= <- <-]|].
    destruct (is_digit c); [|done].
    destruct (span_digits r1) as [ds' r'] eqn:Hs. intros [= <- <-].
    apply span_digits_length in Hs. lia. }
  destruct ip as [[ds r2]|]; [|done]. specialize (Hip _ _ eq_refl).
  destruct (match_frac r2) as [frac r3] eqn:Hf.
  destruct (match_exp r3) as [exp r4] eqn:He.
  apply match_frac_length in Hf. apply match_exp_length in He.
  simpl in Hp.
  destruct frac, exp; intros [= <- <-]; simpl in *; lia.
Qed.
Lemma scanstring_length s acc x r :
  scanstring s acc = Some (x, r) -> (length r < length s)%nat.
Proof.
  assert (Hall : ∀ n s acc, (length s <= n)%nat ->
            scanstring s acc = Some (x, r) -> (length r < length s)%nat);
    [|by apply (Hall (length s))].
  clear s acc. induction n as [|n IH]; intros s acc Hle.
  - destruct s; [done|simpl in Hle; lia].
  - destruct s as [|c r0]; [done|]. cbn [scanstring].
    intros H.
    repeat match type of H with
           | (if ?b then _ else _) = _ => destruct b
           | match ?l with [] => _ | _ :: _ => _ end = _ => destruct l
           | match ?o with Some _ => _ | None => _ end = _ => destruct o
           end;
      try done; simplify_eq; cbn [length] in *; try lia;
      match goal with
      | H : scanstring _ _ = Some _ |- _ =>
          apply IH in H; cbn [length] in *; lia
      end.
Qed.
Lemma settled_S {A} (parse : nat -> str -> option (A * str)) s v r :
  (length r < length s)%nat
  ∧ (∀ fuel', (length s - length r <= S fuel')%nat -> parse (S fuel') s = Some (v, r)) ->
  (length r < length s)%nat
  ∧ ∀ fuel', (length s - length r <= fuel')%nat -> parse fuel' s = Some (v, r).
Proof.
  intros [Hlen HS]. split; [done|]. intros [|fuel'] Hf; [lia|by apply HS].
Qed.

Ltac skip_ws_cases r c' r' H E :=
  pose proof (skip_ws_length r) as H;
  destruct (skip_ws r) as [|c' r'] eqn:E; [done|]; cbn [length] in H.

Lemma fuel_settles fuel :
  settled scan_once fuel
  ∧ (∀ acc, settled (fun f s => parse_members f s acc) fuel)
  ∧ (∀ acc, settled (fun f s => parse_elements f s acc) fuel).
Proof.
  induction fuel as [|fuel (IHscan & IHmem & IHelem)]; [by split_and!|].
  split_and!.
  - intros s v r H. apply settled_S.
    destruct s as [|c r0]; [done|]. cbn [scan_once] in *. cbn [length].
    destruct (c =? quote).
    { destruct (scanstring r0 []) as [[x r1]|] eqn:Hs; [|done].
      apply scanstring_length in Hs. simplify_eq. split; [lia|done]. }
    destruct (ch_is "{" c).
    { skip_ws_cases r0 c1 r1 Hw E1. destruct (ch_is "}" c1).
      { simplify_eq. split; [lia|done]. }
      destruct (parse_members fuel (c1 :: r1) []) as [[d r']|] eqn:Hm; [|done].
      simplify_eq. destruct (IHmem _ _ _ _ Hm) as [Hlen Hrec].
      cbn [length] in *. split; [lia|]. intros fuel' Hf.
      by rewrite Hrec by lia. }
    destruct (ch_is "[" c).
    { skip_ws_cases r0 c1 r1 Hw E1. destruct (ch_is "]" c1).
      { simplify_eq. split; [lia|done]. }
      destruct (parse_elements fuel (c1 :: r1) []) as [[d r']|] eqn:Hm; [|done].
      simplify_eq. destruct (IHelem _ _ _ _ Hm) as [Hlen Hrec].
      cbn [length] in *. split; [lia|]. intros fuel' Hf.
      by rewrite Hrec by lia. }
    repeat match type of H with
           | (if starts_with ?l ?s then _ else _) = _ =>
               destruct (starts_with l s);
               [simplify_eq; rewrite length_drop; cbn [length];
                split; [lia|done]|]
           end.
    apply match_number_length in H as Hlen. cbn [length] in Hlen. by split; [lia|].
  - intros acc s d r H. apply (settled_S (fun f s => parse_members f s acc)).
    destruct s as [|c r0]; [done|]. cbn [parse_members] in *. cbn [length].
    destruct (c =? quote); [|done].
    destruct (scanstring r0 []) as [[key r1]|] eqn:Hs; [|done].
    apply scanstring_length in Hs.
    skip_ws_cases r1 c2 r2 Hw1 E1. destruct (ch_is ":" c2); [|done].
    pose proof (skip_ws_length r2) as Hw2.
    destruct (scan_once fuel (skip_ws r2)) as [[v r3]|] eqn:Hv; [|done].
    destruct (IHscan _ _ _ Hv) as [Hlen3 Hrec3].
    skip_ws_cases r3 c4 r4 Hw3 E3. destruct (ch_is "}" c4) eqn:Hclose.
    { simplify_eq. split; [lia|]. intros fuel' Hf.
      by rewrite Hrec3, E3, Hclose by lia. }
    destruct (ch_is "," c4) eqn:Hcomma; [|done].
    pose proof (skip_ws_length r4) as Hw4.
    destruct (IHmem _ _ _ _ H) as [Hlen Hrec].
    split; [lia|]. intros fuel' Hf.
    rewrite Hrec3, E3, Hclose, Hcomma by lia. by rewrite Hrec by lia.
  - intros acc s l r H. apply (settled_S (fun f s => parse_elements f s acc)).
    cbn [parse_elements] in *.
    destruct (scan_once fuel s) as [[v r1]|] eqn:Hv; [|done].
    destruct (IHscan _ _ _ Hv) as [Hlen1 Hrec1].
    skip_ws_cases r1 c2 r2 Hw1 E1. destruct (ch_is "]" c2) eqn:Hclose.
    { simplify_eq. split; [lia|]. intros fuel' Hf.
      by rewrite Hrec1, E1, Hclose by lia. }
    destruct (ch_is "," c2) eqn:Hcomma; [|done].
    pose proof (skip_ws_length r2) as Hw2.
    destruct (IHelem _ _ _ _ H) as [Hlen Hrec].
    split; [lia|]. intros fuel' Hf.
    rewrite Hrec1, E1, Hclose, Hcomma by lia. by rewrite Hrec by lia.
Qed.

(** The fuel [loads] gives its decoder is never what makes it fail: what
    any amount of fuel decodes, that amount decodes. *)
Lemma loads_fuel_adequate fuel s v r :
  scan_once fuel (skip_ws s) = Some (v, r) ->
  scan_once (S (length s)) (skip_ws s) = Some (v, r).
Proof.
  intros H. destruct (fuel_settles fuel) as (Hscan & _ & _).
  destruct (Hscan _ _ _ H) as [Hlen Hrec]. apply Hrec.
  pose proof (skip_ws_length s). lia.
Qed.
Lemma loads_dict s d : loads s = Some (VDict d) -> 123 ∈ s.
Proof.
  unfold loads. destruct (starts_with [65279] s); [done|].
  destruct (scan_once _ _) as [[v r]|] eqn:Hscan; [|done].
  destruct (skip_ws r); [|done]. intros [= ->].
  apply scan_once_dict in Hscan as [s' Hs'].
  destruct (skip_ws_suffix s) as [pre Hpre]. rewrite Hpre, Hs'.
  rewrite elem_of_app, elem_of_cons. auto.
Qed.

End JsonFacts.

(* ===================================================================== *)
(** ** Proofs: Agent._parse_tool_call *)
(* ===================================================================== *)

Section ParserFacts.

(** A dict with keys [tool] and [args] passes the test of both stages. *)
Lemma as_tool_call_dict d :
  dict_has (lit "tool") d = true -> dict_has (lit "args") d = true ->
  Agent.as_tool_call (Some (VDict d)) = Some d.
Proof. simpl. by intros -> ->. Qed.

(** What passes the test of a stage is a decoded dict. *)
Lemma as_tool_call_some v d :
  Agent.as_tool_call v = Some d ->
  v = Some (VDict d) ∧ dict_has (lit "tool") d = true
  ∧ dict_has (lit "args") d = true.
Proof.
  destruct v as [[| | | | | |d']|]; simpl; try done.
  destruct (dict_has (lit "tool") d') eqn:Ht, (dict_has (lit "args") d') eqn:Ha;
    simpl; try done.
  by intros [= ->].
Qed.

(** A text with no opening brace is no tool call. *)
Lemma parse_tool_call_no_brace text :
  123 ∉ text -> Agent._parse_tool_call text = None.
Proof.
  intros Hno. unfold Agent._parse_tool_call.
  destruct (Agent.as_tool_call (Json.loads (strip text))) as [d|] eqn:Hs.
  - apply as_tool_call_some in Hs as (Hl & _ & _).
    apply JsonFacts.loads_dict, elem_of_strip in Hl. done.
  - rewrite ReFacts.search_json_pattern_none; [done|by left].
Qed.

(** A text with no backtick is a tool call only as a whole. *)
Lemma parse_tool_call_no_fence text :
  96 ∉ text ->
  Agent._parse_tool_call text = Agent.as_tool_call (Json.loads (strip text)).
Proof.
  intros Hno. unfold Agent._parse_tool_call.
  destruct (Agent.as_tool_call (Json.loads (strip text))) as [d|]; [done|].
  rewrite ReFacts.search_json_pattern_none; [done|by right].
Qed.

End ParserFacts.

(* ===================================================================== *)
(** ** Proofs: Agent.run *)
(* ===================================================================== *)

Section AgentFacts.
Context {World : Type} `{Agent.Externals}.
Implicit Types (a : Agent.t World) (s : rt World) (memory : list Agent.entry).

Lemma generate_returned a prompt s response w :
  Agent.model a prompt (world s) = (Returned response, w) ->
  (emit (EvGenerate (Agent.name a) prompt) ;; perform (Agent.model a prompt)) s
  = (Returned response, answered a prompt w s).
Proof.
  intros Hm. unfold bind, emit, modify, perform. simpl. by rewrite Hm.
Qed.

(** A turn whose response is no tool call ends the run with the
    response. *)
Lemma turn_final a step prompt memory s response w :
  Agent.model a prompt (world s) = (Returned response, w) ->
  Agent._parse_tool_call response = None ->
  Agent.turn a step prompt memory s
  = (Returned (inr response), answered a prompt w s).
Proof.
  intros Hm Hp. unfold Agent.turn.
  erewrite bind_returned by (by apply generate_returned).
  by rewrite Hp.
Qed.

Lemma loop_final fuel a step prompt memory s response w :
  Agent.model a prompt (world s) = (Returned response, w) ->
  Agent._parse_tool_call response = None ->
  Agent.loop (S fuel) a step prompt memory s
  = (Returned response, answered a prompt w s).
Proof.
  intros Hm Hp. cbn [Agent.loop].
  by erewrite bind_returned by (by eapply turn_final).
Qed.

(** A turn whose response calls a tool that the registry lacks. *)
Lemma turn_unknown_tool a step prompt memory s response w tool_call n :
  Agent.model a prompt (world s) = (Returned response, w) ->
  Agent._parse_tool_call response = Some tool_call ->
  Agent.item tool_call (lit "tool") = VStr n ->
  Agent.tools a !! n = None ->
  Agent.turn a step prompt memory s
  = (Raised (ValueError (lit "Tool '" ++ n ++ lit "' not found in agent's toolset.")),
     answered a prompt w s).
Proof.
  intros Hm Hp Hn Ht. unfold Agent.turn.
  erewrite bind_returned by (by apply generate_returned).
  rewrite Hp. apply bind_raised. unfold Agent.find_tool. rewrite Hn, Ht.
  reflexivity.
Qed.

(** A turn whose response calls a registered tool that returns. *)
Lemma turn_tool_call a step prompt memory s response w tool_call n tool
    tool_output s' :
  Agent.model a prompt (world s) = (Returned response, w) ->
  Agent._parse_tool_call response = Some tool_call ->
  Agent.item tool_call (lit "tool") = VStr n ->
  Agent.tools a !! n = Some tool ->
  Tool.run tool (Agent.item tool_call (lit "args")) (answered a prompt w s)
  = (Returned tool_output, s') ->
  Agent.turn a step prompt memory s
  = (Returned
       (let memory' := memory_after_call memory response tool_call tool_output in
        if Agent.should_stop (Agent.stop_conditions a) (step - 1) memory'
        then inr (Agent.stopped_message step)
        else inl (Agent.followup_prompt a memory', memory')),
     s').
Proof.
  intros Hm Hp Hn Ht Hrun. unfold Agent.turn.
  erewrite bind_returned by (by apply generate_returned).
  rewrite Hp.
  erewrite bind_returned; [|unfold Agent.find_tool; rewrite Hn, Ht; reflexivity].
  erewrite bind_returned by done.
  unfold memory_after_call. cbn zeta.
  by destruct (Agent.should_stop _ _ _).
Qed.

(** The digits of a count are digits. *)
Lemma uint_digits_range d c : c ∈ uint_digits d -> 48 <= c <= 57.
Proof.
  induction d; simpl; rewrite ?elem_of_cons; try (intros [->|?]; [lia|auto]).
  by intros ?%elem_of_nil.
Qed.

Lemma stopped_message_no_brace step : 123 ∉ Agent.stopped_message step.
Proof.
  unfold Agent.stopped_message. eval_lits.
  rewrite !elem_of_app. intros [Hin|[Hin|Hin]].
  - revert Hin. rewrite !elem_of_cons, elem_of_nil. intros Hin.
    repeat (destruct Hin as [Hin|Hin]; [done|]). done.
  - apply uint_digits_range in Hin. lia.
  - revert Hin. rewrite !elem_of_cons, elem_of_nil. intros Hin.
    repeat (destruct Hin as [Hin|Hin]; [done|]). done.
Qed.

(** When the stop condition says stop after a tool call, the loop ends
    with the stop message, in the state the tool left. *)
Lemma loop_stops fuel a step prompt memory s response w
    tool_call n tool tool_output s' :
  Agent.model a prompt (world s) = (Returned response, w) ->
  Agent._parse_tool_call response = Some tool_call ->
  Agent.item tool_call (lit "tool") = VStr n ->
  Agent.tools a !! n = Some tool ->
  Tool.run tool (Agent.item tool_call (lit "args")) (answered a prompt w s)
  = (Returned tool_output, s') ->
  Agent.should_stop (Agent.stop_conditions a) step
    (memory_after_call memory response tool_call tool_output) = true ->
  Agent.loop (S fuel) a step prompt memory s
  = (Returned (Agent.stopped_message (S step)), s').
Proof.
  intros Hm Hp Hn Ht Hrun Hstop.
  cbn [Agent.loop]. erewrite bind_returned by (by eapply turn_tool_call).
  cbn zeta. replace (S step - 1)%nat with step by lia. by rewrite Hstop.
Qed.

(** When the stop condition says go on, the loop goes on with the
    follow-up prompt. *)
Lemma loop_continues fuel a step prompt memory s response w
    tool_call n tool tool_output s' :
  Agent.model a prompt (world s) = (Returned response, w) ->
  Agent._parse_tool_call response = Some tool_call ->
  Agent.item tool_call (lit "tool") = VStr n ->
  Agent.tools a !! n = Some tool ->
  Tool.run tool (Agent.item tool_call (lit "args")) (answered a prompt w s)
  = (Returned tool_output, s') ->
  Agent.should_stop (Agent.stop_conditions a) step
    (memory_after_call memory response tool_call tool_output) = false ->
  Agent.loop (S fuel) a step prompt memory s
  = Agent.loop fuel a (S step)
      (Agent.followup_prompt a (memory_after_call memory response tool_call tool_output))
      (memory_after_call memory response tool_call tool_output) s'.
Proof.
  intros Hm Hp Hn Ht Hrun Hstop.
  cbn [Agent.loop]. erewrite bind_returned by (by eapply turn_tool_call).
  cbn zeta. replace (S step - 1)%nat with step by lia. by rewrite Hstop.
Qed.

(** An unknown tool ends the run with an error, from any turn. *)
Lemma loop_unknown_tool fuel a step prompt memory s response w tool_call n :
  Agent.model a prompt (world s) = (Returned response, w) ->
  Agent._parse_tool_call response = Some tool_call ->
  Agent.item tool_call (lit "tool") = VStr n ->
  Agent.tools a !! n = None ->
  Agent.loop (S fuel) a step prompt memory s
  = (Raised (ValueError (lit "Tool '" ++ n ++ lit "' not found in agent's toolset.")),
     answered a prompt w s).
Proof.
  intros Hm Hp Hn Ht. cbn [Agent.loop].
  by erewrite bind_raised by (by eapply turn_unknown_tool).
Qed.

End AgentFacts.

(* ===================================================================== *)
(** ** Proofs: what tools and agents leave in the trace *)
(* ===================================================================== *)

Section Quiet.
Context {World : Type} `{Agent.Externals}.













End Quiet.

(* ===================================================================== *)
(** ** Proofs: State, Router and Pool.run *)
(* ===================================================================== *)

Section RouterFacts.

(** No router program removes or reorders a message. *)
Lemma exec_history_prefix {A} (p : Router.prog A) st :
  State.history st `prefix_of` State.history (Router.exec p st).2.
Proof.
  revert st. induction p as [a|e|k IH|key dflt k IH|key v k IH|role content agent k IH];
    intros st; simpl; try done.
  - apply IH.
  - apply IH.
  - unfold bind, modify. simpl. apply (IH (State.set key v st)).
  - unfold bind, modify. simpl.
    etrans; [|apply (IH (State.add_message role content agent st))].
    by apply prefix_app_r.
Qed.

(** C7: over a list of [n] agent names the round-robin router returns the
    name at index [call_count] for every [call_count < n], and the
    termination signal (no next agent) for every [call_count >= n]; it
    reads and writes nothing of the state. *)
Theorem round_robin_router_spec (agent_names : list str) (call_count : nat)
    (last_result : option Router.last_result) :
  ((call_count < length agent_names)%nat ->
   ∃ n, agent_names !! call_count = Some n
        ∧ Router.round_robin_router agent_names call_count last_result
          = Router.Done (Some {| Router.next_agent_name := Some n |}))
  ∧ ((length agent_names <= call_count)%nat ->
     Router.round_robin_router agent_names call_count last_result
     = Router.Done (Some {| Router.next_agent_name := None |})).
Proof.
  unfold Router.round_robin_router. split; intros Hc.
  - destruct (lookup_lt_is_Some_2 agent_names call_count Hc) as [n Hn].
    exists n. split; [done|].
    destruct (Nat.leb_spec (length agent_names) call_count); [lia|].
    by rewrite Nat.mod_small, Hn by done.
  - by destruct (Nat.leb_spec (length agent_names) call_count); [|lia].
Qed.

End RouterFacts.


Section PoolFacts.
Context {World : Type} `{Agent.Externals}.
Implicit Types (p : Pool.t World) (s : Pool.pool_rt World).

Lemma on_state_shared {A} (m : M State.t A) s :
  Pool.on_state m s = ((m (Pool.shared s)).1,
                       Pool.PoolRt (m (Pool.shared s)).2 (Pool.agents_rt s)).
Proof. unfold Pool.on_state. by destruct (m (Pool.shared s)). Qed.

Lemma on_agents_rt {A} (m : M (rt World) A) s :
  Pool.on_agents m s = ((m (Pool.agents_rt s)).1,
                        Pool.PoolRt (Pool.shared s) (m (Pool.agents_rt s)).2).
Proof. unfold Pool.on_agents. by destruct (m (Pool.agents_rt s)). Qed.

(** The pool loop only ever extends the history. *)
Lemma loop_history_prefix fuel agent_fuel p call_count last_result input s :
  State.history (Pool.shared s)
  `prefix_of`
  State.history (Pool.shared
    (Pool.loop fuel agent_fuel p call_count last_result input s).2).
Proof.
  revert call_count last_result input s.
  induction fuel as [|fuel IH]; intros call_count last_result input s; simpl.
  - by destruct (call_count <? Pool.max_iter p)%nat.
  - destruct (call_count <? Pool.max_iter p)%nat; [|done].
    unfold bind at 1. rewrite on_state_shared.
    pose proof (exec_history_prefix (Pool.router p call_count last_result)
                  (Pool.shared s)) as Hr.
    destruct (Router.exec _ _) as [[[route|]|e|] st]; simpl in *; try done.
    destruct (Router.next_agent_name route) as [n|]; [|done].
    destruct (Pool.agents_dict p !! n) as [agent|]; [|done].
    unfold bind at 1. rewrite on_agents_rt. simpl.
    destruct (bind _ _ _) as [[output|e|] r]; simpl; try done.
    unfold bind at 1, modify. rewrite on_state_shared. simpl.
    etrans; [exact Hr|]. etrans; [|apply IH]. simpl. by apply prefix_app_r.
Qed.

(** A router that names an agent the registry lacks ends the loop with an
    error, in any turn. *)
Lemma loop_unknown_agent fuel agent_fuel p call_count last_result input s st n :
  (call_count < Pool.max_iter p)%nat ->
  Router.exec (Pool.router p call_count last_result) (Pool.shared s)
  = (Returned (Some {| Router.next_agent_name := Some n |}), st) ->
  Pool.agents_dict p !! n = None ->
  Pool.loop (S fuel) agent_fuel p call_count last_result input s
  = (Raised (ValueError (lit "Router selected unknown agent '" ++ n ++ lit "'")),
     Pool.PoolRt st (Pool.agents_rt s)).
Proof.
  intros Hc Hr Hn. cbn [Pool.loop].
  destruct (Nat.ltb_spec call_count (Pool.max_iter p)); [|lia].
  unfold bind at 1. rewrite on_state_shared, Hr. simpl. by rewrite Hn.
Qed.

(** The first message of a run is the user's. *)
Lemma run_unfold agent_fuel p user_input s :
  Pool.run agent_fuel p user_input s
  = (Pool.loop (Pool.max_iter p) agent_fuel p 0 None user_input ;;
     do s' <- get_state;
     ret (Pool.final (State.history (Pool.shared s'))))
      (Pool.PoolRt (State.add_message (lit "user") user_input None (Pool.shared s))
                   (Pool.agents_rt s)).
Proof. reflexivity. Qed.

(** C5: an unknown tool and an unknown agent are fatal.  (1) In any turn
    of an agent, a single-tool request that names a tool the registry
    lacks makes the loop raise [ValueError]; the only event of the turn is
    the model's call, so no tool was invoked.  (2) The same for a whole
    [Agent.run] whose first response is such a request.  (3) In any turn
    of a pool, a router result that names an agent the registry lacks
    makes the loop raise [ValueError]; the agents' run-time state is
    untouched, so no agent was run.  (4) The same for a whole [Pool.run]
    whose first route names an unknown agent. *)
Theorem unknown_tool_or_agent_is_fatal :
  (∀ fuel (a : Agent.t World) step prompt memory r response w tool_call n,
     Agent.model a prompt (world r) = (Returned response, w) ->
     Agent._parse_tool_call response = Some tool_call ->
     Agent.item tool_call (lit "tool") = VStr n ->
     Agent.tools a !! n = None ->
     ∃ e r',
       Agent.loop (S fuel) a step prompt memory r = (Raised e, r')
       ∧ exn_class e = lit "ValueError"
       ∧ trace r' = trace r ++ [EvGenerate (Agent.name a) prompt])
  ∧ (∀ fuel (a : Agent.t World) input_data r response w tool_call n,
       Agent.model a
         (Agent._build_initial_prompt a
            [Agent.Entry (lit "user") (VStr input_data)]) (world r)
       = (Returned response, w) ->
       Agent._parse_tool_call response = Some tool_call ->
       Agent.item tool_call (lit "tool") = VStr n ->
       Agent.tools a !! n = None ->
       ∃ e r',
         Agent.run (S fuel) a input_data r = (Raised e, r')
         ∧ exn_class e = lit "ValueError"
         ∧ calls (trace r') = calls (trace r))
  ∧ (∀ fuel agent_fuel p call_count last_result input s st n,
       (call_count < Pool.max_iter p)%nat ->
       Router.exec (Pool.router p call_count last_result) (Pool.shared s)
       = (Returned (Some {| Router.next_agent_name := Some n |}), st) ->
       Pool.agents_dict p !! n = None ->
       ∃ e,
         Pool.loop (S fuel) agent_fuel p call_count last_result input s
         = (Raised e, Pool.PoolRt st (Pool.agents_rt s))
         ∧ exn_class e = lit "ValueError")
  ∧ (∀ agent_fuel p user_input s st n,
       (0 < Pool.max_iter p)%nat ->
       Router.exec (Pool.router p 0%nat None)
         (State.add_message (lit "user") user_input None (Pool.shared s))
       = (Returned (Some {| Router.next_agent_name := Some n |}), st) ->
       Pool.agents_dict p !! n = None ->
       ∃ e,
         Pool.run agent_fuel p user_input s
         = (Raised e, Pool.PoolRt st (Pool.agents_rt s))
         ∧ exn_class e = lit "ValueError").
Proof.
  split_and!.
  - intros fuel a step prompt memory r response w tool_call n Hm Hp Hn Ht.
    eexists _, _. split; [by eapply loop_unknown_tool|]. done.
  - intros fuel a input_data r response w tool_call n Hm Hp Hn Ht.
    eexists _, _. split; [by eapply loop_unknown_tool|].
    split; [done|]. unfold answered, calls. simpl.
    rewrite filter_app, length_app. simpl. lia.
  - intros fuel agent_fuel p call_count last_result input s st n Hc Hr Hn.
    eexists. split; [by eapply loop_unknown_agent|]. done.
  - intros agent_fuel p user_input s st n Hc Hr Hn.
    exists (ValueError (lit "Router selected unknown agent '" ++ n ++ lit "'")).
    split; [|done]. rewrite run_unfold.
    destruct (Pool.max_iter p) as [|fuel] eqn:Hmax; [lia|].
    apply bind_raised.
    apply (loop_unknown_agent fuel agent_fuel p 0%nat None user_input
             (Pool.PoolRt
                (State.add_message (lit "user") user_input None (Pool.shared s))
                (Pool.agents_rt s)));
      [rewrite Hmax; lia|exact Hr|exact Hn].
Qed.

(** C9: the history of the shared state is append-only.  [add_message]
    appends one message; [set] leaves the history alone ([get] returns a
    value and has no state to change); a router, whatever it does with
    these operations, leaves the old history as a prefix of the new one;
    and after [Pool.run], however it ends, the history is the old one,
    then the user's message, then what the run appended. *)
Theorem history_append_only :
  (∀ role content agent st,
     State.history (State.add_message role content agent st)
     = State.history st ++ [State.Message role content agent])
  ∧ (∀ key v st, State.history (State.set key v st) = State.history st)
  ∧ (∀ A (prog : Router.prog A) st,
       State.history st `prefix_of` State.history (Router.exec prog st).2)
  ∧ (∀ agent_fuel p user_input s,
       (State.history (Pool.shared s)
        ++ [State.Message (lit "user") user_input None])
       `prefix_of`
       State.history (Pool.shared (Pool.run agent_fuel p user_input s).2)).
Proof.
  split_and!; try done.
  - intros A prog st. apply exec_history_prefix.
  - intros agent_fuel p user_input s. rewrite run_unfold.
    set (s0 := Pool.PoolRt _ _).
    pose proof (loop_history_prefix (Pool.max_iter p) agent_fuel p 0 None
                  user_input s0) as Hloop.
    unfold bind at 1.
    destruct (Pool.loop _ _ _ _ _ _ _) as [[[]|e|] s1]; simpl in *; exact Hloop.
Qed.

End PoolFacts.

(* ===================================================================== *)
(** ** Further properties *)
(* ===================================================================== *)

Section FurtherFacts.
Context {World : Type} `{Agent.Externals}.
Implicit Types (a : Agent.t World) (p : Pool.t World) (s : Pool.pool_rt World).

(** A first response that is no tool call is the run's result: the model
    is called once, on the initial prompt, and no tool is invoked. *)
Theorem final_answer_is_returned fuel a input_data r response w :
  Agent.model a
    (Agent._build_initial_prompt a [Agent.Entry (lit "user") (VStr input_data)])
    (world r)
  = (Returned response, w) ->
  Agent._parse_tool_call response = None ->
  Agent.run (S fuel) a input_data r
  = (Returned response,
     answered a
       (Agent._build_initial_prompt a [Agent.Entry (lit "user") (VStr input_data)])
       w r).
Proof. intros Hm Hp. unfold Agent.run. by eapply loop_final. Qed.

(** An unhashable tool name (a list or a dict) makes the registry lookup
    itself fail with [TypeError]; no tool is invoked. *)
Theorem unhashable_tool_name_raises fuel a step prompt memory r response w
    tool_call :
  Agent.model a prompt (world r) = (Returned response, w) ->
  Agent._parse_tool_call response = Some tool_call ->
  isinstance (Agent.item tool_call (lit "tool")) TList
  || isinstance (Agent.item tool_call (lit "tool")) TDict = true ->
  ∃ e,
    Agent.loop (S fuel) a step prompt memory r
    = (Raised e, answered a prompt w r)
    ∧ exn_class e = lit "TypeError".
Proof.
  intros Hm Hp Hty.
  assert (Hturn : ∀ e,
    Agent.find_tool a (Agent.item tool_call (lit "tool")) (answered a prompt w r)
    = (Raised e, answered a prompt w r) ->
    Agent.loop (S fuel) a step prompt memory r = (Raised e, answered a prompt w r)).
  { intros e He. cbn [Agent.loop]. apply bind_raised. unfold Agent.turn.
    erewrite bind_returned by (by apply generate_returned).
    rewrite Hp. by apply bind_raised. }
  unfold Agent.find_tool in Hturn.
  destruct (Agent.item tool_call (lit "tool")); try done;
    (eexists; split; [by apply Hturn|done]).
Qed.

(** The result of a pool run is the content of the last assistant
    message of the history, and [""] when there is none. *)
Theorem pool_result_is_last_assistant_message :
  Pool.final [] = []
  ∧ (∀ h m, State.role m = lit "assistant" ->
       Pool.final (h ++ [m]) = State.content m)
  ∧ (∀ h m, State.role m ≠ lit "assistant" ->
       Pool.final (h ++ [m]) = Pool.final h)
  ∧ (∀ agent_fuel p user_input s result s',
       Pool.run agent_fuel p user_input s = (Returned result, s') ->
       result = Pool.final (State.history (Pool.shared s'))).
Proof.
  split_and!.
  - done.
  - intros h m Hm. unfold Pool.final. rewrite reverse_snoc, filter_cons_True by done.
    done.
  - intros h m Hm. unfold Pool.final. by rewrite reverse_snoc, filter_cons_False.
  - intros agent_fuel p user_input s result s'. rewrite run_unfold.
    unfold bind at 1.
    destruct (Pool.loop _ _ _ _ _ _ _) as [[[]|e|] s1]; [|done..].
    unfold bind, get_state, ret. by intros [= <- <-].
Qed.

(** A router that names no next agent, or returns no result at all, ends
    the run at once: no agent is run, and the result is the last
    assistant message the history already had. *)
Theorem router_termination_ends_run agent_fuel p user_input s route st :
  (0 < Pool.max_iter p)%nat ->
  Router.exec (Pool.router p 0%nat None)
    (State.add_message (lit "user") user_input None (Pool.shared s))
  = (Returned route, st) ->
  route = None ∨ route = Some {| Router.next_agent_name := None |} ->
  Pool.run agent_fuel p user_input s
  = (Returned (Pool.final (State.history st)), Pool.PoolRt st (Pool.agents_rt s)).
Proof.
  intros Hmax Hr Hroute. rewrite run_unfold.
  set (s0 := Pool.PoolRt _ _).
  assert (Hloop : Pool.loop (Pool.max_iter p) agent_fuel p 0 None user_input s0
                  = (Returned tt, Pool.PoolRt st (Pool.agents_rt s))).
  { destruct (Pool.max_iter p) as [|fuel] eqn:Hfuel; [lia|]. cbn [Pool.loop].
    rewrite Hfuel. replace (0 <? S fuel)%nat with true by done.
    unfold bind at 1. rewrite on_state_shared. subst s0. cbn [Pool.shared].
    rewrite Hr. cbn [fst snd Pool.agents_rt].
    by destruct Hroute as [->| ->]. }
  by erewrite bind_returned by exact Hloop.
Qed.

(** One turn of the pool: the agent the router names is run on the
    current input; its output is recorded as an assistant message under
    the agent's name, becomes the next input and, with the agent's name,
    the next [last_result]; the call count goes up by one. *)
Theorem pool_turn_chains_output fuel agent_fuel p call_count last_result input
    s st n agent output r' :
  (call_count < Pool.max_iter p)%nat ->
  Router.exec (Pool.router p call_count last_result) (Pool.shared s)
  = (Returned (Some {| Router.next_agent_name := Some n |}), st) ->
  Pool.agents_dict p !! n = Some agent ->
  Agent.run agent_fuel agent input
    (Rt (world (Pool.agents_rt s))
        (trace (Pool.agents_rt s) ++ [EvAgentRun (Agent.name agent) input]))
  = (Returned output, r') ->
  Pool.loop (S fuel) agent_fuel p call_count last_result input s
  = Pool.loop fuel agent_fuel p (S call_count)
      (Some {| Router.agent := Agent.name agent; Router.output := output |})
      output
      (Pool.PoolRt
         (State.add_message (lit "assistant") output (Some (Agent.name agent)) st)
         r').
Proof.
  intros Hc Hr Hn Hrun. cbn [Pool.loop].
  destruct (Nat.ltb_spec call_count (Pool.max_iter p)); [|lia].
  unfold bind at 1. rewrite on_state_shared, Hr. simpl. rewrite Hn.
  unfold bind at 1. rewrite on_agents_rt, emit_then. cbn [Pool.agents_rt].
  rewrite Hrun. simpl.
  unfold bind at 1, modify. by rewrite on_state_shared.
Qed.

End FurtherFacts.

Section StateFacts.

(** The key-value store: [get] after [set] gives the value set, other
    keys are untouched, a key absent from the store of any state gives
    the default, a new state holds the data it was built from (none when
    it was given none), and recording a message leaves the store alone. *)
Theorem state_get_set :
  (∀ key v dflt st, State.get key dflt (State.set key v st) = v)
  ∧ (∀ key key' v dflt st,
       key ≠ key' ->
       State.get key' dflt (State.set key v st) = State.get key' dflt st)
  ∧ (∀ key dflt st, State.kv st !! key = None -> State.get key dflt st = dflt)
  ∧ (∀ key dflt data, State.get key dflt (State.init data) = default dflt (data ≫= (.!! key)))
  ∧ (∀ role content agent st,
       State.kv (State.add_message role content agent st) = State.kv st).
Proof.
  split_and!.
  - intros key v dflt st. unfold State.get, State.set. simpl.
    by rewrite lookup_insert_eq.
  - intros key key' v dflt st Hne. unfold State.get, State.set. simpl.
    by rewrite lookup_insert_ne.
  - intros key dflt st Hkey. unfold State.get. by rewrite Hkey.
  - intros key dflt [data|]; unfold State.get, State.init; simpl; [done|].
    by rewrite lookup_empty.
  - done.
Qed.

End StateFacts.

Section RegistryFacts.
Context {World : Type} `{Agent.Externals}.

Lemma registry_lookup {A} (key : A -> str) (items : list A) (m : gmap str A) n :
  foldl (fun m x => <[key x := x]> m) m items !! n
  = match last (filter (fun x => key x = n) items) with
    | Some x => Some x
    | None => m !! n
    end.
Proof.
  revert m. induction items as [|x items IH]; intros m; simpl; [done|].
  rewrite IH. destruct (decide (key x = n)) as [Hx|Hx].
  - rewrite filter_cons_True by done. rewrite last_cons.
    destruct (last (filter _ items)); [done|]. by rewrite <- Hx, lookup_insert_eq.
  - rewrite filter_cons_False by done.
    destruct (last (filter _ items)); [done|]. by rewrite lookup_insert_ne.
Qed.

(** Registries are dicts keyed by name: of several tools (or agents) with
    the same name, the last one given is the one registered. *)
Theorem registry_keeps_last :
  (∀ name model persona description (tools : list (Tool.t World)) stop n,
     Agent.tools (Agent.init name model persona description tools stop) !! n
     = last (filter (fun tool => Tool.name tool = n) tools))
  ∧ (∀ (agents : list (Agent.t World)) default_model router max_iter
       default_state n,
       Pool.agents_dict
         (Pool.init agents default_model router max_iter default_state) !! n
       = last (filter (fun a => Agent.name a = n) agents)).
Proof.
  split.
  - intros. simpl. rewrite registry_lookup, lookup_empty.
    by destruct (last _).
  - intros. simpl. rewrite registry_lookup, lookup_empty.
    by destruct (last _).
Qed.

End RegistryFacts.

Section ValidationOrder.
Context {World : Type}.

Lemma check_parameters_app tool_name (ok rest : list (str * pytype)) d
    (s : rt World) :
  accepted ok d ->
  Tool.check_parameters tool_name (ok ++ rest) (VDict d) s
  = Tool.check_parameters tool_name rest (VDict d) s.
Proof.
  induction ok as [|[key ty] ok IH]; intros Hok; [done|].
  destruct (Hok key ty) as (v & Hv & Hi); [by left|].
  simpl. unfold bind, Tool.py_contains, Tool.py_getitem, ret, dict_has.
  rewrite Hv. simpl. rewrite Hi. simpl. apply IH.
  intros key' ty' Hin. apply Hok. by right.
Qed.

(** Parameters are checked in the order of their declaration, presence
    before class: the first declared parameter that is absent or of the
    wrong class decides the error, whatever comes after it. *)
Theorem first_bad_parameter_decides (t : Tool.t World) d s ok key ty rest :
  Tool.input_parameters t = ok ++ (key, ty) :: rest ->
  accepted ok d ->
  (dict_get key d = None ->
   Tool.run t (VDict d) s = (Raised (Tool.missing_parameter (Tool.name t) key), s))
  ∧ (∀ v, dict_get key d = Some v -> isinstance v ty = false ->
       Tool.run t (VDict d) s = (Raised (Tool.wrong_type key ty v), s)).
Proof.
  intros Hparams Hok. unfold Tool.run. rewrite Hparams. split.
  - intros Hnone. apply bind_raised. rewrite check_parameters_app by done.
    simpl. unfold bind, Tool.py_contains, ret, dict_has. by rewrite Hnone.
  - intros v Hv Hi. apply bind_raised. rewrite check_parameters_app by done.
    simpl. unfold bind, Tool.py_contains, Tool.py_getitem, ret, dict_has.
    rewrite Hv. simpl. by rewrite Hi.
Qed.

End ValidationOrder.

(* ===================================================================== *)
(** ** Proofs: GroqModel *)
(* ===================================================================== *)

Section GroqFacts.
Context {World : Type} `{Groq.Http World}.
Implicit Types (g : Groq.t) (s : rt World).

(** The API key: a non-empty [api_key] argument is used whatever the
    environment holds; without one (no argument, [None], or [""]) the key
    is the environment variable [GROQ_API_KEY]; and when that is unset or
    empty too, the constructor raises [OSError] and builds nothing. *)
Theorem groq_api_key_precedence :
  (∀ model_name parameters key endpoint_url s,
     truthy (Some key) = true ->
     ∃ g, Groq.init model_name parameters (Some key) endpoint_url s
          = (Returned g, s)
          ∧ Groq.api_key g = key)
  ∧ (∀ model_name parameters api_key endpoint_url s key,
       truthy api_key = false ->
       Groq.getenv (lit "GROQ_API_KEY") (world s) = Some key ->
       truthy (Some key) = true ->
       ∃ g, Groq.init model_name parameters api_key endpoint_url s
            = (Returned g, s)
            ∧ Groq.api_key g = key)
  ∧ (∀ model_name parameters api_key endpoint_url s,
       truthy api_key = false ->
       truthy (Groq.getenv (lit "GROQ_API_KEY") (world s)) = false ->
       ∃ e, Groq.init model_name parameters api_key endpoint_url s
            = (Raised e, s)
            ∧ exn_class e = lit "OSError").
Proof.
  split_and!.
  - intros model_name parameters key endpoint_url s Hk.
    unfold Groq.init. rewrite Hk. unfold bind at 1, ret at 1. rewrite Hk.
    simpl. by eexists.
  - intros model_name parameters api_key endpoint_url s key Hno Henv Hk.
    unfold Groq.init. rewrite Hno. unfold bind, get_state, ret. rewrite Henv, Hk.
    simpl. by eexists.
  - intros model_name parameters api_key endpoint_url s Hno Henv.
    unfold Groq.init. rewrite Hno. unfold bind, get_state, ret. rewrite Henv.
    simpl. by eexists.
Qed.

(** A response whose status is not 200 makes [generate] raise
    [RuntimeError] with the status and the text of the response; whether
    the body is JSON plays no part.  A fault of the HTTP call itself is
    raised as it is. *)
Theorem groq_error_status_raises g prompt s :
  (∀ response w,
     Groq.post (Groq.request_of g prompt) (world s) = (Returned response, w) ->
     Groq.status_code response ≠ 200%Z ->
     Groq.generate g prompt s
     = (Raised (RuntimeError
                  (lit "Groq API error: " ++ str_of_Z (Groq.status_code response)
                   ++ lit ", " ++ Groq.text response)),
        Rt w (trace s)))
  ∧ (∀ e w,
       Groq.post (Groq.request_of g prompt) (world s) = (Raised e, w) ->
       Groq.generate g prompt s = (Raised e, Rt w (trace s))).
Proof.
  split.
  - intros response w Hpost Hstatus. unfold Groq.generate.
    unfold bind at 1, perform. rewrite Hpost.
    destruct (Z.eqb_spec (Groq.status_code response) 200); [done|]. reflexivity.
  - intros e w Hpost. unfold Groq.generate, bind, perform. by rewrite Hpost.
Qed.

Lemma groq_generate_ok g prompt s response w body :
  Groq.post (Groq.request_of g prompt) (world s) = (Returned response, w) ->
  Groq.status_code response = 200%Z ->
  Groq.json response = inr body ->
  Groq.generate g prompt s
  = (do choices <- Groq.py_get body (lit "choices") (VList [VDict []]);
     do choice <- Groq.py_first choices;
     do message <- Groq.py_get choice (lit "message") (VDict []);
     Groq.py_get message (lit "content") (VStr [])) (Rt w (trace s)).
Proof.
  intros Hpost Hstatus Hjson. unfold Groq.generate.
  unfold bind at 1, perform. rewrite Hpost, Hstatus, Hjson. reflexivity.
Qed.

(** What [generate] makes of a response with status 200 whose body is a
    JSON object [d]: the content of the message of the first choice; the
    empty string when [d] has no key [choices], when the first choice is
    an object without [message], or when the message is an object without
    [content]; and [IndexError] when [choices] is an empty list. *)
Theorem groq_content_or_default g prompt s response w d :
  Groq.post (Groq.request_of g prompt) (world s) = (Returned response, w) ->
  Groq.status_code response = 200%Z ->
  Groq.json response = inr (VDict d) ->
  (∀ c rest m v,
     dict_get (lit "choices") d = Some (VList (VDict c :: rest)) ->
     dict_get (lit "message") c = Some (VDict m) ->
     dict_get (lit "content") m = Some v ->
     Groq.generate g prompt s = (Returned v, Rt w (trace s)))
  ∧ (dict_get (lit "choices") d = None ->
     Groq.generate g prompt s = (Returned (VStr []), Rt w (trace s)))
  ∧ (∀ c rest,
       dict_get (lit "choices") d = Some (VList (VDict c :: rest)) ->
       dict_get (lit "message") c = None ->
       Groq.generate g prompt s = (Returned (VStr []), Rt w (trace s)))
  ∧ (∀ c rest m,
       dict_get (lit "choices") d = Some (VList (VDict c :: rest)) ->
       dict_get (lit "message") c = Some (VDict m) ->
       dict_get (lit "content") m = None ->
       Groq.generate g prompt s = (Returned (VStr []), Rt w (trace s)))
  ∧ (dict_get (lit "choices") d = Some (VList []) ->
     ∃ e, Groq.generate g prompt s = (Raised e, Rt w (trace s))
          ∧ exn_class e = lit "IndexError").
Proof.
  intros Hpost Hstatus Hjson.
  rewrite (groq_generate_ok g prompt s response w (VDict d)) by done.
  unfold bind, Groq.py_get, Groq.py_first, ret.
  split_and!.
  - intros c rest m v -> ; simpl. intros -> ; simpl. by intros ->.
  - by intros ->.
  - intros c rest -> ; simpl. by intros ->.
  - intros c rest m -> ; simpl. intros -> ; simpl. by intros ->.
  - intros ->. simpl. by eexists.
Qed.

(** [generate] depends on the model only through its name, its API key
    and the parameters [system_prompt], [temperature] and [max_tokens]:
    the [endpoint_url] given to the constructor and every other parameter
    are ignored (the request always goes to [ENDPOINT_URL], with
    [tool_choice] set to ["none"]). *)
Theorem groq_generate_ignores_endpoint_url g g' prompt :
  Groq.model_name g = Groq.model_name g' ->
  Groq.api_key g = Groq.api_key g' ->
  (∀ key, key ∈ [lit "system_prompt"; lit "temperature"; lit "max_tokens"] ->
     dict_get key (Groq.parameters g) = dict_get key (Groq.parameters g')) ->
  Groq.request_of g prompt = Groq.request_of g' prompt
  ∧ Groq.url (Groq.request_of g prompt) = Groq.ENDPOINT_URL
  ∧ Groq.generate g prompt = Groq.generate g' prompt.
Proof.
  intros Hn Hk Hp.
  assert (Hreq : Groq.request_of g prompt = Groq.request_of g' prompt).
  { unfold Groq.request_of, Groq.parameter. rewrite Hn, Hk.
    rewrite !(Hp (lit "system_prompt")), !(Hp (lit "temperature")),
      !(Hp (lit "max_tokens")); [done|..];
      rewrite !elem_of_cons; auto. }
  split_and!; [done|done|]. unfold Groq.generate. by rewrite Hreq.
Qed.

End GroqFacts.

(* ===================================================================== *)
(** ** Proofs: more on Tool.run and Agent.run *)
(* ===================================================================== *)

Section ToolMore.
Context {World : Type}.
Implicit Types (t : Tool.t World) (d : list (str * value)) (s : rt World).

Lemma isinstance_class_matches v ty :
  isinstance v ty = true <-> class_matches v ty.
Proof.
  unfold isinstance, issubclass, class_matches. split.
  - destruct (type_of v), ty; simpl; intros Hi; try done; auto.
  - intros [<-|[->|[-> ->]]]; [by destruct (type_of v)|by destruct (type_of v)|done].
Qed.

Lemma well_typed_accepted params d : well_typed params d <-> accepted params d.
Proof.
  unfold well_typed, accepted. split; intros Hw key ty Hin;
    destruct (Hw key ty Hin) as (v & Hv & Hc); exists v; split; try done;
    by apply isinstance_class_matches.
Qed.

(** [Tool.run] on an argument value that is not a mapping never reaches
    the callable: it raises [TypeError] or [ValueError], and the run-time
    state is the one it started from. *)
Theorem run_needs_a_mapping t args s :
  (∀ d, args ≠ VDict d) ->
  ∃ e, Tool.run t args s = (Raised e, s)
       ∧ (exn_class e = lit "TypeError" ∨ exn_class e = lit "ValueError").
Proof.
  intros Hargs. unfold Tool.run.
  destruct (Tool.input_parameters t) as [|[key ty] rest].
  - destruct args; try (by eexists; split; [reflexivity|left]).
    by destruct (Hargs items).
  - cbn [Tool.check_parameters].
    destruct args as [|b|z|x|str|l|d];
      try (by eexists; split; [reflexivity|left]).
    + unfold bind at 1 2. simpl.
      destruct (is_substring key str); simpl;
        by eexists; split; [reflexivity|auto].
    + unfold bind at 1 2. simpl.
      destruct (existsb _ l); simpl;
        by eexists; split; [reflexivity|auto].
    + by destruct (Hargs d).
Qed.

(** On a mapping, [Tool.run] invokes the callable, once and with the
    whole mapping, exactly when every declared parameter is bound to a
    value whose class is the declared one, or a [bool] where [int] is
    declared, or anything where [object] is declared; in every other case
    it raises and the run-time state is the one it started from. *)
Theorem run_invokes_callable_iff t d s :
  (well_typed (Tool.input_parameters t) d ->
   trace (Tool.run t (VDict d) s).2 = trace s ++ [EvCall (Tool.name t) d]
   ∧ calls (trace (Tool.run t (VDict d) s).2) = S (calls (trace s)))
  ∧ (¬ well_typed (Tool.input_parameters t) d ->
     ∃ e, Tool.run t (VDict d) s = (Raised e, s)).
Proof.
  split.
  - intros Hw%well_typed_accepted%accepted_conforms.
    rewrite run_conforming by done.
    destruct (Tool.call_function t d (world s)) as [r w]. simpl.
    split; [done|]. rewrite calls_app. simpl. unfold calls at 2. simpl. lia.
  - intros Hw.
    destruct (forallb (conforms d) (Tool.input_parameters t)) eqn:Hc.
    + destruct Hw. by apply well_typed_accepted, accepted_conforms.
    + destruct (check_parameters_violating (Tool.name t) _ d s Hc) as (e & He & _).
      exists e. unfold Tool.run. by erewrite bind_raised.
Qed.

End ToolMore.

Section AgentMore.
Context {World : Type} `{Agent.Externals}.
Implicit Types (a : Agent.t World) (s : rt World) (memory : list Agent.entry).

Lemma generations_app tr1 tr2 :
  generations (tr1 ++ tr2) = (generations tr1 + generations tr2)%nat.
Proof. unfold generations. by rewrite filter_app, length_app. Qed.

(** The agent catches nothing: a fault of the model, and a fault of
    [Tool.run] (a rejected argument, or a fault of the callable), end the
    run with that fault, in the state where it happened; the model is not
    asked again. *)
Theorem agent_run_propagates_faults fuel a step prompt memory s :
  (∀ e w,
     Agent.model a prompt (world s) = (Raised e, w) ->
     Agent.loop (S fuel) a step prompt memory s
     = (Raised e, answered a prompt w s))
  ∧ (∀ response w tool_call n tool e s',
       Agent.model a prompt (world s) = (Returned response, w) ->
       Agent._parse_tool_call response = Some tool_call ->
       Agent.item tool_call (lit "tool") = VStr n ->
       Agent.tools a !! n = Some tool ->
       Tool.run tool (Agent.item tool_call (lit "args")) (answered a prompt w s)
       = (Raised e, s') ->
       Agent.loop (S fuel) a step prompt memory s = (Raised e, s')).
Proof.
  split.
  - intros e w Hm. cbn [Agent.loop]. apply bind_raised. unfold Agent.turn.
    apply bind_raised. unfold bind, emit, modify, perform. simpl. by rewrite Hm.
  - intros response w tool_call n tool e s' Hm Hp Hn Ht Hrun.
    cbn [Agent.loop]. apply bind_raised. unfold Agent.turn.
    erewrite bind_returned by (by apply generate_returned).
    rewrite Hp.
    erewrite bind_returned; [|unfold Agent.find_tool; rewrite Hn, Ht; reflexivity].
    by apply bind_raised.
Qed.

Section Repeating.
(** An agent whose model answers every prompt with the same request for a
    registered tool, on arguments the tool accepts and its callable
    returns on. *)
Variables (a : Agent.t World) (response : str)
  (tool_call : list (str * value)) (n : str) (tool : Tool.t World)
  (d : list (str * value)).
Hypothesis Hmodel :
  ∀ prompt w, ∃ w', Agent.model a prompt w = (Returned response, w').
Hypothesis Hparse : Agent._parse_tool_call response = Some tool_call.
Hypothesis Hname : Agent.item tool_call (lit "tool") = VStr n.
Hypothesis Htool : Agent.tools a !! n = Some tool.
Hypothesis Hargs : Agent.item tool_call (lit "args") = VDict d.
Hypothesis Haccepted : accepted (Tool.input_parameters tool) d.
Hypothesis Hcall :
  ∀ w, ∃ output w', Tool.call_function tool d w = (Returned output, w').

Lemma repeating_turn step prompt memory s :
  ∃ tool_output s',
    Agent.turn a step prompt memory s
    = (Returned
         (let memory' := memory_after_call memory response tool_call tool_output in
          if Agent.should_stop (Agent.stop_conditions a) (step - 1) memory'
          then inr (Agent.stopped_message step)
          else inl (Agent.followup_prompt a memory', memory')),
       s')
    ∧ generations (trace s') = S (generations (trace s))
    ∧ calls (trace s') = S (calls (trace s)).
Proof using All.
  destruct (Hmodel prompt (world s)) as [w Hm].
  destruct (Hcall w) as (tool_output & w' & Hc).
  exists tool_output, (Rt w' ((trace s ++ [EvGenerate (Agent.name a) prompt])
                             ++ [EvCall (Tool.name tool) d])).
  split.
  - eapply turn_tool_call; try done.
    rewrite Hargs, run_conforming by (by apply accepted_conforms).
    simpl. by rewrite Hc.
  - simpl. rewrite !generations_app, !calls_app. simpl.
    unfold generations at 2 3, calls at 2 3. simpl. lia.
Qed.

Lemma repeating_loop j :
  ∀ fuel step prompt memory s,
    (∀ i memory', (step <= i < step + j)%nat ->
       Agent.should_stop (Agent.stop_conditions a) i memory' = false) ->
    ∃ prompt' memory' s',
      Agent.loop (j + fuel) a step prompt memory s
      = Agent.loop fuel a (step + j) prompt' memory' s'
      ∧ generations (trace s') = (generations (trace s) + j)%nat
      ∧ calls (trace s') = (calls (trace s) + j)%nat.
Proof using All.
  induction j as [|j IH]; intros fuel step prompt memory s Hgo.
  - exists prompt, memory, s. rewrite !Nat.add_0_r. done.
  - destruct (repeating_turn (S step) prompt memory s)
      as (tool_output & s1 & Hturn & Hg1 & Hc1).
    cbn [Nat.add Agent.loop]. erewrite bind_returned by exact Hturn.
    cbn zeta. replace (S step - 1)%nat with step by lia.
    rewrite Hgo by lia.
    edestruct (IH fuel (S step)) as (prompt' & memory' & s' & Hloop & Hg & Hc).
    { intros i memory' Hi. apply Hgo. lia. }
    exists prompt', memory', s'. rewrite Hloop.
    split_and!; [f_equal; lia|lia..].
Qed.

(** With a stop condition that first fires at index [k], the run of such
    an agent makes [k + 1] turns: the model is asked [k + 1] times, the
    tool is invoked [k + 1] times, and the result is the stop message for
    [k + 1] steps. *)
Theorem stop_condition_bounds_run k fuel input_data s :
  (∀ i memory, (i < k)%nat ->
     Agent.should_stop (Agent.stop_conditions a) i memory = false) ->
  (∀ memory, Agent.should_stop (Agent.stop_conditions a) k memory = true) ->
  (k < fuel)%nat ->
  ∃ s',
    Agent.run fuel a input_data s
    = (Returned (Agent.stopped_message (S k)), s')
    ∧ generations (trace s') = (generations (trace s) + S k)%nat
    ∧ calls (trace s') = (calls (trace s) + S k)%nat.
Proof using All.
  intros Hgo Hstop Hfuel. unfold Agent.run.
  replace fuel with (k + S (fuel - S k))%nat by lia.
  edestruct (repeating_loop k (S (fuel - S k)) 0%nat)
    as (prompt' & memory' & s1 & Hloop & Hg & Hc).
  { intros i memory' Hi. apply Hgo. lia. }
  rewrite Hloop. cbn [Nat.add].
  destruct (repeating_turn (S k) prompt' memory' s1)
    as (tool_output & s' & Hturn & Hg' & Hc').
  exists s'. cbn [Agent.loop]. erewrite bind_returned by exact Hturn.
  cbn zeta. replace (S k - 1)%nat with k by lia. rewrite Hstop.
  split_and!; [done|lia..].
Qed.

(** The loop of [Agent.run] has no bound of its own: with a stop
    condition that never fires, the run of such an agent does not end;
    whatever number of turns it is given, it takes them all, invoking the
    tool in each. *)
Theorem run_without_stop_takes_every_turn fuel input_data s :
  (∀ i memory,
     Agent.should_stop (Agent.stop_conditions a) i memory = false) ->
  ∃ s',
    Agent.run fuel a input_data s = (OutOfFuel, s')
    ∧ generations (trace s') = (generations (trace s) + fuel)%nat
    ∧ calls (trace s') = (calls (trace s) + fuel)%nat.
Proof using All.
  intros Hgo. unfold Agent.run.
  edestruct (repeating_loop fuel 0%nat 0%nat)
    as (prompt' & memory' & s' & Hloop & Hg & Hc).
  { intros i memory' _. apply Hgo. }
  rewrite Nat.add_0_r in Hloop. exists s'. rewrite Hloop. done.
Qed.

End Repeating.
End AgentMore.

Section AgentMore2.
Context {World : Type} `{Agent.Externals}.
Implicit Types (a : Agent.t World) (s : rt World) (memory : list Agent.entry).

Lemma parameter_error_class tool_name params d e :
  parameter_error tool_name params d e ->
  exn_class e = lit "TypeError" ∨ exn_class e = lit "ValueError".
Proof.
  intros (key & ty & _ & [[_ ->]|(v & _ & _ & ->)]); [by right|by left].
Qed.

Lemma tool_run_bad_arguments (t : Tool.t World) args s :
  (∀ d, args = VDict d -> rejected (Tool.input_parameters t) d) ->
  ∃ e, Tool.run t args s = (Raised e, s)
       ∧ (exn_class e = lit "TypeError" ∨ exn_class e = lit "ValueError").
Proof.
  intros Hbad. unfold Tool.run.
  destruct args as [| | | | | |d].
  7:{ destruct (check_parameters_violating (Tool.name t) (Tool.input_parameters t)
                  d s) as (e & He & Hp); [by apply rejected_conforms, Hbad|].
      exists e. split; [by erewrite bind_raised|].
      by eapply parameter_error_class. }
  all: destruct (Tool.input_parameters t) as [|[key ty] rest];
    try (by eexists; split; [reflexivity|left]).
  - cbn [Tool.check_parameters]. unfold bind at 1 2. simpl.
    destruct (is_substring key s0); simpl; by eexists; split; [reflexivity|auto].
  - cbn [Tool.check_parameters]. unfold bind at 1 2. simpl.
    destruct (existsb _ items); simpl; by eexists; split; [reflexivity|auto].
Qed.

(** Arguments a tool does not take end the run of the agent.  When the
    model requests a registered tool with [args] that is not a JSON
    object, or is one that omits a declared parameter or gives one a value
    of the wrong class, the run raises [TypeError] or [ValueError]; the
    state is the one the model's call left, so the callable was not
    invoked and the model is not asked again. *)
Theorem bad_tool_arguments_end_agent_run fuel a step prompt memory s response w
    tool_call n tool :
  Agent.model a prompt (world s) = (Returned response, w) ->
  Agent._parse_tool_call response = Some tool_call ->
  Agent.item tool_call (lit "tool") = VStr n ->
  Agent.tools a !! n = Some tool ->
  (∀ d, Agent.item tool_call (lit "args") = VDict d ->
        rejected (Tool.input_parameters tool) d) ->
  ∃ e,
    Agent.loop (S fuel) a step prompt memory s
    = (Raised e, answered a prompt w s)
    ∧ (exn_class e = lit "TypeError" ∨ exn_class e = lit "ValueError").
Proof.
  intros Hm Hp Hn Ht Hbad.
  destruct (tool_run_bad_arguments tool (Agent.item tool_call (lit "args"))
              (answered a prompt w s) Hbad) as (e & Hrun & Hclass).
  exists e. split; [|done].
  cbn [Agent.loop]. apply bind_raised. unfold Agent.turn.
  erewrite bind_returned by (by apply generate_returned).
  rewrite Hp.
  erewrite bind_returned; [|unfold Agent.find_tool; rewrite Hn, Ht; reflexivity].
  by apply bind_raised.
Qed.

Lemma join_elem sep (parts : list str) x :
  x ∈ parts -> ∃ pre post, Agent.join sep parts = pre ++ x ++ post.
Proof.
  induction parts as [|y parts IH]; [by intros ?%elem_of_nil|].
  intros [->|Hin]%elem_of_cons.
  - destruct parts as [|z parts].
    + exists [], []. simpl. by rewrite app_nil_r.
    + exists [], (sep ++ Agent.join sep (z :: parts)). reflexivity.
  - destruct (IH Hin) as (pre & post & Hj).
    destruct parts as [|z parts]; [by apply elem_of_nil in Hin|].
    exists (y ++ sep ++ pre), post.
    change (Agent.join sep (y :: z :: parts))
      with (y ++ sep ++ Agent.join sep (z :: parts)).
    rewrite Hj. by rewrite <- !app_assoc.
Qed.

(** The follow-up prompt: a head that begins with the persona, the
    entries of the memory, one per line, and the closing instructions. *)
Lemma followup_prompt_parts a memory :
  Agent.followup_prompt a memory
  = (Agent.persona a ++ Agent.nl ++ Agent.nl ++ Agent._render_tools_prompt a
     ++ Agent.nl ++ Agent.nl ++ lit "Conversation History:" ++ Agent.nl)
    ++ Agent.join Agent.nl (map shown memory)
    ++ (Agent.nl ++ Agent.nl
        ++ lit "Assistant: Based on the most recent tool output shown above, either:"
        ++ Agent.nl ++ lit "1. Use another tool." ++ Agent.nl
        ++ lit "2. Or provide the best final answer to the user's request in natural language."
        ++ Agent.nl ++ lit "Remember to reference the tool result if relevant.").
Proof.
  unfold Agent.followup_prompt. cbn zeta.
  change (fun it : Agent.entry => _) with (shown (H := H)).
  generalize (lit "Conversation History:"). intros l1.
  generalize (lit "Assistant: Based on the most recent tool output shown above, either:").
  intros l2.
  generalize (Agent.join Agent.nl (map shown memory)). intros j.
  by rewrite <- !app_assoc.
Qed.

Lemma followup_prompt_shows a memory it :
  it ∈ memory ->
  ∃ pre post, Agent.followup_prompt a memory = pre ++ shown it ++ post.
Proof.
  intros Hin. rewrite followup_prompt_parts.
  destruct (join_elem Agent.nl (map shown memory) (shown it))
    as (pre & post & ->); [by apply (list_elem_of_fmap_2 shown)|].
  match goal with
  | |- ∃ _ _, ?h ++ _ ++ ?t = _ => generalize h t
  end.
  intros h t. generalize (shown it). intros x.
  exists (h ++ pre), (post ++ t). by rewrite <- !app_assoc.
Qed.

(** The follow-up prompt shows the model the whole memory of the run: it
    begins with the persona, and it holds, for every user or assistant
    entry, the capitalized role and the text, and for every tool entry the
    tool's name, the arguments and the output of the call. *)
Theorem followup_prompt_shows_memory a memory :
  (∃ post, Agent.followup_prompt a memory = Agent.persona a ++ post)
  ∧ (∀ role text,
       Agent.Entry role (VStr text) ∈ memory -> role ≠ lit "tool" ->
       ∃ pre post,
         Agent.followup_prompt a memory
         = pre ++ (capitalize role ++ lit ": " ++ text) ++ post)
  ∧ (∀ tool_name args tool_output,
       Agent.Entry (lit "tool")
         (VDict [(lit "name", tool_name); (lit "args", args);
                 (lit "output", tool_output)]) ∈ memory ->
       ∃ pre post,
         Agent.followup_prompt a memory
         = pre ++ (lit "Tool '" ++ Agent.py_str tool_name
                   ++ lit "' called with args:" ++ Agent.nl
                   ++ Agent.py_str args ++ Agent.nl
                   ++ lit "Output:" ++ Agent.nl ++ Agent.py_str tool_output)
           ++ post).
Proof.
  split_and!.
  - rewrite followup_prompt_parts. eexists.
    rewrite <- (app_assoc (Agent.persona a)). reflexivity.
  - intros role text Hin Hrole.
    destruct (followup_prompt_shows a memory _ Hin) as (pre & post & ->).
    exists pre, post. unfold shown. cbn [Agent.role Agent.content Agent.py_str].
    unfold str_eqb. by rewrite bool_decide_eq_false_2.
  - intros tool_name args tool_output Hin.
    destruct (followup_prompt_shows a memory _ Hin) as (pre & post & ->).
    exists pre, post. reflexivity.
Qed.

End AgentMore2.

(* ===================================================================== *)
(** ** Proofs: more on the parser *)
(* ===================================================================== *)

Section StripFacts.

Lemma lstrip_blank_app (ws s : str) : blank ws -> lstrip (ws ++ s) = lstrip s.
Proof.
  unfold blank. induction 1 as [|c ws Hc _ IH]; simpl; [done|]. by rewrite Hc.
Qed.

Lemma lstrip_app_blank (s ws : str) :
  blank ws -> lstrip (s ++ ws) = [] ∧ lstrip s = [] ∨ lstrip (s ++ ws) = lstrip s ++ ws.
Proof.
  intros Hws. induction s as [|c s IH]; simpl.
  - left. split; [|done]. rewrite <- (app_nil_r ws). by rewrite lstrip_blank_app.
  - destruct (py_isspace c); [done|]. by right.
Qed.

(** Blanks around a text are stripped with its own. *)
Lemma strip_blank (ws1 s ws2 : str) :
  blank ws1 -> blank ws2 -> strip (ws1 ++ s ++ ws2) = strip s.
Proof.
  intros H1 H2. unfold strip. rewrite lstrip_blank_app by done.
  destruct (lstrip_app_blank s ws2 H2) as [[Ha Hb]|Ha]; rewrite Ha;
    [by rewrite Hb|].
  rewrite reverse_app, lstrip_blank_app; [done|].
  unfold blank. rewrite Forall_forall. intros c Hc. rewrite elem_of_reverse in Hc.
  unfold blank in H2. rewrite Forall_forall in H2. by apply H2.
Qed.

End StripFacts.

Section Provenance.
Import Re.

Lemma match_at_captures {R} r g s (k : option str -> str -> option R) x :
  match_at r g s k = Some x ->
  ∃ m s' g', s = m ++ s' ∧ captures r g m g' ∧ k g' s' = Some x.
Proof.
  revert g s k. induction r as [l|r1 IH1 r2 IH2|r IH|p|p|r IH]; intros g s k; simpl.
  - destruct (starts_with l s) eqn:Hl; [|done]. intros Hk.
    exists l, (drop (length l) s), g. split_and!; [|done..].
    by apply starts_with_inv.
  - intros H1. destruct (IH1 _ _ _ H1) as (m1 & s1 & g1 & -> & Hm1 & H2).
    destruct (IH2 _ _ _ H2) as (m2 & s2 & g2 & -> & Hm2 & Hk).
    exists (m1 ++ m2), s2, g2. split_and!; [by rewrite app_assoc| |done].
    by exists m1, m2, g1.
  - destruct (match_at r g s k) as [y|] eqn:Hr.
    + intros [= ->]. destruct (IH _ _ _ Hr) as (m & s' & g' & -> & Hm & Hk).
      exists m, s', g'. split_and!; [done|by right|done].
    + intros Hk. exists [], s, g. split_and!; [done|by left|done].
  - intros (m & s' & -> & Hm & Hk)%ReFacts.star_greedy_sound. by exists m, s', g.
  - intros (m & s' & -> & Hm & Hk)%ReFacts.star_lazy_sound. by exists m, s', g.
  - intros Hr. destruct (IH _ _ _ Hr) as (m & s' & g' & -> & Hm & Hk).
    rewrite length_app, Nat.add_sub, take_app_length in Hk.
    exists m, s', (Some m). split; [done|]. split; [|done].
    split; [by exists g'|done].
Qed.

Lemma search_captures r s g :
  search r s = Some g ->
  ∃ pre m post, s = pre ++ m ++ post ∧ captures r None m g.
Proof.
  induction s as [|c s IH]; simpl.
  - destruct (match_at r None [] _) as [y|] eqn:Hm; [|done]. intros [= ->].
    destruct (match_at_captures _ _ _ _ _ Hm) as (m & s' & g' & Hs & Hl & [= ->]).
    by exists [], m, s'.
  - destruct (match_at r None (c :: s) _) as [y|] eqn:Hm.
    + intros [= ->].
      destruct (match_at_captures _ _ _ _ _ Hm) as (m & s' & g' & Hs & Hl & [= ->]).
      by exists [], m, s'.
    + intros (pre & m & post & -> & Hl)%IH. by exists (c :: pre), m, post.
Qed.

(** What the fence pattern matches is a fenced block, and its group is
    the braced block. *)
Lemma captures_json_pattern m g :
  captures Agent.json_pattern None m g ->
  ∃ tag ws1 body ws2,
    m = fenced [] tag ws1 body ws2 []
    ∧ (tag = [] ∨ tag = lit "json") ∧ blank ws1 ∧ blank ws2
    ∧ g = Some (lit "{" ++ body ++ lit "}").
Proof.
  unfold Agent.json_pattern. cbn [captures].
  intros (m1 & m2 & g1 & -> & [-> ->] & m3 & m4 & g2 & -> & Htag
          & m5 & m6 & g3 & -> & [Hws1 ->] & m7 & m8 & g4 & -> & [Hblock ->]
          & m9 & m10 & g5 & -> & [Hws2 ->] & [-> ->]).
  destruct Hblock as (g6 & b1 & b2 & g7 & -> & [-> ->] & b3 & b4 & g8 & ->
                      & [_ ->] & [-> ->]).
  exists m3, m5, b3, m9. unfold fenced. rewrite app_nil_r. simpl.
  split_and!; try done.
  - by rewrite <- !app_assoc.
  - destruct Htag as [[-> ->]|[-> ->]]; auto.
Qed.

End Provenance.

Section ParserMore.

(** The parser invents nothing.  A tool call it returns is a JSON object
    with both keys [tool] and [args], and it was decoded either from the
    whole stripped text, or from a braced block that stands in the text
    between an opening fence (three backticks, an optional [json], blanks)
    and a closing fence (blanks, three backticks). *)
Theorem parsed_tool_call_provenance text d :
  Agent._parse_tool_call text = Some d ->
  (∃ tool_name args,
     dict_get (lit "tool") d = Some tool_name
     ∧ dict_get (lit "args") d = Some args)
  ∧ (Json.loads (strip text) = Some (VDict d)
     ∨ ∃ pre tag ws1 body ws2 post,
         text = fenced pre tag ws1 body ws2 post
         ∧ (tag = [] ∨ tag = lit "json") ∧ blank ws1 ∧ blank ws2
         ∧ Json.loads (lit "{" ++ body ++ lit "}") = Some (VDict d)).
Proof.
  unfold Agent._parse_tool_call. intros Hp.
  assert (Hkeys : ∀ v, Agent.as_tool_call v = Some d ->
            (∃ tool_name args,
               dict_get (lit "tool") d = Some tool_name
               ∧ dict_get (lit "args") d = Some args)
            ∧ v = Some (VDict d)).
  { intros v (-> & [tn Ht]%dict_has_get & [ar Ha]%dict_has_get)%as_tool_call_some.
    split; [by exists tn, ar|done]. }
  destruct (Agent.as_tool_call (Json.loads (strip text))) as [d'|] eqn:Hwhole.
  - injection Hp as ->. destruct (Hkeys _ Hwhole) as [Hk Hl]. split; [done|by left].
  - destruct (Re.search Agent.json_pattern text) as [g|] eqn:Hs; [|done].
    destruct (Hkeys _ Hp) as [Hk Hl]. split; [done|]. right.
    destruct (search_captures _ _ _ Hs) as (pre & m & post & -> & Hm).
    destruct (captures_json_pattern _ _ Hm) as (tag & ws1 & body & ws2 & -> & Htag
                                                 & Hws1 & Hws2 & ->).
    exists pre, tag, ws1, body, ws2, post. split_and!; try done.
    unfold fenced. rewrite app_nil_l, app_nil_r. by rewrite <- !app_assoc.
Qed.

End ParserMore.

(** *** Matching a text that is followed by blanks *)

Section Padding.
Import Re.
Context {R : Type}.
Variable t : str.
Hypothesis Ht : blank t.

Implicit Types (k : option str -> str -> option R).

Lemma starts_with_padded l u :
  Forall (fun c => py_isspace c = false) l ->
  starts_with l (u ++ t) = starts_with l u.
Proof.
  intros Hl. revert u. induction Hl as [|a l Ha _ IH]; intros u; [done|].
  destruct u as [|b u]; simpl; [|by rewrite IH].
  destruct Ht as [|c t' Hc _]; [done|]. simpl.
  destruct (N.eqb_spec a c) as [->|]; [congruence|done].
Qed.

Lemma starts_with_length l u : starts_with l u = true -> (length l <= length u)%nat.
Proof. intros ->%starts_with_inv. rewrite length_app. lia. Qed.

Lemma star_greedy_dead p (k : str -> option R) w v :
  t = w ++ v -> w ≠ [] ->
  (∀ w v, t = w ++ v -> w ≠ [] -> k v = None) ->
  star_greedy p v k = None.
Proof.
  intros Ht' Hw Hk. apply ReFacts.star_greedy_none. intros m s' -> _.
  apply (Hk (w ++ m) s'); [by rewrite <- app_assoc|].
  by destruct w.
Qed.

Lemma star_lazy_dead p (k : str -> option R) v :
  (∀ m s', v = m ++ s' -> k s' = None) -> star_lazy p v k = None.
Proof.
  induction v as [|c v IH]; intros Hk; simpl.
  - by rewrite (Hk [] []).
  - rewrite (Hk [] (c :: v)) by done. destruct (p c); [|done].
    apply IH. intros m s' ->. by apply (Hk (c :: m) s').
Qed.

(** When what remains to be matched fails at every proper end of the
    blanks, so does a tidy pattern followed by it. *)
Lemma match_at_dead r :
  tidy r ->
  ∀ k', (∀ g w v, t = w ++ v -> w ≠ [] -> k' g v = None) ->
  ∀ g w v, t = w ++ v -> w ≠ [] -> match_at r g v k' = None.
Proof.
  induction r as [l|r1 IH1 r2 IH2|r IH|p|p|r IH];
    intros Hr k' Hk' g w v Hv Hw; cbn [match_at].
  - destruct (starts_with l v) eqn:Hl; [|done].
    apply (Hk' g (w ++ take (length l) v)); [|by destruct w].
    by rewrite <- app_assoc, take_drop.
  - destruct Hr as [Hr1 Hr2].
    apply (IH1 Hr1 (fun g s' => match_at r2 g s' k')) with (w := w); [|done..].
    by apply IH2.
  - rewrite (IH Hr k' Hk' g w v Hv Hw). by apply (Hk' g w v).
  - apply (star_greedy_dead p (k' g) w v Hv Hw). intros w' v'. apply Hk'.
  - apply star_lazy_dead. intros m s' ->.
    apply (Hk' g (w ++ m) s'); [by rewrite <- app_assoc|by destruct w].
  - apply (IH Hr (fun _ s' => k' (Some (take (length v - length s') v)) s'))
      with (w := w); [|done..].
    intros g' w' v' Hv' Hw'. by apply (Hk' _ w' v').
Qed.

Lemma star_greedy_padded p (k k' : str -> option R) u :
  (∀ u, k' (u ++ t) = k u) ->
  (∀ w v, t = w ++ v -> w ≠ [] -> k' v = None) ->
  star_greedy p (u ++ t) k' = star_greedy p u k.
Proof.
  intros Hagree Hdead. induction u as [|c u IH].
  - rewrite app_nil_l. simpl. rewrite <- (Hagree []), app_nil_l.
    destruct t as [|c t'] eqn:Et; [done|]. simpl.
    destruct (p c); [|done].
    rewrite ReFacts.star_greedy_none; [done|].
    intros m s' -> _. by apply (Hdead (c :: m) s').
  - simpl. rewrite IH. rewrite <- (Hagree (c :: u)). done.
Qed.

Lemma star_lazy_padded p (k k' : str -> option R) u :
  (∀ u, k' (u ++ t) = k u) ->
  (∀ w v, t = w ++ v -> w ≠ [] -> k' v = None) ->
  star_lazy p (u ++ t) k' = star_lazy p u k.
Proof.
  intros Hagree Hdead. induction u as [|c u IH].
  - rewrite app_nil_l.
    change (star_lazy p [] k)
      with (match k [] with Some x => Some x | None => None end).
    rewrite <- (Hagree []), app_nil_l.
    destruct t as [|c t'] eqn:Et; [done|]. cbn [star_lazy].
    destruct (k' (c :: t')); [done|].
    destruct (p c); [|done]. apply star_lazy_dead.
    intros m s' ->. by apply (Hdead (c :: m) s').
  - simpl. rewrite IH. rewrite <- (Hagree (c :: u)). done.
Qed.

(** When what remains to be matched does the same on a text and on the
    text followed by the blanks, and fails at every proper end of the
    blanks, so does a tidy pattern followed by it. *)
Lemma match_at_padded r :
  tidy r ->
  ∀ k k', (∀ g u, k' g (u ++ t) = k g u) ->
  (∀ g w v, t = w ++ v -> w ≠ [] -> k' g v = None) ->
  ∀ g u, match_at r g (u ++ t) k' = match_at r g u k.
Proof.
  induction r as [l|r1 IH1 r2 IH2|r IH|p|p|r IH];
    intros Hr k k' Hagree Hdead g u; cbn [match_at].
  - rewrite starts_with_padded by done.
    destruct (starts_with l u) eqn:Hl; [|done].
    rewrite drop_app_le by (by apply starts_with_length). apply Hagree.
  - destruct Hr as [Hr1 Hr2].
    apply (IH1 Hr1 (fun g s' => match_at r2 g s' k)
                   (fun g s' => match_at r2 g s' k')).
    + by apply IH2.
    + by apply match_at_dead.
  - rewrite (IH Hr k k' Hagree Hdead g u). by rewrite Hagree.
  - apply star_greedy_padded; [apply Hagree|apply Hdead].
  - apply star_lazy_padded; [apply Hagree|apply Hdead].
  - apply (IH Hr (fun _ s' => k (Some (take (length u - length s') u)) s')
              (fun _ s' => k' (Some (take (length (u ++ t) - length s') (u ++ t))) s')).
    + intros g' u'. rewrite !length_app.
      replace (length u + length t - (length u' + length t))%nat
        with (length u - length u')%nat by lia.
      rewrite take_app_le by lia. apply Hagree.
    + intros g' w v Hv Hw. by apply (Hdead _ w v).
Qed.

(** A pattern that ends with a literal, matched on a text and on the text
    followed by blanks. *)
Lemma match_at_padded_end r l (k : option str -> option R) g u :
  tidy r -> Forall (fun c => py_isspace c = false) l -> l ≠ [] ->
  match_at (Seq r (Lit l)) g (u ++ t) (fun g _ => k g)
  = match_at (Seq r (Lit l)) g u (fun g _ => k g).
Proof.
  intros Hr Hl Hne. cbn [match_at].
  apply (match_at_padded r Hr
           (fun g s' => if starts_with l s' then k g else None)
           (fun g s' => if starts_with l s' then k g else None)).
  - intros g' u'. by rewrite starts_with_padded.
  - intros g' w v Hv Hw.
    destruct l as [|a l]; [done|]. apply Forall_cons in Hl as [Ha _].
    destruct v as [|c v]; [done|].
    assert (Hc : py_isspace c = true).
    { unfold blank in Ht. rewrite Forall_forall in Ht. apply Ht.
      rewrite Hv. set_solver. }
    simpl. destruct (N.eqb_spec a c) as [->|]; [congruence|done].
Qed.

Lemma match_at_dead_end r l (k : option str -> option R) g w v :
  tidy r -> Forall (fun c => py_isspace c = false) l -> l ≠ [] ->
  t = w ++ v -> w ≠ [] ->
  match_at (Seq r (Lit l)) g v (fun g _ => k g) = None.
Proof.
  intros Hr Hl Hne Hv Hw. cbn [match_at].
  apply (match_at_dead r Hr) with (w := w); [|done..].
  clear g w v Hv Hw. intros g w v Hv _.
  destruct l as [|a l]; [done|]. apply Forall_cons in Hl as [Ha _].
  destruct v as [|c v]; [done|].
  assert (Hc : py_isspace c = true).
  { unfold blank in Ht. rewrite Forall_forall in Ht. apply Ht.
    rewrite Hv. set_solver. }
  simpl. destruct (N.eqb_spec a c) as [->|]; [congruence|done].
Qed.

End Padding.

Section SearchPadding.
Import Re.

Lemma search_dead r l (t : str) :
  blank t -> tidy r -> Forall (fun c => py_isspace c = false) l -> l ≠ [] ->
  ∀ v w, t = w ++ v -> w ≠ [] -> search (Seq r (Lit l)) v = None.
Proof.
  intros Ht Hr Hl Hne. induction v as [|c v IH]; intros w Hv Hw.
  - change (search (Seq r (Lit l)) [])
      with (match match_at (Seq r (Lit l)) None [] (fun g _ => Some g) with
            | Some g => Some g
            | None => None
            end).
    by rewrite (match_at_dead_end t Ht r l Some None w []).
  - rewrite ReFacts.search_cons.
    rewrite (match_at_dead_end t Ht r l Some None w (c :: v)) by done.
    apply (IH (w ++ [c])); [by rewrite <- app_assoc|by destruct w].
Qed.

(** Blanks after a text change nothing to what a search for a tidy
    pattern that ends with a literal finds in it. *)
Lemma search_padded r l (u t : str) :
  blank t -> tidy r -> Forall (fun c => py_isspace c = false) l -> l ≠ [] ->
  search (Seq r (Lit l)) (u ++ t) = search (Seq r (Lit l)) u.
Proof.
  intros Ht Hr Hl Hne. induction u as [|c u IH].
  - rewrite app_nil_l. destruct t as [|c t'] eqn:Et; [done|].
    rewrite ReFacts.search_cons. rewrite <- Et.
    rewrite <- (app_nil_l t) at 1.
    rewrite (match_at_padded_end t) by (by rewrite ?Et).
    rewrite (search_dead r l t) with (w := [c]) (v := t');
      [done|by rewrite Et|done..|by rewrite Et|done].
  - rewrite <- app_comm_cons, !ReFacts.search_cons.
    rewrite app_comm_cons, (match_at_padded_end t) by done.
    by rewrite IH.
Qed.

Lemma search_ext r1 r2 (s : str) :
  (∀ g s (k : option str -> str -> option (option str)),
     match_at r1 g s k = match_at r2 g s k) ->
  search r1 s = search r2 s.
Proof.
  intros Hext. induction s as [|c s IH]; simpl; rewrite Hext; [done|].
  by rewrite IH.
Qed.

Lemma search_json_pattern_padded (u t : str) :
  blank t ->
  search Agent.json_pattern (u ++ t) = search Agent.json_pattern u.
Proof.
  intros Ht.
  set (r := Seq (Lit (lit "```"))
           (Seq (Opt (Lit (lit "json")))
           (Seq (Star py_isspace)
           (Seq (Group
                   (Seq (Lit (lit "{"))
                   (Seq (StarLazy (fun _ => true)) (Lit (lit "}")))))
                (Star py_isspace))))).
  assert (Hext : ∀ g s (k : option str -> str -> option (option str)),
            match_at Agent.json_pattern g s k
            = match_at (Seq r (Lit (lit "```"))) g s k) by reflexivity.
  rewrite !(search_ext _ _ _ Hext).
  apply search_padded; [done| |by repeat constructor|done].
  repeat split; by repeat constructor.
Qed.

End SearchPadding.

Section ParserPad.

Lemma blank_no_backtick ws : blank ws -> 96 ∉ ws.
Proof.
  unfold blank. rewrite Forall_forall. intros Hws Hin. by apply Hws in Hin.
Qed.

(** White space around a response (what [str.strip] removes) never
    changes what the parser makes of it: neither the decoding of the
    whole text, nor the search for a fenced block. *)
Theorem parse_ignores_surrounding_blanks text ws1 ws2 :
  blank ws1 -> blank ws2 ->
  Agent._parse_tool_call (ws1 ++ text ++ ws2) = Agent._parse_tool_call text.
Proof.
  intros H1 H2. unfold Agent._parse_tool_call.
  rewrite strip_blank by done.
  rewrite ReFacts.search_skip_prefix by (by apply blank_no_backtick).
  by rewrite search_json_pattern_padded.
Qed.

End ParserPad.

(* ===================================================================== *)
(** ** Proofs: more on Pool.run *)
(* ===================================================================== *)

Section PoolMore.
Context {World : Type} `{Agent.Externals}.
Implicit Types (p : Pool.t World) (s : Pool.pool_rt World).

(** The pool catches nothing either: a fault of the router, and a fault
    of the agent the router named, end the loop with that fault.  After a
    router fault no agent was run; after an agent fault the history holds
    no message of that agent (the shared state is as the router left
    it). *)
Theorem pool_run_propagates_faults fuel agent_fuel p call_count last_result
    input s :
  (call_count < Pool.max_iter p)%nat ->
  (∀ e st,
     Router.exec (Pool.router p call_count last_result) (Pool.shared s)
     = (Raised e, st) ->
     Pool.loop (S fuel) agent_fuel p call_count last_result input s
     = (Raised e, Pool.PoolRt st (Pool.agents_rt s)))
  ∧ (∀ st n agent e r',
       Router.exec (Pool.router p call_count last_result) (Pool.shared s)
       = (Returned (Some {| Router.next_agent_name := Some n |}), st) ->
       Pool.agents_dict p !! n = Some agent ->
       Agent.run agent_fuel agent input
         (Rt (world (Pool.agents_rt s))
             (trace (Pool.agents_rt s) ++ [EvAgentRun (Agent.name agent) input]))
       = (Raised e, r') ->
       Pool.loop (S fuel) agent_fuel p call_count last_result input s
       = (Raised e, Pool.PoolRt st r')).
Proof.
  intros Hc. split.
  - intros e st Hr. cbn [Pool.loop].
    destruct (Nat.ltb_spec call_count (Pool.max_iter p)); [|lia].
    apply bind_raised. by rewrite on_state_shared, Hr.
  - intros st n agent e r' Hr Hn Hrun. cbn [Pool.loop].
    destruct (Nat.ltb_spec call_count (Pool.max_iter p)); [|lia].
    unfold bind at 1. rewrite on_state_shared, Hr. simpl. rewrite Hn.
    apply bind_raised. rewrite on_agents_rt, emit_then. cbn [Pool.agents_rt].
    by rewrite Hrun.
Qed.

(** *** Round-robin routing *)

Section RoundRobin.
Variables (p : Pool.t World) (agent_names : list str) (agent_fuel : nat).
Hypothesis Hrouter : Pool.router p = Router.round_robin_router agent_names.
Hypothesis Hregistered :
  ∀ n, n ∈ agent_names ->
    ∃ agent, Pool.agents_dict p !! n = Some agent ∧ Agent.name agent = n.
Hypothesis Hruns :
  ∀ n agent input r,
    Pool.agents_dict p !! n = Some agent ->
    ∃ output r', Agent.run agent_fuel agent input r = (Returned output, r').

Lemma round_robin_loop fuel :
  ∀ call_count last_result input s,
    (Pool.max_iter p <= fuel + call_count)%nat ->
    ∃ s' msgs,
      Pool.loop fuel agent_fuel p call_count last_result input s
      = (Returned tt, s')
      ∧ State.history (Pool.shared s') = State.history (Pool.shared s) ++ msgs
      ∧ map State.agent msgs
        = map Some (take (Pool.max_iter p - call_count) (drop call_count agent_names))
      ∧ Forall (fun m => State.role m = lit "assistant") msgs.
Proof using All.
  induction fuel as [|fuel IH]; intros call_count last_result input s Hfuel.
  - simpl. destruct (Nat.ltb_spec call_count (Pool.max_iter p)); [lia|].
    exists s, []. rewrite app_nil_r.
    replace (Pool.max_iter p - call_count)%nat with 0%nat by lia. done.
  - cbn [Pool.loop].
    destruct (Nat.ltb_spec call_count (Pool.max_iter p)) as [Hlt|Hge].
    2:{ exists s, []. rewrite app_nil_r.
        replace (Pool.max_iter p - call_count)%nat with 0%nat by lia. done. }
    rewrite Hrouter. unfold Router.round_robin_router.
    destruct (Nat.leb_spec (length agent_names) call_count) as [Hout|Hin].
    { exists s, []. rewrite app_nil_r, drop_ge by done.
      rewrite take_nil. split; [|done].
      unfold bind at 1. rewrite on_state_shared. simpl. by destruct s. }
    rewrite Nat.mod_small by done.
    destruct (lookup_lt_is_Some_2 agent_names call_count Hin) as [n Hn].
    rewrite Hn.
    destruct (Hregistered n) as (agent & Hagent & Hname);
      [by eapply list_elem_of_lookup_2|].
    unfold bind at 1. rewrite on_state_shared. simpl. rewrite Hagent.
    destruct (Hruns n agent input
                (Rt (world (Pool.agents_rt s))
                    (trace (Pool.agents_rt s) ++ [EvAgentRun (Agent.name agent) input]))
                Hagent) as (output & r' & Hrun).
    unfold bind at 1. rewrite on_agents_rt, emit_then. cbn [Pool.agents_rt].
    rewrite Hrun. simpl.
    unfold bind at 1, modify. rewrite on_state_shared. simpl.
    edestruct (IH (S call_count)) as (s' & msgs & Hloop & Hhist & Hagents & Hroles);
      [lia|].
    exists s', (State.Message (lit "assistant") output (Some (Agent.name agent)) :: msgs).
    split; [exact Hloop|]. rewrite Hhist. simpl. split_and!.
    + by rewrite <- app_assoc.
    + rewrite Hagents, Hname. rewrite (drop_S _ _ _ Hn).
      replace (Pool.max_iter p - call_count)%nat
        with (S (Pool.max_iter p - S call_count)) by lia.
      done.
    + by constructor.
Qed.

(** A pool routed round-robin over [agent_names], all of them registered
    under their own name, whose agents' runs return: the run returns, and
    it has appended to the history the user's message followed by one
    assistant message per agent run, the agents being the first
    [max_iter] names of [agent_names], in that order, each once. *)
Theorem round_robin_pool_runs_agents_in_order user_input s :
  ∃ result s' msgs,
    Pool.run agent_fuel p user_input s = (Returned result, s')
    ∧ State.history (Pool.shared s')
      = State.history (Pool.shared s)
        ++ State.Message (lit "user") user_input None :: msgs
    ∧ map State.agent msgs = map Some (take (Pool.max_iter p) agent_names)
    ∧ Forall (fun m => State.role m = lit "assistant") msgs
    ∧ result = Pool.final (State.history (Pool.shared s')).
Proof using All.
  rewrite run_unfold.
  edestruct (round_robin_loop (Pool.max_iter p) 0%nat None user_input)
    as (s' & msgs & Hloop & Hhist & Hagents & Hroles); [lia|].
  exists (Pool.final (State.history (Pool.shared s'))), s', msgs.
  split_and!; try done.
  - erewrite bind_returned by exact Hloop. reflexivity.
  - rewrite Hhist. simpl. by rewrite <- app_assoc.
  - by rewrite Hagents, Nat.sub_0_r.
Qed.

End RoundRobin.

(** *** The names of a pool *)

Lemma registry_keys {A} (key : A -> str) (items : list A) (m : gmap str A) n x :
  foldl (fun m x => <[key x := x]> m) m items !! n = Some x ->
  (x ∈ items ∧ key x = n) ∨ m !! n = Some x.
Proof.
  revert m. induction items as [|y items IH]; intros m; simpl; [auto|].
  intros [[Hin Hk]|Hm]%IH.
  - left. split; [by right|done].
  - destruct (decide (key y = n)) as [Hy|Hy].
    + rewrite <- Hy, lookup_insert_eq in Hm. injection Hm as ->.
      left. split; [by left|done].
    + rewrite lookup_insert_ne in Hm by done. by right.
Qed.

Lemma registry_dom {A} (key : A -> str) (items : list A) (m : gmap str A) n :
  is_Some (foldl (fun m x => <[key x := x]> m) m items !! n)
  <-> n ∈ map key items ∨ is_Some (m !! n).
Proof.
  revert m. induction items as [|y items IH]; intros m; simpl.
  - rewrite elem_of_nil. tauto.
  - rewrite IH, elem_of_cons. destruct (decide (key y = n)) as [Hy|Hy].
    + rewrite <- Hy, lookup_insert_eq. split; [auto|]. intros _. right. by eexists.
    + rewrite lookup_insert_ne by done. split; [tauto|].
      intros [[Heq|Hin]|Hm]; [by destruct Hy|auto..].
Qed.

Lemma remove_dups_NoDup {A} `{EqDecision A} (l : list A) :
  NoDup l -> remove_dups l = l.
Proof.
  induction 1 as [|x l Hx _ IH]; [done|]. cbn [remove_dups].
  destruct (decide_rel elem_of x l); [done|]. by rewrite IH.
Qed.

(** [agents_names] lists the keys of the registry, each once: a name is
    in the list exactly when an agent is registered under it; the agent
    registered under a name is one of the agents given, and bears that
    name; and when the agents given have distinct names, the list is
    their names in the order given. *)
Theorem pool_names_are_registry_keys (agents : list (Agent.t World))
    default_model router max_iter default_state :
  NoDup (Pool.agents_names
           (Pool.init agents default_model router max_iter default_state))
  ∧ (∀ n,
       n ∈ Pool.agents_names
             (Pool.init agents default_model router max_iter default_state)
       <-> is_Some (Pool.agents_dict
                      (Pool.init agents default_model router max_iter default_state)
                    !! n))
  ∧ (∀ n agent,
       Pool.agents_dict
         (Pool.init agents default_model router max_iter default_state) !! n
       = Some agent ->
       agent ∈ agents ∧ Agent.name agent = n)
  ∧ (NoDup (map Agent.name agents) ->
     Pool.agents_names
       (Pool.init agents default_model router max_iter default_state)
     = map Agent.name agents).
Proof.
  cbn [Pool.agents_names Pool.agents_dict Pool.init].
  unfold Pool.first_occurrences. split_and!.
  - rewrite reverse_Permutation. apply NoDup_remove_dups.
  - intros n. rewrite elem_of_reverse, elem_of_remove_dups, elem_of_reverse.
    rewrite registry_dom, lookup_empty. split; [auto|].
    intros [Hin|[x Hx]]; done.
  - intros n agent [Hin|Hm]%registry_keys; [done|]. by rewrite lookup_empty in Hm.
  - intros Hnodup. rewrite remove_dups_NoDup, reverse_involutive; [done|].
    by rewrite reverse_Permutation.
Qed.

End PoolMore.

Section PoolMore2.
Context {World : Type} `{Agent.Externals}.
Implicit Types (p : Pool.t World) (s : Pool.pool_rt World).

Lemma final_snoc_user h content agent :
  Pool.final (h ++ [State.Message (lit "user") content agent]) = Pool.final h.
Proof.
  unfold Pool.final. rewrite reverse_snoc, filter_cons_False; [done|].
  simpl. by intros [=].
Qed.

(** A pool that takes no turn, and a pool left without a router.  With
    [max_iter = 0] the router is never consulted: the run records the
    user's message, runs no agent and returns the last assistant message
    the state already held (the empty string when it held none).  A pool
    built without a router has the default one, which does not take the
    keyword [last_result] it is called with: as soon as [0 < max_iter] the
    run raises [TypeError] at its first turn, the user's message recorded
    and no agent run. *)
Theorem pool_without_turns_or_router :
  (∀ agent_fuel p user_input s,
     Pool.max_iter p = 0%nat ->
     Pool.run agent_fuel p user_input s
     = (Returned (Pool.final (State.history (Pool.shared s))),
        Pool.PoolRt (State.add_message (lit "user") user_input None (Pool.shared s))
                    (Pool.agents_rt s)))
  ∧ (∀ agent_fuel agents default_model max_iter default_state user_input s,
       (0 < max_iter)%nat ->
       ∃ e,
         Pool.run agent_fuel
           (Pool.init agents default_model None max_iter default_state)
           user_input s
         = (Raised e,
            Pool.PoolRt
              (State.add_message (lit "user") user_input None (Pool.shared s))
              (Pool.agents_rt s))
         ∧ exn_class e = lit "TypeError").
Proof.
  split.
  - intros agent_fuel p user_input s Hmax. rewrite run_unfold, Hmax.
    unfold bind, get_state, ret. simpl. rewrite Hmax. simpl.
    by rewrite final_snoc_user.
  - intros agent_fuel agents default_model max_iter default_state user_input s
      Hmax.
    exists (TypeError (lit "Pool.__init__.<locals>.<lambda>() got an unexpected keyword argument 'last_result'")).
    split; [|reflexivity].
    rewrite run_unfold. cbn [Pool.max_iter Pool.init].
    destruct max_iter as [|fuel]; [lia|].
    apply bind_raised.
    cbn [Pool.loop Pool.max_iter Pool.router Pool.init default].
    replace (0 <? S fuel)%nat with true by done.
    apply bind_raised. by rewrite on_state_shared.
Qed.

End PoolMore2.

(* ===================================================================== *)
(** ** Proofs: the two stages of the parser *)
(* ===================================================================== *)

Section ParserStages.

(** Where a character first occurs in a text. *)
Lemma first_occurrence (c : N) (l1 r1 l2 r2 : str) :
  c ∉ l1 -> c ∉ l2 -> l1 ++ c :: r1 = l2 ++ c :: r2 -> l1 = l2.
Proof.
  revert l2. induction l1 as [|x l1 IH]; intros [|y l2] H1 H2 Heq;
    simplify_eq/=; try done.
  - exfalso. apply H2. by left.
  - exfalso. apply H1. by left.
  - f_equal. apply (IH l2); [set_solver..|done].
Qed.

(** The place of a character that occurs once. *)
Lemma only_occurrence (c : N) (l1 r1 l2 r2 : str) :
  c ∉ l2 -> c ∉ r2 -> l1 ++ c :: r1 = l2 ++ c :: r2 -> l1 = l2 ∧ r1 = r2.
Proof.
  revert l2. induction l1 as [|x l1 IH]; intros [|y l2] H1 H2 Heq;
    simplify_eq/=; try done.
  - exfalso. apply H1. by left.
  - exfalso. apply H2. rewrite elem_of_app. right. by left.
  - assert (l1 = l2 ∧ r1 = r2) as [-> ->]; [|done].
    apply not_elem_of_cons in H1 as [_ H1]. by apply IH.
Qed.

(** In a text with one opening and one closing brace, a fenced block can
    only be what stands between the two. *)
Lemma fenced_only_block pre0 body0 post0 pre tag ws1 body ws2 post :
  pre0 ++ 123 :: body0 ++ 125 :: post0 = fenced pre tag ws1 body ws2 post ->
  123 ∉ pre0 -> 123 ∉ (body0 ++ 125 :: post0) -> 125 ∉ body0 -> 125 ∉ post0 ->
  body = body0.
Proof.
  intros Htext Hpre Hrest Hbody Hpost. unfold fenced in Htext.
  change (lit "{" ++ ?t) with (123 :: t) in Htext.
  change (lit "}" ++ ?t) with (125 :: t) in Htext.
  rewrite 3!app_assoc in Htext. symmetry in Htext.
  apply only_occurrence in Htext as [_ Hblock]; [|done..].
  by apply only_occurrence in Hblock as [-> _].
Qed.

(** An opening fence, its tag and the blanks after it hold no brace, and
    no backtick comes after the fence. *)
Lemma opening_fence_chars (tag ws : str) :
  tag = [] ∨ tag = lit "json" -> blank ws ->
  (123 ∉ lit "```" ++ tag ++ ws) ∧ (96 ∉ tag ++ ws).
Proof.
  intros Htag Hws.
  assert (Hblank : ∀ c, py_isspace c = false -> c ∉ ws).
  { intros c Hc Hin. unfold blank in Hws. rewrite Forall_forall in Hws.
    specialize (Hws c Hin). congruence. }
  pose proof (Hblank 123 eq_refl). pose proof (Hblank 96 eq_refl).
  destruct Htag as [->| ->]; eval_lits; split;
    rewrite ?elem_of_app, ?elem_of_cons, ?elem_of_nil; intros Hin;
    repeat (destruct Hin as [Hin|Hin]; try done).
Qed.

(** No fence opens before the first brace of a text, unless it is the
    fence that leads to that brace. *)
Lemma match_at_before_fence {R} c pre tag ws1 rest
    (k : option str -> str -> option R) :
  123 ∉ (c :: pre) -> tag = [] ∨ tag = lit "json" -> blank ws1 ->
  Re.match_at Agent.json_pattern None
    (c :: pre ++ lit "```" ++ tag ++ ws1 ++ lit "{" ++ rest) k = None.
Proof.
  intros Hpre Htag Hws1.
  destruct (Re.match_at _ _ _ _) as [x|] eqn:Hm; [|done]. exfalso.
  destruct (match_at_captures _ _ _ _ _ Hm) as (m & s' & g' & Hs & Hcap & _).
  destruct (captures_json_pattern _ _ Hcap)
    as (tag' & ws1' & body' & ws2' & -> & Htag' & Hws1' & _ & _).
  destruct (opening_fence_chars tag ws1 Htag Hws1) as [Hb1 _].
  destruct (opening_fence_chars tag' ws1' Htag' Hws1') as [Hb2 Hq2].
  assert (Heq : (c :: pre) ++ lit "```" ++ tag ++ ws1
                = lit "```" ++ tag' ++ ws1').
  { apply (first_occurrence 123 _ rest _
             (body' ++ lit "}" ++ ws2' ++ lit "```" ++ s')).
    - rewrite elem_of_app. by intros [?|?].
    - done.
    - etrans; [|etrans; [exact Hs|]].
      + by rewrite <- !app_assoc.
      + unfold fenced. rewrite app_nil_l, app_nil_r.
        by rewrite <- !app_assoc. }
  eval_lits_in Heq. cbn [app] in Heq. injection Heq as -> Heq.
  change (pre ++ 96 :: 96 :: 96 :: tag ++ ws1)
    with (pre ++ [96; 96] ++ 96 :: tag ++ ws1) in Heq.
  rewrite app_assoc in Heq.
  change (96 :: 96 :: tag' ++ ws1') with ([96; 96] ++ tag' ++ ws1') in Heq.
  apply app_eq_inv in Heq as [(j & Hj1 & Hj2)|(j & Hj1 & Hj2)].
  - cbn [app] in Hj2. apply Hq2. rewrite Hj2, elem_of_app. right. by left.
  - assert (Hlen := f_equal length Hj1). rewrite !length_app in Hlen.
    simpl in Hlen. destruct j; [|simpl in Hlen; lia].
    cbn [app] in Hj2. apply Hq2. rewrite <- Hj2. by left.
Qed.

(** The search finds the first fenced block: when no backtick, or no
    brace, comes before the opening fence, and no backtick inside the
    block, the group of the match is that block, whatever follows the
    closing fence. *)
Lemma search_first_fenced pre tag ws1 body ws2 post :
  96 ∉ pre ∨ 123 ∉ pre -> tag = [] ∨ tag = lit "json" -> blank ws1 ->
  blank ws2 -> 96 ∉ body ->
  Re.search Agent.json_pattern (fenced pre tag ws1 body ws2 post)
  = Some (Some (lit "{" ++ body ++ lit "}")).
Proof.
  intros [Hpre|Hpre] Htag Hws1 Hws2 Hbody; [by apply ReFacts.search_fenced|].
  rewrite <- (ReFacts.search_fenced [] tag ws1 body ws2 post)
    by (try done; apply not_elem_of_nil).
  unfold fenced. rewrite app_nil_l.
  induction pre as [|c pre IH]; [done|].
  rewrite <- app_comm_cons, ReFacts.search_cons.
  rewrite match_at_before_fence by done.
  apply IH. by apply not_elem_of_cons in Hpre as [_ ?].
Qed.

(** The test of both stages, said with the keys. *)
Lemma as_tool_call_single v d :
  Agent.as_tool_call v = Some d <-> v = Some (VDict d) ∧ single_call d.
Proof.
  unfold single_call. rewrite <- !dict_has_get. split.
  - by intros (-> & Ht & Ha)%as_tool_call_some.
  - intros (-> & Ht & Ha). by apply as_tool_call_dict.
Qed.

Lemma as_tool_call_no_call text :
  Agent.as_tool_call (Json.loads text) = None <-> no_call text.
Proof.
  unfold no_call. split.
  - intros Hnone d Hl Hd.
    assert (Agent.as_tool_call (Json.loads text) = Some d) as Hsome
      by (by apply as_tool_call_single).
    congruence.
  - intros Hno. destruct (Agent.as_tool_call (Json.loads text)) as [d|] eqn:Hd;
      [|done].
    apply as_tool_call_single in Hd as [Hl Hd]. by destruct (Hno d).
Qed.

(** The parser is its two stages, in their order. *)
Lemma parse_tool_call_stages text d :
  Agent._parse_tool_call text = Some d <->
  single_call d
  ∧ (Json.loads (strip text) = Some (VDict d)
     ∨ (no_call (strip text)
        ∧ ∃ block,
            Re.search Agent.json_pattern text = Some (Some block)
            ∧ Json.loads block = Some (VDict d))).
Proof.
  unfold Agent._parse_tool_call.
  destruct (Agent.as_tool_call (Json.loads (strip text))) as [d'|] eqn:Hwhole.
  - apply as_tool_call_single in Hwhole as [Hl Hd]. split.
    + intros [= <-]. split; [done|by left].
    + intros (_ & [Hl'|[Hno _]]); [congruence|]. by destruct (Hno d').
  - apply as_tool_call_no_call in Hwhole. split.
    + destruct (Re.search Agent.json_pattern text) as [[block|]|]; try done.
      intros [Hl Hd]%as_tool_call_single. split; [done|]. right.
      split; [done|]. by exists block.
    + intros (Hd & [Hl|(_ & block & -> & Hl)]); [by destruct (Hwhole d)|].
      by apply as_tool_call_single.
Qed.

(** C4: the parser has two stages.  (1) The whole response, stripped, is
    decoded as JSON first, and when that gives a JSON object with the keys
    [tool] and [args], that object is the single-tool call, whatever else
    the text holds.  (2) Only when the whole response gives no such
    object is a fenced block searched, and the first one decides: for a
    response that embeds a braced block between code fences, with no
    backtick or no brace before the opening fence and no backtick inside
    the block, the call is the block's object when the block decodes to
    an object with both keys, and there is no call when it does not,
    whatever follows the closing fence (a later block is never tried).
    (3) These are the only ways: the parser returns [d] exactly when [d]
    has both keys and is what the whole text decodes to, or the whole
    text gives no call and [d] is what the block found by the search
    decodes to.  (4) A text that holds no such JSON, neither as a whole
    nor in any fenced block, parses as no tool call; so does (5) a text
    with no opening brace, as plain natural-language text is, and a text
    with no backtick that gives no call as a whole. *)
Theorem parse_tool_call_two_stage :
  (∀ text d,
     Json.loads (strip text) = Some (VDict d) -> single_call d ->
     Agent._parse_tool_call text = Some d)
  ∧ (∀ pre tag ws1 body ws2 post,
       96 ∉ pre ∨ 123 ∉ pre -> tag = [] ∨ tag = lit "json" ->
       blank ws1 -> blank ws2 -> 96 ∉ body ->
       no_call (strip (fenced pre tag ws1 body ws2 post)) ->
       (∀ d, Json.loads (lit "{" ++ body ++ lit "}") = Some (VDict d) ->
             single_call d ->
             Agent._parse_tool_call (fenced pre tag ws1 body ws2 post) = Some d)
       ∧ (no_call (lit "{" ++ body ++ lit "}") ->
          Agent._parse_tool_call (fenced pre tag ws1 body ws2 post) = None))
  ∧ (∀ text d,
       Agent._parse_tool_call text = Some d <->
       single_call d
       ∧ (Json.loads (strip text) = Some (VDict d)
          ∨ (no_call (strip text)
             ∧ ∃ block,
                 Re.search Agent.json_pattern text = Some (Some block)
                 ∧ Json.loads block = Some (VDict d))))
  ∧ (∀ text,
       no_call (strip text) ->
       (∀ pre tag ws1 body ws2 post,
          text = fenced pre tag ws1 body ws2 post ->
          tag = [] ∨ tag = lit "json" -> blank ws1 -> blank ws2 ->
          no_call (lit "{" ++ body ++ lit "}")) ->
       Agent._parse_tool_call text = None)
  ∧ (∀ text,
       123 ∉ text ∨ ((96 ∉ text) ∧ no_call (strip text)) ->
       Agent._parse_tool_call text = None).
Proof.
  split_and!.
  - intros text d Hl Hd. apply parse_tool_call_stages. split; [done|by left].
  - intros pre tag ws1 body ws2 post Hpre Htag Hws1 Hws2 Hbody Hwhole.
    pose proof (search_first_fenced pre tag ws1 body ws2 post
                  Hpre Htag Hws1 Hws2 Hbody) as Hs.
    split.
    + intros d Hl Hd. apply parse_tool_call_stages. split; [done|]. right.
      split; [done|]. by eexists.
    + intros Hblock.
      destruct (Agent._parse_tool_call _) as [d|] eqn:Hp; [|done].
      apply parse_tool_call_stages in Hp
        as (Hd & [Hl|(_ & block & Hs' & Hl)]); [by destruct (Hwhole d)|].
      rewrite Hs in Hs'. injection Hs' as <-. by destruct (Hblock d).
  - apply parse_tool_call_stages.
  - intros text Hwhole Hblocks.
    destruct (Agent._parse_tool_call text) as [d|] eqn:Hp; [|done].
    apply parse_tool_call_stages in Hp
      as (Hd & [Hl|(_ & block & Hs & Hl)]); [by destruct (Hwhole d)|].
    destruct (search_captures _ _ _ Hs) as (pre & m & post & Htext & Hm).
    destruct (captures_json_pattern _ _ Hm)
      as (tag & ws1 & body & ws2 & -> & Htag & Hws1 & Hws2 & [= ->]).
    destruct (Hblocks pre tag ws1 body ws2 post) with d; try done.
    rewrite Htext. unfold fenced. rewrite app_nil_l, app_nil_r.
    by rewrite <- !app_assoc.
  - intros text [Hno|[Hno Hwhole]]; [by apply parse_tool_call_no_brace|].
    rewrite parse_tool_call_no_fence by done.
    by apply as_tool_call_no_call.
Qed.

End ParserStages.

(* ===================================================================== *)
(** ** Proofs: the stop condition in a run of an agent *)
(* ===================================================================== *)

Section AgentTurns.
Context {World : Type} `{Agent.Externals}.
Implicit Types (a : Agent.t World) (r : rt World) (memory : list Agent.entry).

(** What a tool turn is to the loop. *)
Lemma tool_turn_loop a prompt r entries r' :
  tool_turn a prompt r entries r' ->
  ∃ response w tool_call n tool tool_output,
    Agent.model a prompt (world r) = (Returned response, w)
    ∧ Agent._parse_tool_call response = Some tool_call
    ∧ Agent.item tool_call (lit "tool") = VStr n
    ∧ Agent.tools a !! n = Some tool
    ∧ Tool.run tool (Agent.item tool_call (lit "args")) (answered a prompt w r)
      = (Returned tool_output, r')
    ∧ (∀ memory,
         memory_after_call memory response tool_call tool_output
         = memory ++ entries)
    ∧ entries !! 0%nat = Some (Agent.Entry (lit "assistant") (VStr response)).
Proof.
  intros (response & w & tool_call & n & args & tool & tool_output
          & Hm & Hp & Hn & Ha & Ht & Hrun & ->).
  exists response, w, tool_call, n, tool, tool_output.
  unfold memory_after_call, Agent._add_to_memory, Agent.item.
  rewrite Hn, Ha. split_and!; try done.
  intros memory. by rewrite <- app_assoc.
Qed.

(** Turns the stop condition lets pass are turns of the loop. *)
Lemma loop_tool_turns a i k prompt memory r prompt' memory' r' fuel :
  tool_turns a i k prompt memory r prompt' memory' r' ->
  Agent.loop (k + fuel) a i prompt memory r
  = Agent.loop fuel a (i + k) prompt' memory' r'.
Proof.
  induction 1 as [i prompt memory r
                 |i k prompt memory r entries r1 prompt' memory' r'
                    Hturn Hgo Hturns IH].
  - by rewrite Nat.add_0_r.
  - destruct (tool_turn_loop _ _ _ _ _ Hturn)
      as (response & w & tool_call & n & tool & tool_output
          & Hm & Hp & Hn & Ht & Hrun & Hmem & _).
    cbn [Nat.add].
    erewrite loop_continues by (try done; by rewrite Hmem).
    rewrite Hmem, IH. f_equal. lia.
Qed.

(** C8: at the end of every turn in which a tool was called and has
    returned, the stop condition is evaluated, on the steps taken so far
    and on the current memory.  The steps taken so far are the turns
    completed before this one ([k]: none in the first turn; the code
    passes [step - 1]), and the current memory is the user's input,
    then, for every turn up to this one, the model's response and the
    record of the tool call.  When the condition says stop, [Agent.run]
    returns at once, in the state the tool left, and what it returns is
    ["Stopped after <k+1> steps due to stop condition."], which counts
    this turn too and is not the response of the model.  When the
    condition says go on, the run is not over after this turn. *)
Theorem stop_condition_ends_run fuel a input_data r k prompt memory r_k
    entries r' :
  tool_turns a 0 k
    (Agent._build_initial_prompt a [Agent.Entry (lit "user") (VStr input_data)])
    [Agent.Entry (lit "user") (VStr input_data)] r
    prompt memory r_k ->
  tool_turn a prompt r_k entries r' ->
  (Agent.should_stop (Agent.stop_conditions a) k (memory ++ entries) = true ->
   Agent.run (S k + fuel) a input_data r
   = (Returned (lit "Stopped after " ++ str_of_nat (S k)
                ++ lit " steps due to stop condition."),
      r')
   ∧ ∀ response,
       Agent.Entry (lit "assistant") (VStr response) ∈ entries ->
       response ≠ lit "Stopped after " ++ str_of_nat (S k)
                  ++ lit " steps due to stop condition.")
  ∧ (Agent.should_stop (Agent.stop_conditions a) k (memory ++ entries) = false ->
     Agent.run (S k) a input_data r = (OutOfFuel, r')).
Proof.
  intros Hturns Hturn.
  destruct (tool_turn_loop _ _ _ _ _ Hturn)
    as (response & w & tool_call & n & tool & tool_output
        & Hm & Hp & Hn & Ht & Hrun & Hmem & Hfirst).
  split.
  - intros Hstop. split.
    + unfold Agent.run, Agent._add_to_memory. rewrite app_nil_l.
      replace (S k + fuel)%nat with (k + S fuel)%nat by lia.
      rewrite (loop_tool_turns _ _ _ _ _ _ _ _ _ (S fuel) Hturns).
      cbn [Nat.add]. erewrite loop_stops by (try done; by rewrite Hmem).
      reflexivity.
    + intros response' Hin Heq.
      destruct Hturn as (response0 & w0 & tool_call0 & n0 & args0 & tool0
                         & tool_output0 & _ & Hp0 & _ & _ & _ & _ & ->).
      apply elem_of_cons in Hin as [[= ->]|Hin];
        [|apply elem_of_cons in Hin as [[=]|?%elem_of_nil]; done].
      rewrite parse_tool_call_no_brace in Hp0; [done|].
      rewrite Heq. apply stopped_message_no_brace.
  - intros Hgo.
    unfold Agent.run, Agent._add_to_memory. rewrite app_nil_l.
    replace (S k) with (k + 1)%nat by lia.
    rewrite (loop_tool_turns _ _ _ _ _ _ _ _ _ 1%nat Hturns).
    cbn [Nat.add]. erewrite loop_continues by (try done; by rewrite Hmem).
    reflexivity.
Qed.

End AgentTurns.

(* ===================================================================== *)
(** ** Proofs: the turns of a pool run *)
(* ===================================================================== *)

Section PoolTurns.
Context {World : Type} `{Agent.Externals}.
Implicit Types (p : Pool.t World) (s : Pool.pool_rt World).





End PoolTurns.

(* ===================================================================== *)
(** ** The parser, the agent and the pool at concrete inputs *)
(* ===================================================================== *)

Section Examples.
Import Fixtures.
#[local] Existing Instance externals.

(** Decide a closed membership or equality by computation. *)
Ltac by_computation := apply (bool_decide_unpack _); vm_compute; exact I.

(** C3 at the parallel request of examples/parallel_tools_direct_test.py:
    a JSON object whose key [tools] holds three [{tool, args}] objects.
    The parser returns [None] for it, where that script expects a result
    that holds the key [tools]; the single request of the same script is
    recognized.  An agent whose model gives the parallel request returns
    it as the final answer, and no tool is invoked. *)
Theorem parallel_request_is_not_recognized :
  Json.loads (strip parallel_json)
  = Some (VDict
      [(lit "tools",
        VList
          [VDict [(lit "tool", VStr (lit "tool_a"));
                  (lit "args", VDict [(lit "x", VStr (lit "test1"))])];
           VDict [(lit "tool", VStr (lit "tool_b"));
                  (lit "args", VDict [(lit "y", VStr (lit "test2"))])];
           VDict [(lit "tool", VStr (lit "tool_c"));
                  (lit "args", VDict [(lit "z", VStr (lit "test3"))])]])])
  ∧ Agent._parse_tool_call parallel_json = None
  ∧ Agent._parse_tool_call single_json
    = Some [(lit "tool", VStr (lit "tool_a"));
            (lit "args", VDict [(lit "x", VStr (lit "single_test"))])]
  ∧ (Agent.run 3 fanout (lit "go") start).1 = Returned parallel_json
  ∧ calls (trace (Agent.run 3 fanout (lit "go") start).2) = 0%nat.
Proof. split_and!; vm_compute; reflexivity. Qed.

(** C4 at: the single request of examples/parallel_tools_direct_test.py;
    a request inside a fenced block, after a sentence with a word between
    backticks and with another block after it; a fenced block that is
    JSON and no request, with a request after it; a text whose only
    fenced block is no request; a sentence; a JSON object that is no
    request. *)
Lemma parse_tool_call_two_stage_witness :
  Agent._parse_tool_call single_json
  = Some [(lit "tool", VStr (lit "tool_a"));
          (lit "args", VDict [(lit "x", VStr (lit "single_test"))])]
  ∧ Agent._parse_tool_call
      (fenced (lit "I will call `x` now. ") (lit "json") [10]
              (jlit "'tool': 'x', 'args': {'a': 1}") [10]
              (jlit " Or else ```{'tool': 'y', 'args': {}}```"))
    = Some [(lit "tool", VStr (lit "x")); (lit "args", VDict [(lit "a", VInt 1)])]
  ∧ Agent._parse_tool_call
      (fenced (lit "The answer: ") [] [] (jlit "'answer': 42") []
              (jlit " and then ```{'tool': 'y', 'args': {}}```"))
    = None
  ∧ Agent._parse_tool_call (jlit "The answer: ```{'answer': 42}``` as asked.")
    = None
  ∧ Agent._parse_tool_call (lit "The capital of France is Paris.") = None
  ∧ Agent._parse_tool_call (jlit "{'answer': 42}") = None.
Proof.
  destruct parse_tool_call_two_stage
    as (Hwhole & Hfenced & _ & Hnowhere & Hplain).
  split_and!.
  - apply Hwhole; [vm_compute; reflexivity|].
    split; eexists; reflexivity.
  - destruct (Hfenced (lit "I will call `x` now. ") (lit "json") [10]
                (jlit "'tool': 'x', 'args': {'a': 1}") [10]
                (jlit " Or else ```{'tool': 'y', 'args': {}}```"))
      as [Hcall _].
    + right. by_computation.
    + by right.
    + by repeat constructor.
    + by repeat constructor.
    + by_computation.
    + intros d Hd. vm_compute in Hd. discriminate.
    + apply Hcall; [vm_compute; reflexivity|].
      split; eexists; reflexivity.
  - destruct (Hfenced (lit "The answer: ") [] [] (jlit "'answer': 42") []
                (jlit " and then ```{'tool': 'y', 'args': {}}```"))
      as [_ Hnone].
    + left. by_computation.
    + by left.
    + constructor.
    + constructor.
    + by_computation.
    + intros d Hd. vm_compute in Hd. discriminate.
    + apply Hnone. intros d Hd [[v Hv] _]. vm_compute in Hd.
      injection Hd as <-. vm_compute in Hv. discriminate.
  - apply Hnowhere.
    + intros d Hd. vm_compute in Hd. discriminate.
    + intros pre tag ws1 body ws2 post Htext _ _ _.
      change (jlit "The answer: ```{'answer': 42}``` as asked.")
        with (lit "The answer: ```" ++ 123 :: jlit "'answer': 42"
              ++ 125 :: lit "``` as asked.") in Htext.
      apply fenced_only_block in Htext as ->; [|by_computation..].
      intros d Hd [[v Hv] _]. vm_compute in Hd.
      injection Hd as <-. vm_compute in Hv. discriminate.
  - apply Hplain. left. by_computation.
  - apply Hplain. right. split; [by_computation|].
    intros d Hd [[v Hv] _]. vm_compute in Hd.
    injection Hd as <-. vm_compute in Hv. discriminate.
Defined.

(** What the fenced request of the witness parses to. *)
Example fenced_request_parsed :
  Agent._parse_tool_call
    (fenced (lit "I will call the tool. ") (lit "json") [10]
            (jlit "'tool': 'x', 'args': {'a': 1}") [10]
            (jlit " Or else ```{'tool': 'y', 'args': {}}```"))
  = Some [(lit "tool", VStr (lit "x")); (lit "args", VDict [(lit "a", VInt 1)])].
Proof. vm_compute. reflexivity. Qed.

(** When the first fenced block is no request, a later one is not
    tried. *)
Example first_block_wins :
  Agent._parse_tool_call
    (jlit "First ```{'note': 1}``` then ```{'tool': 'y', 'args': {}}```")
  = None.
Proof. vm_compute. reflexivity. Qed.

(** [searcher]'s model asks for a tool nobody registered; [misrouted]'s
    router names an agent the pool does not have. *)
Lemma unknown_tool_or_agent_is_fatal_witness :
  (∃ e r',
     Agent.loop 1 searcher 0 (lit "find") [] start = (Raised e, r')
     ∧ exn_class e = lit "ValueError"
     ∧ trace r' = trace start ++ [EvGenerate (Agent.name searcher) (lit "find")])
  ∧ (∃ e r',
       Agent.run 1 searcher (lit "find") start = (Raised e, r')
       ∧ exn_class e = lit "ValueError"
       ∧ calls (trace r') = calls (trace start))
  ∧ (∃ e,
       Pool.loop 1 1 misrouted 0 None (lit "hi") (pool_start misrouted)
       = (Raised e, Pool.PoolRt (Pool.state misrouted) start)
       ∧ exn_class e = lit "ValueError")
  ∧ (∃ e,
       Pool.run 1 misrouted (lit "hi") (pool_start misrouted)
       = (Raised e,
          Pool.PoolRt
            (State.add_message (lit "user") (lit "hi") None (Pool.state misrouted))
            start)
       ∧ exn_class e = lit "ValueError").
Proof.
  destruct (unknown_tool_or_agent_is_fatal (World := unit))
    as (Htool & Hfirst & Hagent & Hrun).
  split_and!.
  - apply (Htool 0%nat searcher 0%nat (lit "find") [] start search_json tt
             [(lit "tool", VStr (lit "search"));
              (lit "args", VDict [(lit "q", VStr (lit "mars"))])]
             (lit "search")); vm_compute; reflexivity.
  - apply (Hfirst 0%nat searcher (lit "find") start search_json tt
             [(lit "tool", VStr (lit "search"));
              (lit "args", VDict [(lit "q", VStr (lit "mars"))])]
             (lit "search")); vm_compute; reflexivity.
  - apply (Hagent 0%nat 1%nat misrouted 0%nat None (lit "hi")
             (pool_start misrouted) (Pool.state misrouted) (lit "ghost"));
      [(vm_compute; lia)|reflexivity|(vm_compute; reflexivity)].
  - apply (Hrun 1%nat misrouted (lit "hi") (pool_start misrouted)
             (State.add_message (lit "user") (lit "hi") None (Pool.state misrouted))
             (lit "ghost"));
      [(vm_compute; lia)|reflexivity|(vm_compute; reflexivity)].
Defined.

(** The messages of the two errors. *)
Example unknown_tool_message :
  (Agent.run 1 searcher (lit "find") start).1
  = Raised (ValueError (lit "Tool 'search' not found in agent's toolset.")).
Proof. vm_compute. reflexivity. Qed.

Example unknown_agent_message :
  (Pool.run 1 misrouted (lit "hi") (pool_start misrouted)).1
  = Raised (ValueError (lit "Router selected unknown agent 'ghost'")).
Proof. vm_compute. reflexivity. Qed.

(** [repeater]'s model asks for [repeat]; its stop condition always says
    stop. *)
(** [patient_repeater] stops from index 2 on: two turns pass, and the
    third ends the run. *)
Lemma stop_condition_ends_run_witness :
  Agent.should_stop (Agent.stop_conditions patient_repeater) 0
    [Agent.Entry (lit "user") (VStr (lit "go")); repeat_said; repeat_called]
  = false
  ∧ Agent.should_stop (Agent.stop_conditions patient_repeater) 1
      [Agent.Entry (lit "user") (VStr (lit "go")); repeat_said; repeat_called;
       repeat_said; repeat_called]
    = false
  ∧ Agent.should_stop (Agent.stop_conditions patient_repeater) 2
      [Agent.Entry (lit "user") (VStr (lit "go")); repeat_said; repeat_called;
       repeat_said; repeat_called; repeat_said; repeat_called]
    = true
  ∧ (Agent.run 3 patient_repeater (lit "go") start).1
    = Returned (lit "Stopped after 3 steps due to stop condition.")
  ∧ calls (trace (Agent.run 3 patient_repeater (lit "go") start).2) = 3%nat.
Proof.
  split; [reflexivity|]. split; [reflexivity|]. split; [reflexivity|].
  assert (Hturn : ∀ prompt r,
    tool_turn patient_repeater prompt r [repeat_said; repeat_called]
      (Rt tt ((trace r ++ [EvGenerate (lit "repeat-agent") prompt])
              ++ [EvCall (lit "repeat")
                    [(lit "text", VStr (lit "ha")); (lit "times", VInt 3)]]))).
  { intros prompt [[] tr].
    exists repeat_json, tt,
      [(lit "tool", VStr (lit "repeat"));
       (lit "args", VDict [(lit "text", VStr (lit "ha")); (lit "times", VInt 3)])],
      (lit "repeat"),
      (VDict [(lit "text", VStr (lit "ha")); (lit "times", VInt 3)]),
      repeat_tool, (VStr (lit "hahaha")).
    split_and!; try reflexivity; vm_compute; reflexivity. }
  edestruct (stop_condition_ends_run 0 patient_repeater (lit "go") start 2)
    as [Hstop _].
  - eapply tool_turns_more; [apply Hturn|reflexivity|].
    eapply tool_turns_more; [apply Hturn|reflexivity|].
    apply tool_turns_none.
  - apply Hturn.
  - destruct (Hstop eq_refl) as [Hrun _].
    change (3 + 0)%nat with 3%nat in Hrun. rewrite Hrun. split; [reflexivity|].
    vm_compute. reflexivity.
Defined.

(** Round-robin over [A, B, C], as in the specification's example. *)
Lemma round_robin_router_spec_witness :
  Router.round_robin_router [lit "A"; lit "B"; lit "C"] 0%nat None
  = Router.Done (Some {| Router.next_agent_name := Some (lit "A") |})
  ∧ Router.round_robin_router [lit "A"; lit "B"; lit "C"] 1%nat None
    = Router.Done (Some {| Router.next_agent_name := Some (lit "B") |})
  ∧ Router.round_robin_router [lit "A"; lit "B"; lit "C"] 2%nat None
    = Router.Done (Some {| Router.next_agent_name := Some (lit "C") |})
  ∧ Router.round_robin_router [lit "A"; lit "B"; lit "C"] 3%nat None
    = Router.Done (Some {| Router.next_agent_name := None |}).
Proof.
  split_and!.
  - destruct (round_robin_router_spec [lit "A"; lit "B"; lit "C"] 0%nat None)
      as [Hin _].
    destruct Hin as (n & Hn & ->); [simpl; lia|]. by injection Hn as <-.
  - destruct (round_robin_router_spec [lit "A"; lit "B"; lit "C"] 1%nat None)
      as [Hin _].
    destruct Hin as (n & Hn & ->); [simpl; lia|]. by injection Hn as <-.
  - destruct (round_robin_router_spec [lit "A"; lit "B"; lit "C"] 2%nat None)
      as [Hin _].
    destruct Hin as (n & Hn & ->); [simpl; lia|]. by injection Hn as <-.
  - destruct (round_robin_router_spec [lit "A"; lit "B"; lit "C"] 3%nat None)
      as [_ Hout].
    apply Hout. simpl. lia.
Defined.



(** The run of [trio]: three agent runs, the last answer as the result,
    and a history that grew by the user's message and three answers. *)
Example trio_run :
  (Pool.run 1 trio (lit "hi") (pool_start trio)).1 = Returned (lit "Hello there!")
  ∧ agent_runs (trace (Pool.agents_rt (Pool.run 1 trio (lit "hi") (pool_start trio)).2))
    = 3%nat
  ∧ State.history (Pool.shared (Pool.run 1 trio (lit "hi") (pool_start trio)).2)
    = [State.Message (lit "user") (lit "hi") None;
       State.Message (lit "assistant") (lit "Hello there!") (Some (lit "greeter"));
       State.Message (lit "assistant") (lit "Hello there!") (Some (lit "greeter"));
       State.Message (lit "assistant") (lit "Hello there!") (Some (lit "greeter"))].
Proof. split_and!; vm_compute; reflexivity. Qed.

(** *** The further properties at concrete inputs *)

Lemma final_answer_is_returned_witness :
  Agent.run 1 greeter (lit "hi") start
  = (Returned (lit "Hello there!"),
     answered greeter
       (Agent._build_initial_prompt greeter [Agent.Entry (lit "user") (VStr (lit "hi"))])
       tt start).
Proof.
  apply (final_answer_is_returned 0 greeter (lit "hi") start (lit "Hello there!") tt);
    vm_compute; reflexivity.
Defined.

Lemma unhashable_tool_name_raises_witness :
  ∃ e,
    Agent.loop 1 lister 0 (lit "go") [] start
    = (Raised e, answered lister (lit "go") tt start)
    ∧ exn_class e = lit "TypeError".
Proof.
  apply (unhashable_tool_name_raises 0 lister 0 (lit "go") [] start
           (jlit "{'tool': ['repeat'], 'args': {}}") tt
           [(lit "tool", VList [VStr (lit "repeat")]); (lit "args", VDict [])]);
    vm_compute; reflexivity.
Defined.

Lemma pool_result_is_last_assistant_message_witness :
  Pool.final [State.Message (lit "user") (lit "hi") None;
              State.Message (lit "assistant") (lit "one") (Some (lit "a"));
              State.Message (lit "assistant") (lit "two") (Some (lit "b"))]
  = lit "two"
  ∧ Pool.final [State.Message (lit "assistant") (lit "one") (Some (lit "a"));
                State.Message (lit "user") (lit "hi") None]
    = Pool.final [State.Message (lit "assistant") (lit "one") (Some (lit "a"))]
  ∧ lit "Hello there!"
    = Pool.final (State.history (Pool.shared
        (Pool.run 1 trio (lit "hi") (pool_start trio)).2)).
Proof.
  destruct (pool_result_is_last_assistant_message (World := unit))
    as (_ & Hlast & Hskip & Hrun).
  split_and!.
  - apply (Hlast [State.Message (lit "user") (lit "hi") None;
                  State.Message (lit "assistant") (lit "one") (Some (lit "a"))]
                 (State.Message (lit "assistant") (lit "two") (Some (lit "b")))).
    reflexivity.
  - apply (Hskip [State.Message (lit "assistant") (lit "one") (Some (lit "a"))]
                 (State.Message (lit "user") (lit "hi") None)).
    by_computation.
  - apply (Hrun 1%nat trio (lit "hi") (pool_start trio)).
    vm_compute. reflexivity.
Defined.

Lemma router_termination_ends_run_witness :
  (0 < Pool.max_iter idle)%nat
  ∧ Router.exec (Pool.router idle 0%nat None)
      (State.add_message (lit "user") (lit "hi") None
         (Pool.shared (pool_start idle)))
    = (Returned (Some {| Router.next_agent_name := None |}),
       State.mk ∅ [State.Message (lit "user") (lit "hi") None])
  ∧ Pool.run 1 idle (lit "hi") (pool_start idle)
    = (Returned (Pool.final [State.Message (lit "user") (lit "hi") None]),
       Pool.PoolRt (State.mk ∅ [State.Message (lit "user") (lit "hi") None])
         start).
Proof.
  split; [vm_compute; lia|]. split; [reflexivity|].
  apply (router_termination_ends_run 1 idle (lit "hi") (pool_start idle)
           (Some {| Router.next_agent_name := None |})
           (State.mk ∅ [State.Message (lit "user") (lit "hi") None]));
    [(vm_compute; lia)|reflexivity|by right].
Defined.

Lemma pool_turn_chains_output_witness :
  Pool.loop 3 1 trio 0 None (lit "hi") (pool_start trio)
  = Pool.loop 2 1 trio 1
      (Some {| Router.agent := lit "greeter"; Router.output := lit "Hello there!" |})
      (lit "Hello there!")
      (Pool.PoolRt
         (State.add_message (lit "assistant") (lit "Hello there!")
            (Some (lit "greeter")) (Pool.state trio))
         (Rt tt [EvAgentRun (lit "greeter") (lit "hi");
                 EvGenerate (lit "greeter")
                   (Agent._build_initial_prompt greeter
                      [Agent.Entry (lit "user") (VStr (lit "hi"))])])).
Proof.
  apply (pool_turn_chains_output 2 1 trio 0 None (lit "hi") (pool_start trio)
           (Pool.state trio) (lit "greeter") greeter (lit "Hello there!"));
    [(vm_compute; lia)|reflexivity|(vm_compute; reflexivity)
    |(vm_compute; reflexivity)].
Defined.

Lemma state_get_set_witness :
  State.get (lit "topic") VNone
    (State.set (lit "topic") (VStr (lit "mars")) (State.init None))
  = VStr (lit "mars")
  ∧ State.get (lit "mood") (VStr (lit "calm"))
      (State.set (lit "topic") (VStr (lit "mars")) (State.init None))
    = State.get (lit "mood") (VStr (lit "calm")) (State.init None)
  ∧ State.kv (State.set (lit "topic") (VStr (lit "mars")) (State.init None))
    !! lit "mood" = None
  ∧ State.get (lit "mood") (VStr (lit "calm"))
      (State.set (lit "topic") (VStr (lit "mars")) (State.init None))
    = VStr (lit "calm").
Proof.
  destruct state_get_set as (Hsame & Hother & Habsent & _ & _).
  assert (Hkey : State.kv (State.set (lit "topic") (VStr (lit "mars"))
                             (State.init None)) !! lit "mood" = None).
  { unfold State.set, State.init. cbn [State.kv default].
    rewrite lookup_insert_ne by by_computation. apply lookup_empty. }
  split; [apply Hsame|]. split; [apply Hother; by_computation|].
  split; [exact Hkey|]. apply Habsent, Hkey.
Defined.

Lemma registry_keeps_last_witness :
  Agent.tools
    (Agent.init (lit "a") (says (lit "ok")) (lit "p") (lit "d")
       [repeat_tool; loose_repeat_tool] None) !! lit "repeat"
  = last (filter (fun tool => Tool.name tool = lit "repeat")
            [repeat_tool; loose_repeat_tool]).
Proof.
  destruct (registry_keeps_last (World := unit)) as [Htools _].
  apply Htools.
Defined.

(** [repeat] is given [times] as a string and no [text]: the missing
    [text], declared first, is what is reported. *)
Lemma first_bad_parameter_decides_witness :
  Tool.run repeat_tool (VDict [(lit "times", VStr (lit "3"))]) start
  = (Raised (Tool.missing_parameter (lit "repeat") (lit "text")), start).
Proof.
  destruct (first_bad_parameter_decides repeat_tool
              [(lit "times", VStr (lit "3"))] start
              [] (lit "text") TStr [(lit "times", TInt)])
    as [Hmissing _]; [reflexivity|by intros key ty Hin%elem_of_nil|].
  apply Hmissing. reflexivity.
Defined.

(** *** The properties of the model, the parser and the loops at concrete inputs *)

Lemma run_needs_a_mapping_witness :
  ∃ e, Tool.run repeat_tool (VList [VStr (lit "text"); VStr (lit "times")]) start
       = (Raised e, start)
       ∧ (exn_class e = lit "TypeError" ∨ exn_class e = lit "ValueError").
Proof. apply (run_needs_a_mapping repeat_tool); by intros d. Defined.

Lemma stop_condition_bounds_run_witness :
  ∃ s',
    Agent.run 5 patient_repeater (lit "say ha three times") start
    = (Returned (Agent.stopped_message 3), s')
    ∧ generations (trace s') = (generations (trace start) + 3)%nat
    ∧ calls (trace s') = (calls (trace start) + 3)%nat.
Proof.
  apply (stop_condition_bounds_run patient_repeater repeat_json
           [(lit "tool", VStr (lit "repeat"));
            (lit "args", VDict [(lit "text", VStr (lit "ha")); (lit "times", VInt 3)])]
           (lit "repeat") repeat_tool
           [(lit "text", VStr (lit "ha")); (lit "times", VInt 3)]).
  - intros prompt w. by exists w.
  - vm_compute. reflexivity.
  - reflexivity.
  - vm_compute. reflexivity.
  - reflexivity.
  - apply accepted_conforms. reflexivity.
  - intros w. by eexists _, _.
  - intros i memory Hi. destruct i as [|[|i]]; [reflexivity..|lia].
  - intros memory. reflexivity.
  - lia.
Defined.

Lemma run_without_stop_takes_every_turn_witness :
  ∃ s',
    Agent.run 4 tireless_repeater (lit "say ha three times") start
    = (OutOfFuel, s')
    ∧ generations (trace s') = (generations (trace start) + 4)%nat
    ∧ calls (trace s') = (calls (trace start) + 4)%nat.
Proof.
  apply (run_without_stop_takes_every_turn tireless_repeater repeat_json
           [(lit "tool", VStr (lit "repeat"));
            (lit "args", VDict [(lit "text", VStr (lit "ha")); (lit "times", VInt 3)])]
           (lit "repeat") repeat_tool
           [(lit "text", VStr (lit "ha")); (lit "times", VInt 3)]).
  - intros prompt w. by exists w.
  - vm_compute. reflexivity.
  - reflexivity.
  - vm_compute. reflexivity.
  - reflexivity.
  - apply accepted_conforms. reflexivity.
  - intros w. by eexists _, _.
  - intros i memory. reflexivity.
Defined.

Lemma parsed_tool_call_provenance_witness :
  (∃ tool_name args,
     dict_get (lit "tool")
       [(lit "tool", VStr (lit "repeat"));
        (lit "args", VDict [(lit "text", VStr (lit "ha")); (lit "times", VInt 3)])]
     = Some tool_name
     ∧ dict_get (lit "args")
         [(lit "tool", VStr (lit "repeat"));
          (lit "args", VDict [(lit "text", VStr (lit "ha")); (lit "times", VInt 3)])]
       = Some args)
  ∧ (Json.loads (strip (lit "Sure: ```json " ++ repeat_json ++ lit " ``` done"))
     = Some (VDict
               [(lit "tool", VStr (lit "repeat"));
                (lit "args", VDict [(lit "text", VStr (lit "ha")); (lit "times", VInt 3)])])
     ∨ ∃ pre tag ws1 body ws2 post,
         lit "Sure: ```json " ++ repeat_json ++ lit " ``` done"
         = fenced pre tag ws1 body ws2 post
         ∧ (tag = [] ∨ tag = lit "json") ∧ blank ws1 ∧ blank ws2
         ∧ Json.loads (lit "{" ++ body ++ lit "}")
           = Some (VDict
               [(lit "tool", VStr (lit "repeat"));
                (lit "args", VDict [(lit "text", VStr (lit "ha")); (lit "times", VInt 3)])])).
Proof.
  apply (parsed_tool_call_provenance
           (lit "Sure: ```json " ++ repeat_json ++ lit " ``` done")).
  vm_compute. reflexivity.
Defined.

Lemma pool_run_propagates_faults_witness :
  Pool.loop 5 3 unrouted 0%nat None (lit "hi") (pool_start unrouted)
  = (Raised (TypeError (lit "Pool.__init__.<locals>.<lambda>() got an unexpected keyword argument 'last_result'")),
     pool_start unrouted)
  ∧ Pool.loop 5 3 stranded 0%nat None (lit "hi") (pool_start stranded)
    = (Raised (Exn (lit "RuntimeError") (lit "Groq API error: 503, unavailable")),
       Pool.PoolRt (State.init None)
         (Agent.run 3 offline (lit "hi")
            (Rt tt [EvAgentRun (lit "offline") (lit "hi")])).2).
Proof.
  destruct (pool_run_propagates_faults 4 3 unrouted 0 None (lit "hi")
              (pool_start unrouted)) as [Hrouter _]; [vm_compute; lia|].
  destruct (pool_run_propagates_faults 4 3 stranded 0 None (lit "hi")
              (pool_start stranded)) as [_ Hagent]; [vm_compute; lia|].
  split.
  - apply (Hrouter _ (Pool.shared (pool_start unrouted))). reflexivity.
  - apply (Hagent (State.init None) (lit "offline") offline); reflexivity.
Defined.

(** The run of [stranded] ends with the fault of its model, and the
    history holds the user's message only. *)
Example stranded_run :
  Pool.run 3 stranded (lit "hi") (pool_start stranded)
  = (Raised (Exn (lit "RuntimeError") (lit "Groq API error: 503, unavailable")),
     Pool.PoolRt
       (State.mk ∅ [State.Message (lit "user") (lit "hi") None])
       (Rt tt [EvAgentRun (lit "offline") (lit "hi");
               EvGenerate (lit "offline")
                 (Agent._build_initial_prompt offline
                    [Agent.Entry (lit "user") (VStr (lit "hi"))])])).
Proof. vm_compute. reflexivity. Qed.

Lemma round_robin_pool_runs_agents_in_order_witness :
  ∃ result s' msgs,
    Pool.run 3 duo (lit "hi") (pool_start duo) = (Returned result, s')
    ∧ State.history (Pool.shared s')
      = State.history (Pool.shared (pool_start duo))
        ++ State.Message (lit "user") (lit "hi") None :: msgs
    ∧ map State.agent msgs
      = map Some (take (Pool.max_iter duo) [lit "greeter"; lit "echo"])
    ∧ Forall (fun m => State.role m = lit "assistant") msgs
    ∧ result = Pool.final (State.history (Pool.shared s')).
Proof.
  apply (round_robin_pool_runs_agents_in_order duo [lit "greeter"; lit "echo"] 3).
  - reflexivity.
  - intros n Hn. rewrite !elem_of_cons, elem_of_nil in Hn.
    destruct Hn as [->|[->|[]]].
    + exists greeter. split; [vm_compute; reflexivity|reflexivity].
    + exists echo. split; [vm_compute; reflexivity|reflexivity].
  - intros n agent input r Hn.
    apply (registry_keys Agent.name [greeter; echo] ∅) in Hn as [[Hin _]|Hm];
      [|by rewrite lookup_empty in Hm].
    rewrite !elem_of_cons, elem_of_nil in Hin.
    destruct Hin as [->|[->|[]]];
      (eexists _, _; unfold Agent.run; eapply loop_final; [reflexivity|];
       vm_compute; reflexivity).
Defined.

Lemma parse_ignores_surrounding_blanks_witness :
  Agent._parse_tool_call ([10; 160; 32] ++ repeat_json ++ [12; 10])
  = Agent._parse_tool_call repeat_json.
Proof. apply parse_ignores_surrounding_blanks; repeat constructor. Defined.

(** [repeat] asked for with its count as a string. *)
Lemma bad_tool_arguments_end_agent_run_witness :
  ∃ e,
    Agent.loop 1 sloppy_repeater 0 (lit "go") [] start
    = (Raised e, answered sloppy_repeater (lit "go") tt start)
    ∧ (exn_class e = lit "TypeError" ∨ exn_class e = lit "ValueError").
Proof.
  apply (bad_tool_arguments_end_agent_run 0 sloppy_repeater 0 (lit "go") [] start
           (jlit "{'tool': 'repeat', 'args': {'text': 'ha', 'times': '3'}}") tt
           [(lit "tool", VStr (lit "repeat"));
            (lit "args", VDict [(lit "text", VStr (lit "ha"));
                                (lit "times", VStr (lit "3"))])]
           (lit "repeat") repeat_tool).
  - reflexivity.
  - vm_compute. reflexivity.
  - reflexivity.
  - vm_compute. reflexivity.
  - intros d Hd. change (VDict [(lit "text", VStr (lit "ha"));
                                (lit "times", VStr (lit "3"))] = VDict d) in Hd.
    injection Hd as <-. apply rejected_conforms. reflexivity.
Defined.

Example sloppy_repeater_error :
  (Agent.run 3 sloppy_repeater (lit "go") start).1
  = Raised (TypeError (lit "Parameter 'times' should be of type <class 'int'>, got <class 'str'>")).
Proof. vm_compute. reflexivity. Qed.

Lemma run_invokes_callable_iff_witness :
  trace (Tool.run repeat_tool
           (VDict [(lit "text", VStr (lit "ha")); (lit "times", VBool true)]) start).2
  = trace start
    ++ [EvCall (Tool.name repeat_tool)
          [(lit "text", VStr (lit "ha")); (lit "times", VBool true)]]
  ∧ calls (trace (Tool.run repeat_tool
                    (VDict [(lit "text", VStr (lit "ha")); (lit "times", VBool true)])
                    start).2)
    = S (calls (trace start)).
Proof.
  destruct (run_invokes_callable_iff repeat_tool
              [(lit "text", VStr (lit "ha")); (lit "times", VBool true)] start)
    as [Hcall _].
  apply Hcall. apply well_typed_accepted, accepted_conforms. reflexivity.
Defined.

Lemma agent_run_propagates_faults_witness :
  Agent.loop 1 offline 0 (lit "go") [] start
  = (Raised (Exn (lit "RuntimeError") (lit "Groq API error: 503, unavailable")),
     answered offline (lit "go") tt start).
Proof.
  destruct (agent_run_propagates_faults 0 offline 0 (lit "go") [] start)
    as [Hmodel _].
  apply Hmodel. reflexivity.
Defined.

Lemma followup_prompt_shows_memory_witness :
  ∃ pre post,
    Agent.followup_prompt repeater
      (memory_after_call [Agent.Entry (lit "user") (VStr (lit "go"))] repeat_json
         [(lit "tool", VStr (lit "repeat")); (lit "args", VStr (lit "none"))]
         (VStr (lit "hahaha")))
    = pre ++ (lit "Tool '" ++ lit "repeat" ++ lit "' called with args:" ++ Agent.nl
              ++ lit "none" ++ Agent.nl ++ lit "Output:" ++ Agent.nl ++ lit "hahaha")
      ++ post.
Proof.
  destruct (followup_prompt_shows_memory repeater
              (memory_after_call [Agent.Entry (lit "user") (VStr (lit "go"))]
                 repeat_json
                 [(lit "tool", VStr (lit "repeat")); (lit "args", VStr (lit "none"))]
                 (VStr (lit "hahaha"))))
    as (_ & _ & Htool).
  apply (Htool (VStr (lit "repeat")) (VStr (lit "none")) (VStr (lit "hahaha"))).
  unfold memory_after_call, Agent._add_to_memory.
  rewrite !elem_of_app, !elem_of_cons. right. left. reflexivity.
Defined.

Lemma pool_names_are_registry_keys_witness :
  NoDup (Pool.agents_names duo)
  ∧ (lit "echo" ∈ Pool.agents_names duo <-> is_Some (Pool.agents_dict duo !! lit "echo")).
Proof.
  destruct (pool_names_are_registry_keys [greeter; echo] None
              (Some (Router.round_robin_router [lit "greeter"; lit "echo"])) 5 None)
    as (Hnodup & Hkeys & _ & _).
  split; [exact Hnodup|apply Hkeys].
Defined.

(** [benched] takes no turn and returns; [unrouted] has three turns to
    take and raises at the first. *)
Lemma pool_without_turns_or_router_witness :
  Pool.max_iter benched = 0%nat
  ∧ Pool.run 1 benched (lit "hi") (pool_start benched)
    = (Returned [],
       Pool.PoolRt
         (State.mk ∅ [State.Message (lit "user") (lit "hi") None]) start)
  ∧ (0 < 3)%nat
  ∧ ∃ e,
      Pool.run 1 unrouted (lit "hi") (pool_start unrouted)
      = (Raised e,
         Pool.PoolRt
           (State.mk ∅ [State.Message (lit "user") (lit "hi") None]) start)
      ∧ exn_class e = lit "TypeError".
Proof.
  destruct (pool_without_turns_or_router (World := unit)) as [Hzero Hdefault].
  split; [reflexivity|]. split.
  - exact (Hzero 1%nat benched (lit "hi") (pool_start benched) eq_refl).
  - split; [lia|].
    exact (Hdefault 1%nat [greeter] None 3%nat None (lit "hi")
             (pool_start unrouted) ltac:(lia)).
Defined.

(** *** GroqModel at concrete servers *)

Section GroqExamples.
#[local] Existing Instance served.

Lemma groq_api_key_precedence_witness :
  (∃ g, Groq.init None None (Some (lit "gsk-arg")) None (Rt answering [])
        = (Returned g, Rt answering [])
        ∧ Groq.api_key g = lit "gsk-arg")
  ∧ (∃ g, Groq.init None None (Some []) None (Rt answering [])
          = (Returned g, Rt answering [])
          ∧ Groq.api_key g = lit "gsk-env")
  ∧ (∃ e, Groq.init None None None None (Rt away []) = (Raised e, Rt away [])
          ∧ exn_class e = lit "OSError").
Proof.
  destruct (groq_api_key_precedence (World := net)) as (Harg & Henv & Hnone).
  split_and!.
  - apply Harg. reflexivity.
  - apply Henv; reflexivity.
  - apply Hnone; reflexivity.
Defined.

Lemma groq_error_status_raises_witness :
  Groq.generate llama (lit "hi") (Rt away [])
  = (Raised (RuntimeError (lit "Groq API error: 503, Service Unavailable")),
     Rt away []).
Proof.
  destruct (groq_error_status_raises llama (lit "hi") (Rt away [])) as [Hstatus _].
  apply (Hstatus
           (Groq.Response 503%Z (lit "Service Unavailable")
              (inl (Exn (lit "JSONDecodeError") (lit "Expecting value")))) away);
    [reflexivity|discriminate].
Defined.

Lemma groq_content_or_default_witness :
  Groq.generate llama (lit "hi") (Rt answering [])
  = (Returned (VStr (lit "Hello!")), Rt answering []).
Proof.
  destruct (groq_content_or_default llama (lit "hi") (Rt answering [])
              (Groq.Response 200%Z [] (inr (VDict hello_body))) answering hello_body)
    as [Hcontent _]; [reflexivity..|].
  eapply Hcontent; reflexivity.
Defined.

Lemma groq_generate_ignores_endpoint_url_witness :
  Groq.generate (World := net) llama (lit "hi")
  = Groq.generate llama_elsewhere (lit "hi").
Proof.
  destruct (groq_generate_ignores_endpoint_url (World := net)
              llama llama_elsewhere (lit "hi")) as (_ & _ & Hsame);
    [reflexivity|reflexivity| |exact Hsame].
  intros key Hin. rewrite !elem_of_cons, elem_of_nil in Hin.
  destruct Hin as [->|[->|[->|[]]]]; reflexivity.
Defined.

End GroqExamples.

End Examples.
